(** * go-git-analyzer-ollama: job tracker, analysis orchestrator and RAG pipeline

    A shallow embedding of
    - [internal/service] (RAG service: [chunkCode], [detectLanguage],
      [IndexChunks], [Query], [QueryStream]),
    - [internal/adapter/store/vector.go] ([StoreBatchEmbeddings],
      [SearchSimilar]),
    - [internal/handler/jobs.go] ([JobTracker]) and
    - [internal/handler/analysis_handler.go] ([runAnalysisJob]),
    together with the properties the specification states about them. *)

From Stdlib Require Import ZArith Lia Ascii.
From Stdlib Require Import Floats.SpecFloat.
From stdpp Require Import base option list strings gmap pretty.

Local Open Scope Z_scope.

(* ===================================================================== *)
(** ** The parts of Go's [strings] package the services use                *)
(* ===================================================================== *)

Module GoStrings.

(** Go strings are byte sequences; [string] is a list of 8-bit [ascii]. *)

Definition byteOf (c : ascii) : nat := nat_of_ascii c.

Definition LF : ascii := ascii_of_nat 10.
Definition newline : string := String LF EmptyString.

Definition isEmpty (s : string) : bool :=
  match s with EmptyString => true | String _ _ => false end.

(** [strings.Split(s, sep)] for a one-byte separator: always at least one
    piece; the empty string splits into one empty piece. *)
Fixpoint Split (s : string) (sep : ascii) : list string :=
  match s with
  | EmptyString => [EmptyString]
  | String c r =>
      if Ascii.eqb c sep then EmptyString :: Split r sep
      else match Split r sep with
           | l :: ls => String c l :: ls
           | [] => [String c EmptyString]
           end
  end.

(** [strings.Join(elems, sep)]. *)
Fixpoint Join (elems : list string) (sep : string) : string :=
  match elems with
  | [] => EmptyString
  | e :: rest =>
      match rest with
      | [] => e
      | _ :: _ => e +:+ sep +:+ Join rest sep
      end
  end.

(** The six ASCII white-space bytes of [strings.Fields]:
    tab, line feed, vertical tab, form feed, carriage return, space. *)
Definition isAsciiSpace (c : ascii) : bool :=
  let b := byteOf c in
  ((b =? 9) || (b =? 10) || (b =? 11) || (b =? 12) || (b =? 13) || (b =? 32))%nat.

(** Width in bytes of the white-space rune that starts [s], 0 when [s] does
    not start with one.  Beyond ASCII, [unicode.IsSpace] holds of U+0085,
    U+00A0, U+1680, U+2000..U+200A, U+2028, U+2029, U+202F, U+205F and
    U+3000; these are matched through their UTF-8 encodings.  Their lead
    bytes (C2, E1, E2, E3) are never continuation bytes, so Go's decoder
    stops at each of them, also in ill-formed input. *)
Definition spaceWidth (s : string) : nat :=
  match s with
  | EmptyString => 0%nat
  | String c0 r =>
      if isAsciiSpace c0 then 1%nat
      else
        match r with
        | EmptyString => 0%nat
        | String c1 r1 =>
            let b0 := byteOf c0 in
            let b1 := byteOf c1 in
            if (b0 =? 194)%nat then
              if ((b1 =? 133) || (b1 =? 160))%nat then 2%nat else 0%nat
            else
              match r1 with
              | EmptyString => 0%nat
              | String c2 _ =>
                  let b2 := byteOf c2 in
                  if (((b0 =? 225) && (b1 =? 154) && (b2 =? 128))
                      || ((b0 =? 226) && (b1 =? 128)
                          && (((128 <=? b2) && (b2 <=? 138))
                              || (b2 =? 168) || (b2 =? 169) || (b2 =? 175)))
                      || ((b0 =? 226) && (b1 =? 129) && (b2 =? 159))
                      || ((b0 =? 227) && (b1 =? 128) && (b2 =? 128)))%nat
                  then 3%nat else 0%nat
              end
        end
  end.

Definition flushField (cur : string) : list string :=
  if isEmpty cur then [] else [cur].

(** The scan of [strings.Fields]: [skip] counts the bytes still to pass of
    the white-space rune being read, [cur] is the field being collected. *)
Fixpoint fieldsFrom (s : string) (skip : nat) (cur : string) : list string :=
  match s with
  | EmptyString => flushField cur
  | String c r =>
      match skip with
      | S k => fieldsFrom r k cur
      | O =>
          match spaceWidth s with
          | O => fieldsFrom r 0 (cur +:+ String c EmptyString)
          | S w => flushField cur ++ fieldsFrom r w EmptyString
          end
      end
  end.

(** [strings.Fields(s)]. *)
Definition Fields (s : string) : list string := fieldsFrom s 0 EmptyString.

(** [strings.HasSuffix(s, suffix)]. *)
Definition HasSuffix (s suffix : string) : bool :=
  let n := String.length s in
  let k := String.length suffix in
  if (k <=? n)%nat then String.eqb (String.substring (n - k) k s) suffix
  else false.

(** [strings.ToLower] on the ASCII letters.  The only runes outside ASCII
    that Go lower-cases to an ASCII letter are U+0130 (to i) and U+212A
    (to k); neither letter occurs in a suffix [detectLanguage] tests, so
    for those tests this agrees with Go on every input. *)
Definition lowerByte (c : ascii) : ascii :=
  let b := byteOf c in
  if ((65 <=? b) && (b <=? 90))%nat then ascii_of_nat (b + 32) else c.

Fixpoint ToLower (s : string) : string :=
  match s with
  | EmptyString => EmptyString
  | String c r => String (lowerByte c) (ToLower r)
  end.

(** Go's [int] is 64 bits wide and wraps around. *)
Definition wrapInt (z : Z) : Z := (z + 2 ^ 63) mod 2 ^ 64 - 2 ^ 63.

End GoStrings.

(* ===================================================================== *)
(** ** The chunker ([chunkCode])                                           *)
(* ===================================================================== *)

Module Chunker.
Import GoStrings.

Definition wordCount (line : string) : Z := Z.of_nat (length (Fields line)).

(** The loop state: the chunks emitted so far, the buffered lines and the
    running token count of the buffer. *)
Record ChunkState := mkChunkState {
  chunks : list string;
  current : list string;
  currentLen : Z
}.

(** [for _, l := range current { currentLen += len(strings.Fields(l)) }] *)
Definition recount (ls : list string) : Z :=
  fold_left (fun acc l => wrapInt (acc + wordCount l)) ls 0.

(** One iteration of [for _, line := range lines]. *)
Definition chunkStep (maxTokens : Z) (st : ChunkState) (line : string) : ChunkState :=
  let wc := wordCount line in
  let st1 :=
    if (wrapInt (currentLen st + wc) >? maxTokens) && (0 <? length (current st))%nat
    then
      let overlap := if (length (current st) <? 3)%nat then length (current st) else 3%nat in
      let kept := drop (length (current st) - overlap) (current st) in
      mkChunkState (chunks st ++ [Join (current st) newline]) kept (recount kept)
    else st in
  mkChunkState (chunks st1) (current st1 ++ [line]) (wrapInt (currentLen st1 + wc)).

Definition chunkLoop (maxTokens : Z) (lines : list string) (st : ChunkState) : ChunkState :=
  fold_left (chunkStep maxTokens) lines st.

Definition chunkCode (content : string) (maxTokens : Z) : list string :=
  let lines := Split content LF in
  let st := chunkLoop maxTokens lines (mkChunkState [] [] 0) in
  if (0 <? length (current st))%nat
  then chunks st ++ [Join (current st) newline]
  else chunks st.

(** *** Vocabulary of the chunker's specification *)

(** The lines of a chunk. *)
Definition linesOf (chunk : string) : list string := Split chunk LF.

(** The number of lines a chunk shares with its predecessor [prev]. *)
Definition overlapWith (prev : list string) : nat := Nat.min 3 (length prev).

(** Every chunk but the first starts with the last [overlapWith prev] lines
    of the chunk [prev] before it. *)
Fixpoint overlapChain (cs : list (list string)) : Prop :=
  match cs with
  | [] => True
  | p :: rest =>
      match rest with
      | [] => True
      | c :: _ =>
          take (overlapWith p) c = drop (length p - overlapWith p) p
          /\ overlapChain rest
      end
  end.

(** The chunks after [prev], each without the lines it repeats. *)
Fixpoint dropOverlaps (prev : list string) (cs : list (list string)) : list string :=
  match cs with
  | [] => []
  | c :: rest => drop (overlapWith prev) c ++ dropOverlaps c rest
  end.

(** Concatenation of the chunks without their leading overlap. *)
Definition reconstruct (cs : list (list string)) : list string :=
  match cs with
  | [] => []
  | c :: rest => c ++ dropOverlaps c rest
  end.

(** The windows of lines the loop emits when it continues from the buffer
    [cur] (holding [len] tokens) over the remaining [lines]: the loop of
    [chunkCode] read from its current iteration on. *)
Fixpoint windows (maxTokens : Z) (cur : list string) (len : Z)
    (lines : list string) : list (list string) :=
  match lines with
  | [] => if (0 <? length cur)%nat then [cur] else []
  | line :: rest =>
      let wc := wordCount line in
      if (wrapInt (len + wc) >? maxTokens) && (0 <? length cur)%nat
      then
        let overlap := if (length cur <? 3)%nat then length cur else 3%nat in
        let kept := drop (length cur - overlap) cur in
        cur :: windows maxTokens (kept ++ [line]) (wrapInt (recount kept + wc)) rest
      else windows maxTokens (cur ++ [line]) (wrapInt (len + wc)) rest
  end.

(** [s] holds the byte [c]. *)
Fixpoint hasByte (c : ascii) (s : string) : bool :=
  match s with
  | EmptyString => false
  | String d r => Ascii.eqb d c || hasByte c r
  end.

End Chunker.

(* ===================================================================== *)
(** ** Go functions with effects                                           *)
(* ===================================================================== *)

Module Go.

(** A Go result pair [(T, error)]: either the value with a nil error, or
    the error (its message). *)
Inductive Result (A : Type) : Type :=
| Ok (a : A)
| Err (e : string).
Arguments Ok {A} a.
Arguments Err {A} e.

(** Effectful code threads a world [W]; [None] as the answer means the
    goroutine panicked, and the world is the one at the panic. *)
Definition M (W A : Type) : Type := W -> option A * W.

Definition ret {W A} (a : A) : M W A := fun w => (Some a, w).

Definition bind {W A B} (c : M W A) (k : A -> M W B) : M W B :=
  fun w =>
    match c w with
    | (Some a, w') => k a w'
    | (None, w') => (None, w')
    end.

Definition panic {W A} : M W A := fun w => (None, w).
Definition get {W} : M W W := fun w => (Some w, w).
Definition modify {W} (f : W -> W) : M W unit := fun w => (Some tt, f w).

(** [for _, x := range xs { body x }] *)
Fixpoint forEach {W A} (xs : list A) (body : A -> M W unit) : M W unit :=
  match xs with
  | [] => ret tt
  | x :: rest => bind (body x) (fun _ => forEach rest body)
  end.

Declare Scope go_scope.
Delimit Scope go_scope with go.
Notation "x <- c ;; k" := (bind c (fun x => k))
  (at level 100, c at next level, right associativity) : go_scope.
Notation "c ;;; k" := (bind c (fun _ => k))
  (at level 100, right associativity) : go_scope.

End Go.

(* ===================================================================== *)
(** ** The RAG service and the vector store                                *)
(* ===================================================================== *)

Module Rag.
Import GoStrings Chunker Go.
Local Open Scope go_scope.

(** [domain.Embedding]; [ID] and [CreatedAt] are assigned by the database
    and are the zero values in the records the service builds. *)
Record Embedding := mkEmbedding {
  ID : string;
  SnapshotID : string;
  RepoID : string;
  FilePath : string;
  ChunkIndex : Z;
  Content : string;
  Language : string;
  Vector : list spec_float;
  CreatedAt : Z
}.

(** [domain.SimilarChunk] *)
Record SimilarChunk := mkSimilarChunk {
  chunk : Embedding;
  Similarity : spec_float
}.

(** A call made to the AI provider. *)
Inductive AICall :=
| CallEmbed (text : string)
| CallEmbedBatch (texts : list string)
| CallChat (systemPrompt userPrompt : string) (contextChunks : list string)
| CallChatStream (systemPrompt userPrompt : string) (contextChunks : list string).

Definition isChatCall (c : AICall) : bool :=
  match c with
  | CallChat _ _ _ | CallChatStream _ _ _ => true
  | _ => false
  end.

(** [port.AIProvider]: the provider is outside the program, so each method
    is an oracle; its first argument is the number of provider calls made
    before this one, which lets the answer change from call to call.  The
    stream of [ChatStream] is the list of fragments it will carry. *)
Record AIProvider := mkAIProvider {
  Embed : nat -> string -> Result (list spec_float);
  EmbedBatch : nat -> list string -> Result (list (list spec_float));
  Chat : nat -> string -> string -> list string -> Result string;
  ChatStream : nat -> string -> string -> list string -> Result (list string)
}.

(** What the similarity SELECT answers: the query fails, a row fails to
    scan, or the rows arrive. *)
Inductive SelectAnswer :=
| QueryFailed (e : string)
| ScanFailed (e : string)
| Rows (results : list SimilarChunk).

(** PostgreSQL with pgvector, seen from [VectorStore]: whether the n-th
    statement or transaction fails (with which error), and what the
    similarity SELECT answers on the current table. *)
Record Database := mkDatabase {
  txError : nat -> list Embedding -> option string;
  selectSimilar :
    nat -> list Embedding -> string -> list spec_float -> Z -> SelectAnswer
}.

(** The world the service acts on: the [embeddings] table, the number of
    database operations so far and the provider calls so far. *)
Record World := mkWorld {
  rows : list Embedding;
  dbOps : nat;
  aiLog : list AICall
}.

Definition logCall (c : AICall) : M World unit :=
  modify (fun w => mkWorld (rows w) (dbOps w) (aiLog w ++ [c])).

Definition callEmbed (ai : AIProvider) (text : string)
  : M World (Result (list spec_float)) :=
  w <- get ;;
  logCall (CallEmbed text) ;;;
  ret (Embed ai (length (aiLog w)) text).

Definition callEmbedBatch (ai : AIProvider) (texts : list string)
  : M World (Result (list (list spec_float))) :=
  w <- get ;;
  logCall (CallEmbedBatch texts) ;;;
  ret (EmbedBatch ai (length (aiLog w)) texts).

Definition callChat (ai : AIProvider) (sys user : string) (ctx : list string)
  : M World (Result string) :=
  w <- get ;;
  logCall (CallChat sys user ctx) ;;;
  ret (Chat ai (length (aiLog w)) sys user ctx).

Definition callChatStream (ai : AIProvider) (sys user : string) (ctx : list string)
  : M World (Result (list string)) :=
  w <- get ;;
  logCall (CallChatStream sys user ctx) ;;;
  ret (ChatStream ai (length (aiLog w)) sys user ctx).

(** [VectorStore.StoreBatchEmbeddings]: nothing to do on an empty batch;
    otherwise one transaction, which either commits every row or, on any
    error (begin, prepare, insert, commit), is rolled back. *)
Definition StoreBatchEmbeddings (db : Database) (embeddings : list Embedding)
  : M World (option string) :=
  match embeddings with
  | [] => ret None
  | _ :: _ =>
      w <- get ;;
      match txError db (dbOps w) embeddings with
      | Some e =>
          modify (fun w => mkWorld (rows w) (S (dbOps w)) (aiLog w)) ;;;
          ret (Some e)
      | None =>
          modify (fun w => mkWorld (rows w ++ embeddings) (S (dbOps w)) (aiLog w)) ;;;
          ret None
      end
  end.

(** [VectorStore.SearchSimilar] *)
Definition SearchSimilar (db : Database) (repoID : string)
    (queryVector : list spec_float) (limit : Z)
  : M World (Result (list SimilarChunk)) :=
  w <- get ;;
  modify (fun w => mkWorld (rows w) (S (dbOps w)) (aiLog w)) ;;;
  match selectSimilar db (dbOps w) (rows w) repoID queryVector limit with
  | QueryFailed e => ret (Err ("search similar: " +:+ e))
  | ScanFailed e => ret (Err ("scan similar: " +:+ e))
  | Rows results => ret (Ok results)
  end.

(** [detectLanguage] *)
Definition detectLanguage (filePath : string) : string :=
  let ext := ToLower filePath in
  if HasSuffix ext ".go" then "go"
  else if HasSuffix ext ".ts" || HasSuffix ext ".tsx" then "typescript"
  else if HasSuffix ext ".js" || HasSuffix ext ".jsx" then "javascript"
  else if HasSuffix ext ".py" then "python"
  else if HasSuffix ext ".rs" then "rust"
  else if HasSuffix ext ".java" then "java"
  else if HasSuffix ext ".rb" then "ruby"
  else if HasSuffix ext ".sql" then "sql"
  else if HasSuffix ext ".yaml" || HasSuffix ext ".yml" then "yaml"
  else if HasSuffix ext ".json" then "json"
  else if HasSuffix ext ".md" then "markdown"
  else "unknown".

(** The loop that fills [embeddings] in [IndexChunks], from index [i] on;
    [vectors[i]] out of range panics ([None]). *)
Fixpoint buildEmbeddings (snapshotID repoID filePath : string) (i : nat)
    (chunks : list string) (vectors : list (list spec_float))
  : option (list Embedding) :=
  match chunks with
  | [] => Some []
  | chunk :: rest =>
      match vectors !! i with
      | None => None
      | Some v =>
          match buildEmbeddings snapshotID repoID filePath (S i) rest vectors with
          | None => None
          | Some es =>
              Some (mkEmbedding EmptyString snapshotID repoID filePath
                      (Z.of_nat i) chunk (detectLanguage filePath) v 0 :: es)
          end
      end
  end.

(** The body of [for filePath, content := range files] in [IndexChunks]. *)
Definition indexFile (ai : AIProvider) (db : Database)
    (repoID snapshotID : string) (file : string * string) : M World unit :=
  let '(filePath, content) := file in
  let chunks := chunkCode content 512 in
  if (length chunks =? 0)%nat then ret tt
  else
    r <- callEmbedBatch ai chunks ;;
    match r with
    | Err _ => ret tt
    | Ok vectors =>
        match buildEmbeddings snapshotID repoID filePath 0 chunks vectors with
        | None => panic
        | Some embeddings =>
            StoreBatchEmbeddings db embeddings ;;; ret tt
        end
    end.

(** [RAGService.IndexChunks]; [files] lists the entries of the Go map in
    the order the [range] statement visits them, which Go leaves open.  The
    answer is the returned error, always nil. *)
Definition IndexChunks (ai : AIProvider) (db : Database)
    (repoID snapshotID : string) (files : list (string * string))
  : M World (option string) :=
  forEach files (indexFile ai db repoID snapshotID) ;;;
  ret None.

Definition noRelevantCode : string := "No relevant code found for this query.".

Definition querySystemPrompt : string :=
  "You are CodeLens AI, an expert code analyst. Answer questions about the codebase using the provided code context. "
  +:+ newline
  +:+ "Be precise, reference specific files and functions, and provide code examples when relevant."
  +:+ newline
  +:+ "Always cite the source file when referencing code.".

Definition streamSystemPrompt : string :=
  "You are CodeLens AI, an expert code analyst. Answer questions about the codebase using the provided code context."
  +:+ newline
  +:+ "Be precise, reference specific files and functions.".

Section Queries.

(** [fmt.Sprintf] of a similarity with the verb [%.2f]. *)
Variable formatSimilarity : spec_float -> string.

Definition queryContextPart (c : SimilarChunk) : string :=
  "// File: " +:+ FilePath (chunk c) +:+ " (similarity: "
  +:+ formatSimilarity (Similarity c) +:+ ")" +:+ newline +:+ Content (chunk c).

Definition streamContextPart (c : SimilarChunk) : string :=
  "// File: " +:+ FilePath (chunk c) +:+ newline +:+ Content (chunk c).

(** [RAGService.Query] *)
Definition Query (ai : AIProvider) (db : Database) (repoID question : string)
  : M World (Result (string * list SimilarChunk)) :=
  r <- callEmbed ai question ;;
  match r with
  | Err e => ret (Err ("embed query: " +:+ e))
  | Ok queryVector =>
      r <- SearchSimilar db repoID queryVector 10 ;;
      match r with
      | Err e => ret (Err ("search similar: " +:+ e))
      | Ok chunks =>
          if (length chunks =? 0)%nat then ret (Ok (noRelevantCode, []))
          else
            let contextParts := map queryContextPart chunks in
            r <- callChat ai querySystemPrompt question contextParts ;;
            match r with
            | Err e => ret (Err ("chat: " +:+ e))
            | Ok response => ret (Ok (response, chunks))
            end
      end
  end.

(** [RAGService.QueryStream] *)
Definition QueryStream (ai : AIProvider) (db : Database) (repoID question : string)
  : M World (Result (list string * list SimilarChunk)) :=
  r <- callEmbed ai question ;;
  match r with
  | Err e => ret (Err ("embed query: " +:+ e))
  | Ok queryVector =>
      r <- SearchSimilar db repoID queryVector 10 ;;
      match r with
      | Err e => ret (Err ("search similar: " +:+ e))
      | Ok chunks =>
          let contextParts := map streamContextPart chunks in
          r <- callChatStream ai streamSystemPrompt question contextParts ;;
          match r with
          | Err e => ret (Err ("chat stream: " +:+ e))
          | Ok stream => ret (Ok (stream, chunks))
          end
      end
  end.

End Queries.

(** *** Vocabulary of the indexer's specification *)

(** The chunks of a file, as [IndexChunks] cuts them. *)
Definition chunksOf (file : string * string) : list string :=
  chunkCode file.2 512.

(** The row stored for chunk [i] of the file at [filePath]. *)
Definition rowFor (snapshotID repoID filePath : string) (i : nat)
    (chunk : string) (v : list spec_float) : Embedding :=
  mkEmbedding EmptyString snapshotID repoID filePath (Z.of_nat i) chunk
    (detectLanguage filePath) v 0.

(** The rows [IndexChunks] stores for a file whose embedding call is the
    provider call number [n], when the store commits. *)
Definition storedFor (ai : AIProvider) (snapshotID repoID : string) (n : nat)
    (file : string * string) : list Embedding :=
  match EmbedBatch ai n (chunksOf file) with
  | Err _ => []
  | Ok vectors =>
      default [] (buildEmbeddings snapshotID repoID file.1 0 (chunksOf file) vectors)
  end.

(** The same for a list of files, the first call having number [n]. *)
Fixpoint storedAll (ai : AIProvider) (snapshotID repoID : string) (n : nat)
    (files : list (string * string)) : list Embedding :=
  match files with
  | [] => []
  | f :: rest =>
      storedFor ai snapshotID repoID n f
      ++ storedAll ai snapshotID repoID (S n) rest
  end.

(** The embedding call number [n] answers the chunks of [file] with one
    vector per chunk. *)
Definition embedsWell (ai : AIProvider) (n : nat) (file : string * string)
  : Prop :=
  exists vectors,
    EmbedBatch ai n (chunksOf file) = Ok vectors
    /\ length vectors = length (chunksOf file).

End Rag.

(* ===================================================================== *)
(** ** The job tracker ([internal/handler/jobs.go])                        *)
(* ===================================================================== *)

Module Jobs.
Import Go.
Local Open Scope go_scope.

(** [JobStatus].  Instants of [time.Time] are integers, 0 the zero time. *)
Record JobStatus := mkJobStatus {
  ID : string;
  RepoID : string;
  Status : string;
  Progress : Z;
  Total : Z;
  Current : string;
  Results : list string;
  Error : string;
  StartedAt : Z;
  CompletedAt : Z
}.

(** A [chan JobStatus]: the buffered values, oldest first, the capacity and
    whether the channel was closed. *)
Record Chan := mkChan {
  buf : list JobStatus;
  cap : nat;
  closed : bool
}.

(** [JobTracker]: the two maps, and the channels made so far by address;
    [nextChan] is the address [make] hands out next.  The mutex is not
    modelled: every operation runs as one step. *)
Record JobTracker := mkJobTracker {
  jobs : gmap string JobStatus;
  subs : gmap string (list nat);
  chans : gmap nat Chan;
  nextChan : nat
}.

Definition NewJobTracker : JobTracker := mkJobTracker ∅ ∅ ∅ 0.

(** [CreateJob]; [now] is what [time.Now()] answers. *)
Definition CreateJob (now : Z) (id repoID : string) (total : Z)
  : M JobTracker unit :=
  modify (fun t =>
    mkJobTracker
      (<[id := mkJobStatus id repoID "running" 0 total EmptyString []
                 EmptyString now 0]> (jobs t))
      (subs t) (chans t) (nextChan t)).

(** The assignments [UpdateJob] makes to the stored job. *)
Definition applyUpdate (now : Z) (strategy : string) (progress : Z)
    (status : string) (job : JobStatus) : JobStatus :=
  mkJobStatus (ID job) (RepoID job) status progress (Total job) strategy
    (if negb (String.eqb strategy EmptyString) && negb (String.eqb status "error")
     then Results job ++ [strategy] else Results job)
    (Error job) (StartedAt job)
    (if String.eqb status "complete" || String.eqb status "error"
     then now else CompletedAt job).

(** [select { case ch <- snapshot: default: }] on the channel at [ch]: the
    value is buffered when there is room and dropped when the buffer is
    full; sending on a closed channel panics; an address without a channel
    is a nil channel, on which the send is never ready. *)
Definition trySend (snapshot : JobStatus) (ch : nat) : M JobTracker unit :=
  t <- get ;;
  match chans t !! ch with
  | None => ret tt
  | Some c =>
      if closed c then panic
      else if (length (buf c) <? cap c)%nat
      then modify (fun t =>
             mkJobTracker (jobs t) (subs t)
               (<[ch := mkChan (buf c ++ [snapshot]) (cap c) (closed c)]> (chans t))
               (nextChan t))
      else ret tt
  end.

(** [UpdateJob] *)
Definition UpdateJob (now : Z) (id strategy : string) (progress : Z)
    (status : string) : M JobTracker unit :=
  t <- get ;;
  match jobs t !! id with
  | None => ret tt
  | Some job =>
      let job' := applyUpdate now strategy progress status job in
      modify (fun t =>
        mkJobTracker (<[id := job']> (jobs t)) (subs t) (chans t) (nextChan t)) ;;;
      let snapshot := job' in
      let ss := default [] (subs t !! id) in
      forEach ss (trySend snapshot)
  end.

(** [GetJob] *)
Definition GetJob (id : string) (t : JobTracker) : option JobStatus :=
  jobs t !! id.

(** [Subscribe]: the answer is the address of the new channel. *)
Definition Subscribe (id : string) : M JobTracker nat :=
  t <- get ;;
  let ch := nextChan t in
  modify (fun t =>
    mkJobTracker (jobs t)
      (<[id := default [] (subs t !! id) ++ [ch]]> (subs t))
      (<[ch := mkChan [] 10 false]> (chans t))
      (S (nextChan t))) ;;;
  ret ch.

(** [append(subs[:i], subs[i+1:]...)] for the first [i] with [subs[i] == ch]. *)
Fixpoint removeFirst (ch : nat) (ss : list nat) : list nat :=
  match ss with
  | [] => []
  | s :: rest => if (s =? ch)%nat then rest else s :: removeFirst ch rest
  end.

(** [Unsubscribe]; closing a closed or a nil channel panics. *)
Definition Unsubscribe (id : string) (ch : nat) : M JobTracker unit :=
  t <- get ;;
  (match subs t !! id with
   | Some ss =>
       if bool_decide (ch ∈ ss)
       then modify (fun t =>
              mkJobTracker (jobs t) (<[id := removeFirst ch ss]> (subs t))
                (chans t) (nextChan t))
       else ret tt
   | None => ret tt
   end) ;;;
  match chans t !! ch with
  | None => panic
  | Some c =>
      if closed c then panic
      else modify (fun t =>
             mkJobTracker (jobs t) (subs t)
               (<[ch := mkChan (buf c) (cap c) true]> (chans t)) (nextChan t))
  end.

(** *** Vocabulary of the tracker's specification *)

Definition isTerminal (status : string) : bool :=
  String.eqb status "complete" || String.eqb status "error".

(** Every subscribed channel exists and is open, and no channel is listed
    twice for a job: what [Subscribe] and [Unsubscribe] maintain. *)
Definition subsOpen (t : JobTracker) : Prop :=
  forall id ss, subs t !! id = Some ss ->
    NoDup ss
    /\ forall ch, ch ∈ ss -> exists c, chans t !! ch = Some c /\ closed c = false.

(** What a non-blocking send of [snapshot] leaves in a channel. *)
Definition afterSend (snapshot : JobStatus) (c : Chan) : Chan :=
  if (length (buf c) <? cap c)%nat
  then mkChan (buf c ++ [snapshot]) (cap c) (closed c)
  else c.

(** The channels after non-blocking sends of [snapshot] to the addresses
    [ss], in that order. *)
Fixpoint sendAll (snapshot : JobStatus) (ss : list nat) (cs : gmap nat Chan)
  : gmap nat Chan :=
  match ss with
  | [] => cs
  | ch :: rest =>
      sendAll snapshot rest
        (match cs !! ch with
         | Some c => <[ch := afterSend snapshot c]> cs
         | None => cs
         end)
  end.

(** The tracker [UpdateJob] leaves when the job is held. *)
Definition updated (now : Z) (id strategy : string) (progress : Z)
    (status : string) (job : JobStatus) (t : JobTracker) : JobTracker :=
  mkJobTracker
    (<[id := applyUpdate now strategy progress status job]> (jobs t))
    (subs t)
    (sendAll (applyUpdate now strategy progress status job)
       (default [] (subs t !! id)) (chans t))
    (nextChan t).

End Jobs.

(* ===================================================================== *)
(** ** The analysis orchestrator ([internal/handler/analysis_handler.go])  *)
(* ===================================================================== *)

Module Orchestrator.
Import GoStrings Go.
Local Open Scope go_scope.

(** [port.Diagram] *)
Record Diagram := mkDiagram {
  Title : string;
  Type_ : string;
  Source : string
}.

(** [port.AnalysisRequest] *)
Record AnalysisRequest := mkAnalysisRequest {
  ReqRepoID : string;
  RepoName : string;
  CommitHash : string;
  Chunks : list string;
  FileTree : list string;
  Language : string
}.

(** [port.AnalysisResult]; [Details] is the raw JSON text, [Score] a
    float64. *)
Record AnalysisResult := mkAnalysisResult {
  Strategy : string;
  Summary : string;
  Details : string;
  Score : spec_float;
  Suggestions : list string;
  Diagrams : list Diagram
}.

(** A row of [analysis_results], with the columns the INSERT of
    [SaveAnalysisResultFull] provides. *)
Record AnalysisResultRow := mkAnalysisResultRow {
  RowRepoID : string;
  RowStrategy : string;
  RowSummary : string;
  RowDetails : string;
  RowScore : spec_float;
  RowSummaryTranslated : string
}.

(** What the background job does, in order.  [EvUpdateJob] also records
    the job the tracker holds after the call. *)
Inductive Event :=
| EvUpdateJob (id strategy : string) (progress : Z) (status : string)
    (after : option Jobs.JobStatus)
| EvRunStrategy (strategy : string)
| EvSleep (seconds : Z)
| EvChat (systemPrompt userPrompt : string)
| EvSave (row : AnalysisResultRow) (err : option string).

(** The collaborators of the job, as oracles: the registered strategies
    ([Analyze] of the strategy of a name, given how often that strategy was
    run before), the chat provider, the database (the error of an INSERT,
    if any) and the clock, the last three given the number of events so
    far; and the three uses of [encoding/json]. *)
Record Env := mkEnv {
  engine : gmap string (nat -> AnalysisRequest -> Result AnalysisResult);
  chat : nat -> string -> string -> list string -> Result string;
  insertError : nat -> AnalysisResultRow -> option string;
  clock : nat -> Z;
  jsonValid : string -> bool;
  jsonMarshalRaw : string -> string;
  jsonWrapRaw : string -> string
}.

(** The job tracker, the [analysis_results] table and the events so far. *)
Record World := mkWorld {
  tracker : Jobs.JobTracker;
  results : list AnalysisResultRow;
  trace : list Event
}.

Definition emit (e : Event) : M World unit :=
  modify (fun w => mkWorld (tracker w) (results w) (trace w ++ [e])).

Definition onTracker {A} (c : M Jobs.JobTracker A) : M World A :=
  fun w =>
    match c (tracker w) with
    | (a, t') => (a, mkWorld t' (results w) (trace w))
    end.

(** [h.tracker.UpdateJob(...)] *)
Definition updateJob (env : Env) (jobID strategy : string) (progress : Z)
    (status : string) : M World unit :=
  w <- get ;;
  onTracker (Jobs.UpdateJob (clock env (length (trace w))) jobID strategy
               progress status) ;;;
  w' <- get ;;
  emit (EvUpdateJob jobID strategy progress status
          (Jobs.jobs (tracker w') !! jobID)).

Definition isRunOf (strategy : string) (e : Event) : bool :=
  match e with
  | EvRunStrategy s => String.eqb s strategy
  | _ => false
  end.

(** How often [strategy] was run in a trace. *)
Definition runsSoFar (strategy : string) (tr : list Event) : nat :=
  length (List.filter (isRunOf strategy) tr).

(** [AnalysisEngine.Run], for the run of [strategyName] that [n] runs of
    it precede. *)
Definition Run (env : Env) (strategyName : string) (n : nat)
    (req : AnalysisRequest) : Result AnalysisResult :=
  match engine env !! strategyName with
  | None => Err "analysis strategy not found"
  | Some analyze => analyze n req
  end.

(** [AnalysisService.RunStrategy] as a function of the engine's answer. *)
Definition wrapRun (strategyName : string) (answer : Result AnalysisResult)
  : Result AnalysisResult :=
  match answer with
  | Err e => Err ("run strategy " +:+ strategyName +:+ ": " +:+ e)
  | Ok result => Ok result
  end.

(** [AnalysisService.RunStrategy] *)
Definition RunStrategy (env : Env) (strategyName : string)
    (req : AnalysisRequest) : M World (Result AnalysisResult) :=
  w <- get ;;
  emit (EvRunStrategy strategyName) ;;;
  ret (wrapRun strategyName
         (Run env strategyName (runsSoFar strategyName (trace w)) req)).

Definition langName (targetLang : string) : string :=
  if String.eqb targetLang "es" then "Spanish"
  else if String.eqb targetLang "pt" then "Portuguese"
  else if String.eqb targetLang "fr" then "French"
  else if String.eqb targetLang "de" then "German"
  else if String.eqb targetLang "it" then "Italian"
  else if String.eqb targetLang "ja" then "Japanese"
  else if String.eqb targetLang "ko" then "Korean"
  else if String.eqb targetLang "zh" then "Chinese"
  else targetLang.

Definition translatePrompt (targetLang : string) : string :=
  "Translate the following technical report to " +:+ langName targetLang
  +:+ ". " +:+ newline
  +:+ "Keep all Markdown formatting, Mermaid diagrams, code blocks, and technical terms intact."
  +:+ newline
  +:+ "Only translate the natural language text. Do NOT add any commentary or explanation.".

(** What [translateReport] answers when the chat provider answers [r]. *)
Definition translationOf (r : Result string) : string :=
  match r with
  | Err _ => EmptyString
  | Ok translated => translated
  end.

(** [translateReport] *)
Definition translateReport (env : Env) (markdown targetLang : string)
  : M World string :=
  let systemPrompt := translatePrompt targetLang in
  w <- get ;;
  emit (EvChat systemPrompt markdown) ;;;
  ret (translationOf (chat env (length (trace w)) systemPrompt markdown [])).

(** The [details] column [SaveAnalysisResultFull] writes. *)
Definition storedDetails (env : Env) (details : string) : string :=
  let details := if negb (jsonValid env details) then jsonWrapRaw env details
                 else details in
  if String.eqb details EmptyString then "{}" else details.

(** [PostgresStore.SaveAnalysisResultFull] *)
Definition SaveAnalysisResultFull (env : Env)
    (repoID strategy summary details : string) (score : spec_float)
    (translated : string) : M World (option string) :=
  let row := mkAnalysisResultRow repoID strategy summary
               (storedDetails env details) score translated in
  w <- get ;;
  match insertError env (length (trace w)) row with
  | Some e => emit (EvSave row (Some e)) ;;; ret (Some e)
  | None =>
      modify (fun w => mkWorld (tracker w) (results w ++ [row]) (trace w)) ;;;
      emit (EvSave row None) ;;;
      ret None
  end.

Definition maxRetries : nat := 2.

(** The report language is set and is not English. *)
Definition wantsTranslation (lang : string) : bool :=
  negb (String.eqb lang EmptyString) && negb (String.eqb lang "en").

(** The float64 constant 0. *)
Definition zeroScore : spec_float := S754_zero false.

Definition failSummary (strategy err : string) : string :=
  "## ⚠️ Analysis Failed" +:+ newline +:+ newline
  +:+ "The **" +:+ strategy +:+ "** strategy could not be completed after "
  +:+ pretty (maxRetries + 1)%nat +:+ " attempts." +:+ newline +:+ newline
  +:+ "**Error:** `" +:+ err +:+ "`" +:+ newline +:+ newline
  +:+ "You can re-run the analysis to try again.".

(** [for attempt := 0; attempt <= maxRetries; attempt++], entered at
    [attempt] with [retriesLeft = maxRetries - attempt]; the answer is the
    [(result, err)] the loop leaves. *)
Fixpoint tryStrategy (env : Env) (strategy : string) (req : AnalysisRequest)
    (retriesLeft attempt : nat) : M World (Result AnalysisResult) :=
  (if (0 <? attempt)%nat then emit (EvSleep 5) else ret tt) ;;;
  r <- RunStrategy env strategy req ;;
  match r with
  | Ok _ => ret r
  | Err _ =>
      match retriesLeft with
      | O => ret r
      | S k => tryStrategy env strategy req k (S attempt)
      end
  end.

(** The body of [for i, strategy := range strategies]. *)
Definition runOneStrategy (env : Env) (jobID repoID : string)
    (req : AnalysisRequest) (lang : string) (i : nat) (strategy : string)
  : M World unit :=
  updateJob env jobID strategy (Z.of_nat i) "running" ;;;
  r <- tryStrategy env strategy req maxRetries 0 ;;
  match r with
  | Err err =>
      SaveAnalysisResultFull env repoID strategy (failSummary strategy err)
        "{}" zeroScore EmptyString ;;;
      updateJob env jobID strategy (Z.of_nat i + 1) "running"
  | Ok result =>
      let summary := Summary result in
      let detailsJSON := jsonMarshalRaw env (Details result) in
      translated <-
        (if wantsTranslation lang
         then translateReport env summary lang
         else ret EmptyString) ;;
      SaveAnalysisResultFull env repoID strategy summary detailsJSON
        (Score result) translated ;;;
      updateJob env jobID strategy (Z.of_nat i + 1) "running"
  end.

Fixpoint strategyLoop (env : Env) (jobID repoID : string)
    (req : AnalysisRequest) (lang : string) (i : nat)
    (strategies : list string) : M World unit :=
  match strategies with
  | [] => ret tt
  | strategy :: rest =>
      runOneStrategy env jobID repoID req lang i strategy ;;;
      strategyLoop env jobID repoID req lang (S i) rest
  end.

(** [runAnalysisJob], from the strategy loop on.  Before the loop the
    function reads the repository row, inserts a snapshot row and starts
    the indexing goroutine ([Rag.IndexChunks]); none of these touches the
    tracker or [analysis_results]. *)
Definition runAnalysisJob (env : Env) (jobID repoID : string)
    (req : AnalysisRequest) (strategies : list string) (lang : string)
  : M World unit :=
  strategyLoop env jobID repoID req lang 0 strategies ;;;
  updateJob env jobID EmptyString (Z.of_nat (length strategies)) "complete".

(** [RunAnalysis] once the request is built: the job is created with as
    many steps as there are strategies, then run in the background. *)
Definition RunAnalysis (env : Env) (jobID repoID : string)
    (req : AnalysisRequest) (strategies : list string) (lang : string)
  : M World unit :=
  w <- get ;;
  onTracker (Jobs.CreateJob (clock env (length (trace w))) jobID repoID
               (Z.of_nat (length strategies))) ;;;
  runAnalysisJob env jobID repoID req strategies lang.

(** *** Vocabulary of the orchestrator's specification *)

(** The [UpdateJob] calls of a trace: strategy, progress and status. *)
Definition updateCalls (tr : list Event) : list (string * Z * string) :=
  omap (fun e => match e with
                 | EvUpdateJob _ s p st _ => Some (s, p, st)
                 | _ => None
                 end) tr.

(** The jobs the tracker held after each [UpdateJob] call of a trace. *)
Definition jobHistory (tr : list Event) : list Jobs.JobStatus :=
  omap (fun e => match e with
                 | EvUpdateJob _ _ _ _ after => after
                 | _ => None
                 end) tr.

(** The rows a trace inserted. *)
Definition savedRows (tr : list Event) : list AnalysisResultRow :=
  omap (fun e => match e with
                 | EvSave row None => Some row
                 | _ => None
                 end) tr.

Fixpoint nondecreasing (zs : list Z) : Prop :=
  match zs with
  | [] => True
  | a :: rest =>
      match rest with
      | [] => True
      | b :: _ => a <= b /\ nondecreasing rest
      end
  end.

(** How often a job history passes from a status that is not terminal to
    one that is; [wasTerminal] tells the status before the history. *)
Fixpoint terminalTransitions (wasTerminal : bool) (h : list Jobs.JobStatus) : nat :=
  match h with
  | [] => 0%nat
  | j :: rest =>
      let t := Jobs.isTerminal (Jobs.Status j) in
      ((if negb wasTerminal && t then 1 else 0)
       + terminalTransitions t rest)%nat
  end.

(** An event is about [strategy]: an update, a run or a save naming it. *)
Definition about (strategy : string) (e : Event) : bool :=
  match e with
  | EvUpdateJob _ s _ _ _ => String.eqb s strategy
  | EvRunStrategy s => String.eqb s strategy
  | EvSave row _ => String.eqb (RowStrategy row) strategy
  | EvSleep _ | EvChat _ _ => false
  end.

(** An event that may occur between the two updates of [strategy]. *)
Definition midEvent (strategy : string) (e : Event) : Prop :=
  match e with
  | EvUpdateJob _ _ _ _ _ => False
  | EvRunStrategy s => s = strategy
  | EvSave row _ => RowStrategy row = strategy
  | EvSleep _ | EvChat _ _ => True
  end.

(** The answer the retry loop leaves, and the number of attempts it makes,
    when [k] runs of the strategy precede it and [retriesLeft] retries are
    allowed. *)
Fixpoint tryAnswer (env : Env) (strategy : string) (req : AnalysisRequest)
    (k retriesLeft : nat) : Result AnalysisResult * nat :=
  match wrapRun strategy (Run env strategy k req) with
  | Ok result => (Ok result, 1%nat)
  | Err e =>
      match retriesLeft with
      | O => (Err e, 1%nat)
      | S r =>
          let '(answer, n) := tryAnswer env strategy req (S k) r in
          (answer, S n)
      end
  end.

(** The events of [n] attempts, the first of them numbered [attempt]. *)
Fixpoint tryEvents (strategy : string) (attempt n : nat) : list Event :=
  match n with
  | O => []
  | S m =>
      (if (0 <? attempt)%nat then [EvSleep 5] else [])
      ++ EvRunStrategy strategy :: tryEvents strategy (S attempt) m
  end.

(** The events between the two updates of [strategy], [tr] being the trace
    up to and including the first update. *)
Definition midEvents (env : Env) (repoID : string) (req : AnalysisRequest)
    (lang strategy : string) (tr : list Event) : list Event :=
  let '(answer, n) := tryAnswer env strategy req (runsSoFar strategy tr) maxRetries in
  let evs1 := tryEvents strategy 0 n in
  match answer with
  | Err err =>
      let row := mkAnalysisResultRow repoID strategy (failSummary strategy err)
                   (storedDetails env "{}") zeroScore EmptyString in
      evs1 ++ [EvSave row (insertError env (length (tr ++ evs1)) row)]
  | Ok result =>
      let evs2 :=
        if wantsTranslation lang
        then [EvChat (translatePrompt lang) (Summary result)] else [] in
      let translated :=
        if wantsTranslation lang
        then translationOf (chat env (length (tr ++ evs1)) (translatePrompt lang)
                              (Summary result) [])
        else EmptyString in
      let row := mkAnalysisResultRow repoID strategy (Summary result)
                   (storedDetails env (jsonMarshalRaw env (Details result)))
                   (Score result) translated in
      evs1 ++ evs2 ++ [EvSave row (insertError env (length (tr ++ evs1 ++ evs2)) row)]
  end.

(** The tracker is usable for the job: its subscriber lists are in order
    and it holds [job] under [jobID]. *)
Definition Ready (jobID : string) (w : World) (job : Jobs.JobStatus) : Prop :=
  Jobs.subsOpen (tracker w) /\ Jobs.jobs (tracker w) !! jobID = Some job.

(** The [UpdateJob] calls the loop makes for [strategies], the first of
    them having index [i]. *)
Fixpoint expectedCalls (i : nat) (strategies : list string)
  : list (string * Z * string) :=
  match strategies with
  | [] => []
  | s :: rest =>
      (s, Z.of_nat i, "running") :: (s, Z.of_nat i + 1, "running")
      :: expectedCalls (S i) rest
  end.

(** The events of one iteration of the loop for [strategy], and the job
    the tracker holds after it, [tr] being the trace before it and [job]
    the job held before it. *)
Definition strategyEvents (env : Env) (jobID repoID : string)
    (req : AnalysisRequest) (lang : string) (i : nat) (strategy : string)
    (tr : list Event) (job : Jobs.JobStatus) : list Event * Jobs.JobStatus :=
  let j1 := Jobs.applyUpdate (clock env (length tr)) strategy (Z.of_nat i)
              "running" job in
  let u1 := EvUpdateJob jobID strategy (Z.of_nat i) "running" (Some j1) in
  let mid := midEvents env repoID req lang strategy (tr ++ [u1]) in
  let j2 := Jobs.applyUpdate (clock env (length (tr ++ u1 :: mid))) strategy
              (Z.of_nat i + 1) "running" j1 in
  (u1 :: mid ++ [EvUpdateJob jobID strategy (Z.of_nat i + 1) "running" (Some j2)],
   j2).

(** The tracker after that iteration. *)
Definition strategyTracker (env : Env) (jobID repoID : string)
    (req : AnalysisRequest) (lang : string) (i : nat) (strategy : string)
    (tr : list Event) (job : Jobs.JobStatus) (t : Jobs.JobTracker)
  : Jobs.JobTracker :=
  let now1 := clock env (length tr) in
  let j1 := Jobs.applyUpdate now1 strategy (Z.of_nat i) "running" job in
  let u1 := EvUpdateJob jobID strategy (Z.of_nat i) "running" (Some j1) in
  let mid := midEvents env repoID req lang strategy (tr ++ [u1]) in
  Jobs.updated (clock env (length (tr ++ u1 :: mid))) jobID strategy
    (Z.of_nat i + 1) "running" j1
    (Jobs.updated now1 jobID strategy (Z.of_nat i) "running" job t).

(** The events of the whole strategy loop and the job held after it. *)
Fixpoint loopEvents (env : Env) (jobID repoID : string)
    (req : AnalysisRequest) (lang : string) (i : nat)
    (strategies : list string) (tr : list Event) (job : Jobs.JobStatus)
  : list Event * Jobs.JobStatus :=
  match strategies with
  | [] => ([], job)
  | s :: rest =>
      let '(evs1, j2) := strategyEvents env jobID repoID req lang i s tr job in
      let '(evs2, j') :=
        loopEvents env jobID repoID req lang (S i) rest (tr ++ evs1) j2 in
      (evs1 ++ evs2, j')
  end.

(** The tracker after the whole strategy loop. *)
Fixpoint loopTracker (env : Env) (jobID repoID : string)
    (req : AnalysisRequest) (lang : string) (i : nat)
    (strategies : list string) (tr : list Event) (job : Jobs.JobStatus)
    (t : Jobs.JobTracker) : Jobs.JobTracker :=
  match strategies with
  | [] => t
  | s :: rest =>
      let '(evs1, j2) := strategyEvents env jobID repoID req lang i s tr job in
      loopTracker env jobID repoID req lang (S i) rest (tr ++ evs1) j2
        (strategyTracker env jobID repoID req lang i s tr job t)
  end.

(** The events of [runAnalysisJob] and the job held after it. *)
Definition jobEvents (env : Env) (jobID repoID : string)
    (req : AnalysisRequest) (lang : string) (strategies : list string)
    (tr : list Event) (job : Jobs.JobStatus) : list Event * Jobs.JobStatus :=
  let '(evs, j) := loopEvents env jobID repoID req lang 0 strategies tr job in
  let final := Jobs.applyUpdate (clock env (length (tr ++ evs))) EmptyString
                 (Z.of_nat (length strategies)) "complete" j in
  (evs ++ [EvUpdateJob jobID EmptyString (Z.of_nat (length strategies))
             "complete" (Some final)],
   final).

(** The tracker after [runAnalysisJob]. *)
Definition jobTracker (env : Env) (jobID repoID : string)
    (req : AnalysisRequest) (lang : string) (strategies : list string)
    (tr : list Event) (job : Jobs.JobStatus) (t : Jobs.JobTracker)
  : Jobs.JobTracker :=
  let '(evs, j) := loopEvents env jobID repoID req lang 0 strategies tr job in
  Jobs.updated (clock env (length (tr ++ evs))) jobID EmptyString
    (Z.of_nat (length strategies)) "complete" j
    (loopTracker env jobID repoID req lang 0 strategies tr job t).

(** What the tracker keeps of a job for an observer: current strategy,
    progress and status. *)
Definition summaryOf (j : Jobs.JobStatus) : string * Z * string :=
  (Jobs.Current j, Jobs.Progress j, Jobs.Status j).

(** The failure report a reader finds for [strategy] with the error [err]:
    the row is of the repository and of the strategy, its score is the
    float 0, it carries no translation, and its summary is this notice,
    which names the strategy, the three attempts and the error. *)
Definition isFailureReport (repoID strategy err : string)
    (row : AnalysisResultRow) : Prop :=
  RowRepoID row = repoID
  /\ RowStrategy row = strategy
  /\ RowScore row = S754_zero false
  /\ RowSummaryTranslated row = EmptyString
  /\ RowSummary row
     = "## ⚠️ Analysis Failed" +:+ newline +:+ newline
       +:+ "The **" +:+ strategy
       +:+ "** strategy could not be completed after 3 attempts."
       +:+ newline +:+ newline
       +:+ "**Error:** `" +:+ err +:+ "`" +:+ newline +:+ newline
       +:+ "You can re-run the analysis to try again.".

(** How often [strategy] occurs among the first [i] of [strategies]. *)
Definition occurrences (strategy : string) (i : nat) (strategies : list string)
  : nat :=
  length (List.filter (String.eqb strategy) (take i strategies)).

(** The row is of [strategy]. *)
Definition rowOf (strategy : string) (row : AnalysisResultRow) : bool :=
  String.eqb (RowStrategy row) strategy.

(** The job [CreateJob] stores. *)
Definition newJob (now : Z) (id repoID : string) (total : Z) : Jobs.JobStatus :=
  Jobs.mkJobStatus id repoID "running" 0 total EmptyString [] EmptyString now 0.

End Orchestrator.

(* ===================================================================== *)
(** ** Concrete trackers, worlds and providers                             *)
(* ===================================================================== *)

Module Examples.
Import GoStrings Go.

(** A tracker with the job [job-1] of two steps, created at instant 100. *)
Definition startedTracker : Jobs.JobTracker :=
  (Jobs.CreateJob 100 "job-1" "repo-1" 2 Jobs.NewJobTracker).2.

(** The same with one subscriber of [job-1], at channel address 0. *)
Definition watchedTracker : Jobs.JobTracker :=
  (Jobs.Subscribe "job-1" startedTracker).2.

(** The job is then marked complete at instant 200. *)
Definition doneTracker : Jobs.JobTracker :=
  (Jobs.UpdateJob 200 "job-1" EmptyString 2 "complete" watchedTracker).2.

Definition doneJob : Jobs.JobStatus :=
  Jobs.mkJobStatus "job-1" "repo-1" "complete" 2 2 EmptyString [] EmptyString
    100 200.

(** The job [doneTracker] holds after a late update at instant 300. *)
Definition reopenedJob : Jobs.JobStatus :=
  Jobs.mkJobStatus "job-1" "repo-1" "running" 0 2 "security" ["security"]
    EmptyString 100 200.

(** A subscriber of an identifier for which no job was created. *)
Definition strayTracker : Jobs.JobTracker :=
  (Jobs.Subscribe "job-9" watchedTracker).2.

Definition runningJob : Jobs.JobStatus :=
  Jobs.mkJobStatus "job-1" "repo-1" "running" 0 2 EmptyString [] EmptyString
    100 0.

(** A tracker whose job [job-1] has two subscribers: channel 0 is full
    (ten snapshots never received), channel 1 is empty. *)
Definition crowdedTracker : Jobs.JobTracker :=
  Jobs.mkJobTracker
    {[ "job-1" := runningJob ]}
    {[ "job-1" := [0%nat; 1%nat] ]}
    {[ 0%nat := Jobs.mkChan (replicate 10 runningJob) 10 false;
       1%nat := Jobs.mkChan [] 10 false ]}
    2.

Definition request : Orchestrator.AnalysisRequest :=
  Orchestrator.mkAnalysisRequest "repo-1" "demo" EmptyString [] ["main.go"]
    EmptyString.

Definition securityReport : Orchestrator.AnalysisResult :=
  Orchestrator.mkAnalysisResult "security" "No secrets found. Score: 9/10" "{}"
    (S754_finite false 9 0) [] [].

(** A provider whose [security] strategy fails twice and then succeeds; the
    database accepts every row. *)
Definition flakyEnv : Orchestrator.Env :=
  Orchestrator.mkEnv
    {[ "security" := fun (n : nat) (_ : Orchestrator.AnalysisRequest) =>
                       if (n <? 2)%nat then Err "timeout" else Ok securityReport ]}
    (fun _ _ _ _ => Err "chat unavailable")
    (fun _ _ => None)
    (fun n => 1000 + Z.of_nat n)
    (fun s => negb (String.eqb s EmptyString))
    (fun s => s)
    (fun s => "{raw}").

(** A provider whose strategies never answer, each attempt failing with an
    error of its own. *)
Definition stubbornEnv : Orchestrator.Env :=
  Orchestrator.mkEnv
    {[ "security" := fun (n : nat) (_ : Orchestrator.AnalysisRequest) =>
                       Err (if (n <? 2)%nat then "timeout" else "model offline");
       "quality" := fun (n : nat) (_ : Orchestrator.AnalysisRequest) =>
                      Err (if (n <? 2)%nat then "timeout" else "out of memory") ]}
    (fun _ _ _ _ => Err "chat unavailable")
    (fun _ _ => None)
    (fun n => 1000 + Z.of_nat n)
    (fun s => negb (String.eqb s EmptyString))
    (fun s => s)
    (fun s => "{raw}").

(** A provider none of whose strategies ever answers. *)
Definition brokenEnv : Orchestrator.Env :=
  Orchestrator.mkEnv
    {[ "security" := fun (_ : nat) (_ : Orchestrator.AnalysisRequest) =>
                       Err "model offline";
       "quality" := fun (_ : nat) (_ : Orchestrator.AnalysisRequest) =>
                      Err "model offline" ]}
    (fun _ _ _ _ => Err "chat unavailable")
    (fun _ _ => None)
    (fun n => 1000 + Z.of_nat n)
    (fun s => negb (String.eqb s EmptyString))
    (fun s => s)
    (fun s => "{raw}").

(** A world in which no job has run yet, with an observer of [job-1]. *)
Definition freshWorld : Orchestrator.World :=
  Orchestrator.mkWorld watchedTracker [] [].

(** A world whose job [job-1] has a subscriber that never drains. *)
Definition crowdedWorld : Orchestrator.World :=
  Orchestrator.mkWorld crowdedTracker [] [].

(** A provider that embeds every text as a one-dimensional vector, fails
    its second call when that call is a batch embedding, and streams two
    fragments. *)
Definition demoAI : Rag.AIProvider :=
  Rag.mkAIProvider
    (fun _ _ => Ok [S754_finite false 1 0])
    (fun n texts =>
       if (n =? 1)%nat then Err "embedding service unavailable"
       else Ok (map (fun _ => [S754_finite false 1 0]) texts))
    (fun _ _ _ _ => Ok "It is in main.go.")
    (fun _ _ _ _ => Ok ["It"; " depends."]).

(** A database that always commits and answers the similarity query with
    the rows of the repository, in insertion order, up to the limit. *)
Definition demoDb : Rag.Database :=
  Rag.mkDatabase
    (fun _ _ => None)
    (fun _ table repoID _ limit =>
       Rag.Rows (take (Z.to_nat limit)
             (map (fun e => Rag.mkSimilarChunk e (S754_finite false 1 0))
                (List.filter (fun e => String.eqb (Rag.RepoID e) repoID) table)))).

(** The vector store before anything was indexed. *)
Definition emptyStore : Rag.World := Rag.mkWorld [] 0 [].

Definition formatTwoDecimals (x : spec_float) : string := "1.00".

(** Three files; the embedding call of the second one fails with
    [demoAI]. *)
Definition threeFiles : list (string * string) :=
  [("a.go", "package a"); ("b.go", "package b"); ("c.md", "# notes")].

End Examples.

(* ===================================================================== *)
(** ** The job endpoints ([JobsHandler] in [internal/handler/jobs.go])     *)
(* ===================================================================== *)

Module JobsHandler.
Import GoStrings Go Jobs.
Local Open Scope go_scope.

(** What a handler answers: the 404 of an unknown job, the job as JSON, one
    SSE frame sent as the whole body, or a stream whose writer serves the
    channel [ch], having first been handed the job [first]. *)
Inductive Response :=
| NotFound
| Json (job : JobStatus)
| Sent (body : string)
| Streaming (ch : nat) (first : JobStatus).

(** [fmt.Sprintf("event: %s\ndata: %s\n\n", event, data)] *)
Definition sseFrame (event data : string) : string :=
  "event: " +:+ event +:+ newline +:+ "data: " +:+ data +:+ newline +:+ newline.

(** What the stream writer did in one pass of its loop: it wrote a frame
    and goes on, wrote the frame of a terminal update and returned, found
    the channel closed and returned, or found nothing ready and waits. *)
Inductive Outcome :=
| Wrote (frame : string)
| WroteLast (frame : string)
| SawClosed
| Waits.

(** [update, ok := <-ch] when the timer has not fired: the oldest buffered
    value is received; an empty closed channel yields [!ok]; on an empty
    open channel, and on a nil channel, nothing is ready. *)
Inductive Received :=
| Update (u : JobStatus)
| ChanClosed
| NotReady.

Definition receive (ch : nat) : M JobTracker Received :=
  t <- get ;;
  match chans t !! ch with
  | None => ret NotReady
  | Some c =>
      match buf c with
      | u :: rest =>
          modify (fun t =>
            mkJobTracker (jobs t) (subs t)
              (<[ch := mkChan rest (cap c) (closed c)]> (chans t)) (nextChan t)) ;;;
          ret (Update u)
      | [] => if closed c then ret ChanClosed else ret NotReady
      end
  end.

Section Handler.

(** [json.Marshal] of a job status. *)
Variable marshal : JobStatus -> string.

(** [GetStatus] *)
Definition GetStatus (id : string) : M JobTracker Response :=
  t <- get ;;
  match GetJob id t with
  | None => ret NotFound
  | Some job => ret (Json job)
  end.

(** [StreamSSE] up to the point where the stream writer is installed. *)
Definition StreamSSE (id : string) : M JobTracker Response :=
  t <- get ;;
  match GetJob id t with
  | None => ret NotFound
  | Some job =>
      if String.eqb (Status job) "complete" || String.eqb (Status job) "error"
      then ret (Sent (sseFrame (Status job) (marshal job)))
      else
        ch <- Subscribe id ;;
        ret (Streaming ch job)
  end.

(** The frame the writer sends first. *)
Definition firstFrame (job : JobStatus) : string :=
  sseFrame "progress" (marshal job).

(** The frame of a received update. *)
Definition updateFrame (update : JobStatus) : string :=
  let eventType :=
    if String.eqb (Status update) "complete" || String.eqb (Status update) "error"
    then Status update else "progress" in
  sseFrame eventType (marshal update).

(** One pass of the writer's [for { select { ... } }] before the timer
    fires; when the writer returns, the deferred [Unsubscribe] runs. *)
Definition writerStep (id : string) (ch : nat) : M JobTracker Outcome :=
  r <- receive ch ;;
  match r with
  | NotReady => ret Waits
  | ChanClosed => Unsubscribe id ch ;;; ret SawClosed
  | Update update =>
      let frame := updateFrame update in
      if String.eqb (Status update) "complete" || String.eqb (Status update) "error"
      then Unsubscribe id ch ;;; ret (WroteLast frame)
      else ret (Wrote frame)
  end.

(** The pass in which the five-minute timer fires: the writer returns. *)
Definition writerTimeout (id : string) (ch : nat) : M JobTracker unit :=
  Unsubscribe id ch.

End Handler.

(** *** Vocabulary of the tracker's interface *)

(** A call of the tracker. *)
Inductive Call :=
| DoCreateJob (now : Z) (id repoID : string) (total : Z)
| DoUpdateJob (now : Z) (id strategy : string) (progress : Z) (status : string)
| DoSubscribe (id : string)
| DoUnsubscribe (id : string) (ch : nat).

Definition runCall (c : Call) : M JobTracker unit :=
  match c with
  | DoCreateJob now id repoID total => CreateJob now id repoID total
  | DoUpdateJob now id strategy progress status =>
      UpdateJob now id strategy progress status
  | DoSubscribe id => Subscribe id ;;; ret tt
  | DoUnsubscribe id ch => Unsubscribe id ch
  end.

(** [ch] is a subscription of [id]. *)
Definition listed (id : string) (ch : nat) (t : JobTracker) : Prop :=
  exists ss, subs t !! id = Some ss /\ ch ∈ ss.

(** A sequence of calls in which every [Unsubscribe] is for a subscription
    the tracker has at that point, as the deferred call of [StreamSSE] is. *)
Fixpoint disciplined (cs : list Call) (t : JobTracker) : Prop :=
  match cs with
  | [] => True
  | c :: rest =>
      match c with
      | DoUnsubscribe id ch => listed id ch t
      | _ => True
      end
      /\ disciplined rest (runCall c t).2
  end.

(** The tracker's bookkeeping is in order: subscribed channels exist, are
    open and are listed once; no channel is subscribed to two jobs; and
    the addresses in use lie below the next one [make] hands out. *)
Definition trackerOk (t : JobTracker) : Prop :=
  subsOpen t
  /\ (forall id1 id2 ss1 ss2 ch,
        subs t !! id1 = Some ss1 -> subs t !! id2 = Some ss2 ->
        ch ∈ ss1 -> ch ∈ ss2 -> id1 = id2)
  /\ (forall id ss ch, subs t !! id = Some ss -> ch ∈ ss -> (ch < nextChan t)%nat).

(** One update of a job: the arguments of [UpdateJob] and the instant the
    call is made at. *)
Record JobUpdate := mkJobUpdate {
  uNow : Z;
  uStrategy : string;
  uProgress : Z;
  uStatus : string
}.

(** The snapshots a job passes through under a list of updates. *)
Fixpoint snapshots (job : JobStatus) (us : list JobUpdate) : list JobStatus :=
  match us with
  | [] => []
  | u :: rest =>
      let job' := applyUpdate (uNow u) (uStrategy u) (uProgress u) (uStatus u) job in
      job' :: snapshots job' rest
  end.

(** The calls that make those updates to the job [id]. *)
Definition updateCallsOf (id : string) (us : list JobUpdate) : list Call :=
  map (fun u => DoUpdateJob (uNow u) id (uStrategy u) (uProgress u) (uStatus u)) us.

(** A schedule of the writer and the publisher: an update is published, the
    writer makes a pass, or the writer's timer fires.  Each tick is a whole
    call, so a schedule describes a run in which the calls on the tracker
    do not overlap; the steps inside [UpdateJob] and [StreamSSE] between
    which another goroutine may run are [lockedUpdate],
    [notifySubscribers] and [streamFrom] below. *)
Inductive Tick :=
| Publish (u : JobUpdate)
| Pass
| TimerFires.

(** The writer as the schedule sees it: whether it still runs, and the
    frames it has written. *)
Record Writer := mkWriter {
  live : bool;
  written : list string
}.

Section Schedules.

Variable marshal : JobStatus -> string.

Definition tick (id : string) (ch : nat) (k : Tick) (s : Writer)
  : M JobTracker Writer :=
  match k with
  | Publish u =>
      UpdateJob (uNow u) id (uStrategy u) (uProgress u) (uStatus u) ;;; ret s
  | Pass =>
      if live s then
        o <- writerStep marshal id ch ;;
        match o with
        | Waits => ret s
        | SawClosed => ret (mkWriter false (written s))
        | Wrote frame => ret (mkWriter true (written s ++ [frame]))
        | WroteLast frame => ret (mkWriter false (written s ++ [frame]))
        end
      else ret s
  | TimerFires =>
      if live s then writerTimeout id ch ;;; ret (mkWriter false (written s))
      else ret s
  end.

Fixpoint schedule (id : string) (ch : nat) (ks : list Tick) (s : Writer)
  : M JobTracker Writer :=
  match ks with
  | [] => ret s
  | k :: rest =>
      s' <- tick id ch k s ;;
      schedule id ch rest s'
  end.

End Schedules.

(** The updates a schedule publishes, in order. *)
Definition published (ks : list Tick) : list JobUpdate :=
  omap (fun k => match k with Publish u => Some u | _ => None end) ks.

(** A schedule in which the timer does not fire and the writer never has
    more than ten published updates left to pass through; [unread] counts
    those left before the schedule. *)
Fixpoint roomy (unread : nat) (ks : list Tick) : Prop :=
  match ks with
  | [] => True
  | Publish _ :: rest => (unread < 10)%nat /\ roomy (S unread) rest
  | Pass :: rest => roomy (pred unread) rest
  | TimerFires :: _ => False
  end.

(** [StreamSSE] followed by its stream writer under the schedule [ks]; the
    answers without a stream count as a writer that has returned.  The
    handler's [GetJob] and [Subscribe] run before the first tick. *)
Definition serve (marshal : JobStatus -> string) (id : string) (ks : list Tick)
  : M JobTracker Writer :=
  r <- StreamSSE marshal id ;;
  match r with
  | Streaming ch first =>
      schedule marshal id ch ks (mkWriter true [firstFrame marshal first])
  | Sent body => ret (mkWriter false [body])
  | NotFound | Json _ => ret (mkWriter false [])
  end.

(** The updates up to and including the first terminal one. *)
Fixpoint throughTerminal (us : list JobStatus) : list JobStatus :=
  match us with
  | [] => []
  | u :: rest =>
      if isTerminal (Status u) then [u] else u :: throughTerminal rest
  end.

(** The state of the tracker and of the writer of channel [ch] after the
    updates [us] of the job [id] were published since the subscription,
    [job] being the job at the subscription and [unread] the number of
    snapshots the channel holds. *)
Definition serving (marshal : JobStatus -> string) (id : string) (ch : nat)
    (job : JobStatus) (us : list JobUpdate) (unread : nat)
    (t : JobTracker) (s : Writer) : Prop :=
  trackerOk t
  /\ jobs t !! id = Some (default job (last (snapshots job us)))
  /\ if live s
     then listed id ch t
          /\ exists b read,
               chans t !! ch = Some (mkChan b 10 false)
               /\ length b = unread
               /\ read ++ b = snapshots job us
               /\ Forall (fun j => isTerminal (Status j) = false) read
               /\ written s
                  = firstFrame marshal job :: map (updateFrame marshal) read
     else Exists (fun j => isTerminal (Status j) = true) (snapshots job us)
          /\ written s
             = firstFrame marshal job
               :: map (updateFrame marshal) (throughTerminal (snapshots job us)).

(** *** The steps between which another goroutine may run *)

(** [UpdateJob] while it holds the mutex (l.59-76): the job is updated, and
    the answer is the snapshot and the subscriber slice read under the
    lock, or nothing for an unknown job. *)
Definition lockedUpdate (now : Z) (id strategy : string) (progress : Z)
    (status : string) : M JobTracker (option (JobStatus * list nat)) :=
  t <- get ;;
  match jobs t !! id with
  | None => ret None
  | Some job =>
      let job' := applyUpdate now strategy progress status job in
      modify (fun t =>
        mkJobTracker (<[id := job']> (jobs t)) (subs t) (chans t) (nextChan t)) ;;;
      ret (Some (job', default [] (subs t !! id)))
  end.

(** [UpdateJob] after [t.mu.Unlock()] (l.78-84): the sends to the channels
    of the slice read under the lock.  That slice shares its array with
    [t.subs[id]]; an [Unsubscribe] of the last channel of the slice copies
    nothing within the array, so the slice still reads as it did. *)
Definition notifySubscribers (held : option (JobStatus * list nat))
  : M JobTracker unit :=
  match held with
  | None => ret tt
  | Some (snapshot, ss) => forEach ss (trySend snapshot)
  end.

(** [StreamSSE] from l.159 on, [job] being what its [GetJob] answered. *)
Definition streamFrom (marshal : JobStatus -> string) (id : string)
    (job : JobStatus) : M JobTracker Response :=
  if String.eqb (Status job) "complete" || String.eqb (Status job) "error"
  then ret (Sent (sseFrame (Status job) (marshal job)))
  else
    ch <- Subscribe id ;;
    ret (Streaming ch job).

End JobsHandler.

(* ===================================================================== *)
(** ** Vocabulary for the chunker's token budget                           *)
(* ===================================================================== *)

Module ChunkBudget.
Import GoStrings Chunker.

(** The words of a list of lines, as [chunkCode] counts them: the fields of
    each line. *)
Definition wordsOf (ls : list string) : Z :=
  foldr (fun l acc => wordCount l + acc) 0 ls.

(** The words of a file. *)
Definition totalWords (content : string) : Z := wordsOf (Split content LF).

End ChunkBudget.

(* ===================================================================== *)
(** ** The analysis engine ([internal/port], [internal/service])           *)
(* ===================================================================== *)

Module Engine.
Import GoStrings Go Orchestrator.
Local Open Scope go_scope.

(** [port.AnalysisStrategy].  [Analyze] calls the AI provider, so it is an
    oracle: its first argument is the number of runs of the strategy that
    precede this one, as for the [engine] of [Orchestrator.Env]. *)
Record AnalysisStrategy := mkAnalysisStrategy {
  Name : string;
  Description : string;
  Analyze : nat -> AnalysisRequest -> Result AnalysisResult
}.

(** [port.AnalysisEngine]: the map [strategies]. *)
Abbreviation AnalysisEngine := (gmap string AnalysisStrategy).

(** [ErrStrategyNotFound] *)
Definition ErrStrategyNotFound : string := "analysis strategy not found".

(** [NewAnalysisEngine] *)
Definition NewAnalysisEngine (strategies : list AnalysisStrategy) : AnalysisEngine :=
  foldl (fun m s => <[Name s := s]> m) ∅ strategies.

(** [AnalysisEngine.Run], for the run that [n] runs of the strategy
    precede. *)
Definition Run (e : AnalysisEngine) (strategyName : string) (n : nat)
    (req : AnalysisRequest) : Result AnalysisResult :=
  match e !! strategyName with
  | None => Err ErrStrategyNotFound
  | Some s => Analyze s n req
  end.

(** The loop of [AnalysisEngine.RunAll] over the strategies still to
    visit, [results] being the results appended so far.  Each call of
    [Analyze] is recorded in the trace as a run of the strategy. *)
Fixpoint runAllFrom (req : AnalysisRequest) (visit : list AnalysisStrategy)
    (results : list AnalysisResult) : M World (Result (list AnalysisResult)) :=
  match visit with
  | [] => ret (Ok results)
  | s :: rest =>
      w <- get ;;
      emit (EvRunStrategy (Name s)) ;;;
      match Analyze s (runsSoFar (Name s) (trace w)) req with
      | Err e => ret (Err e)
      | Ok r => runAllFrom req rest (results ++ [r])
      end
  end.

(** [AnalysisEngine.RunAll]; [visit] lists the strategies of the map in the
    order the [range] statement visits them, which Go leaves open. *)
Definition RunAll (visit : list AnalysisStrategy) (req : AnalysisRequest)
  : M World (Result (list AnalysisResult)) :=
  runAllFrom req visit [].

(** [AnalysisEngine.AvailableStrategies]; [visit] lists the entries of the
    map in the order the [range] statement visits them. *)
Definition AvailableStrategies (visit : list (string * AnalysisStrategy))
  : list string :=
  foldl (fun names entry => names ++ [entry.1]) [] visit.

(** [AnalysisService.RunAll] *)
Definition ServiceRunAll (visit : list AnalysisStrategy) (req : AnalysisRequest)
  : M World (Result (list AnalysisResult)) :=
  RunAll visit req.

(** [AnalysisService.ListStrategies] *)
Definition ListStrategies (visit : list (string * AnalysisStrategy)) : list string :=
  AvailableStrategies visit.

(** *** Vocabulary of the engine's specification *)

(** An order in which [range] may visit the entries of the engine. *)
Definition visits (e : AnalysisEngine) (visit : list (string * AnalysisStrategy))
  : Prop :=
  visit ≡ₚ map_to_list e.

(** The engine as the orchestrator's environment holds it. *)
Definition asOracles (e : AnalysisEngine)
  : gmap string (nat -> AnalysisRequest -> Result AnalysisResult) :=
  Analyze <$> e.

(** The strategies registered under [name], in registration order. *)
Definition registeredAs (name : string) (strategies : list AnalysisStrategy)
  : list AnalysisStrategy :=
  List.filter (fun s => String.eqb (Name s) name) strategies.

(** The answers of the strategies of [visit] to [req], each at the run
    count the trace [tr] gives it. *)
Definition answersOf (tr : list Event) (req : AnalysisRequest)
    (visit : list AnalysisStrategy) : list (Result AnalysisResult) :=
  map (fun s => Analyze s (runsSoFar (Name s) tr) req) visit.

(** The results of a list of answers that are all successes. *)
Definition okResults (answers : list (Result AnalysisResult))
  : list AnalysisResult :=
  omap (fun a => match a with Ok r => Some r | Err _ => None end) answers.

End Engine.

(* ===================================================================== *)
(** ** The analysis strategies ([internal/adapter/analysis])               *)
(* ===================================================================== *)

Module Analysis.
Import GoStrings Go Orchestrator.

Definition quote : string := String (ascii_of_nat 34) EmptyString.

(** [formatFileTree] *)
Definition formatFileTree (files : list string) : string :=
  foldl (fun result f => result +:+ "  " +:+ f +:+ newline) EmptyString files.

(** The byte is an ASCII digit. *)
Definition isDigit (c : ascii) : bool :=
  ((48 <=? byteOf c) && (byteOf c <=? 57))%nat.

(** The inner loop of [extractScore], [for j := ...; j < len(response) &&
    j < i+12; j++], entered at [j] with [left = i+12-j] positions to go:
    the first digit found decides, and counts as 10 when the byte after
    it is a zero. *)
Fixpoint digitFrom (response : string) (j left : nat) : option Z :=
  match left with
  | O => None
  | S left' =>
      match String.get j response with
      | None => None
      | Some c =>
          if isDigit c then
            match String.get (S j) response with
            | Some d =>
                if (byteOf d =? 48)%nat then Some 10
                else Some (Z.of_nat (byteOf c - 48))
            | None => Some (Z.of_nat (byteOf c - 48))
            end
          else digitFrom response (S j) left'
      end
  end.

(** The outer loop of [extractScore], [for i := len(response)-1; i >= 0;
    i--], with [k = i+1] positions still to try; 0 when no position
    yields a score. *)
Fixpoint scoreBelow (response : string) (k : nat) : Z :=
  match k with
  | O => 0
  | S i =>
      if (i + 10 <? String.length response)%nat
         && String.eqb (String.substring i 6 response) "Score:"
      then
        match digitFrom response (i + 6) 6 with
        | Some score => score
        | None => scoreBelow response i
        end
      else scoreBelow response i
  end.

(** The search of [extractScore] for the pattern in the text. *)
Definition scanScore (response : string) : Z :=
  scoreBelow response (String.length response).

(** [float64(n)] for the integers the search yields (0 to 10). *)
Definition floatOf (n : Z) : spec_float :=
  match n with
  | Z0 => S754_zero false
  | Zpos p => S754_finite false p 0
  | Zneg p => S754_finite true p 0
  end.

Section Strategies.

(** [json.Unmarshal] of the response into a struct with the one field
    [score]: the field's value when the response is JSON (0 when the field
    is absent), nothing when it is not. *)
Variable jsonScore : string -> option spec_float.

(** [Chat] of the AI provider, for the run of a strategy that [n] runs of
    it precede. *)
Variable chat : nat -> string -> string -> list string -> Result string.

(** [extractScore] *)
Definition extractScore (response : string) : spec_float :=
  match jsonScore response with
  | Some score =>
      if SFltb (S754_zero false) score then score
      else floatOf (scanScore response)
  | None => floatOf (scanScore response)
  end.

(** The context every strategy sends: the repository with its file tree,
    then the chunks. *)
Definition codeContext (req : AnalysisRequest) : list string :=
  ("Repository: " +:+ RepoName req +:+ newline +:+ newline +:+ "File tree:"
   +:+ newline +:+ formatFileTree (FileTree req))
  :: Chunks req.

(** What the five strategies differ in. *)
Record Texts := mkTexts {
  name : string;
  description : string;
  systemPrompt : string;
  userPrompt : string;
  errorLabel : string
}.

(** [Analyze], the same in the five strategies up to their texts. *)
Definition Analyze (t : Texts) (n : nat) (req : AnalysisRequest)
  : Result AnalysisResult :=
  match chat n (systemPrompt t) (userPrompt t) (codeContext req) with
  | Err e => Err (errorLabel t +:+ ": " +:+ e)
  | Ok response =>
      Ok (mkAnalysisResult (name t) response "{}" (extractScore response) [] [])
  end.

(** A strategy as the engine holds it. *)
Definition strategyOf (t : Texts) : Engine.AnalysisStrategy :=
  Engine.mkAnalysisStrategy (name t) (description t) (Analyze t).

End Strategies.

(** The texts of [ArchitectureStrategy]. *)
Definition architectureTexts : Texts :=
  mkTexts "architecture"
    "Architecture analysis with Mermaid diagrams"
    (Join
    ["You are an expert software architect. Analyze the provided codebase and produce a beautiful Markdown report.";
     EmptyString;
     "Your report MUST include:";
     "1. **Architecture Overview** — identify architectural patterns (MVC, Clean, Hexagonal, etc.)";
     "2. **Module Dependencies** — which modules depend on which";
     "3. **Architecture Diagram** — a Mermaid diagram (use graph TD or flowchart) showing components and dependencies";
     "4. **Issues & Improvements** — architectural issues found with recommendations";
     "5. **Architecture Score** — rate 0-10 with justification";
     EmptyString;
     "Format rules:";
     "- Use Markdown headings (##), bullet points, bold text";
     "- Include exactly ONE Mermaid diagram wrapped in triple backticks with " +:+ quote +:+ "mermaid" +:+ quote +:+ " language tag";
     "- Be specific about the actual files/packages found, not generic";
     "- End with a score line: **Score: X/10**"]
    newline)
    "Analyze the architecture of this codebase and produce a Markdown report with Mermaid diagrams."
    "architecture analysis".

(** The texts of [CodeQualityStrategy]. *)
Definition codeQualityTexts : Texts :=
  mkTexts "code_quality"
    "Code quality, bugs, and security review"
    (Join
    ["You are an expert code reviewer specializing in security and quality. Analyze the provided codebase and produce a beautiful Markdown report.";
     EmptyString;
     "Your report MUST include:";
     "1. **Bugs & Logic Errors** — potential bugs found with file paths and line descriptions";
     "2. **Security Vulnerabilities** — injection, auth bypasses, data leaks, etc.";
     "3. **Code Smells** — anti-patterns, dead code, duplications";
     "4. **Refactoring Opportunities** — specific improvements with before/after descriptions";
     "5. **Quality Score** — rate 0-10 with justification";
     EmptyString;
     "Format rules:";
     "- Use Markdown headings (##), bullet points, bold, code blocks";
     "- Reference specific files and functions you found in the code";
     "- Use severity indicators: 🔴 Critical, 🟡 Warning, 🟢 Info";
     "- End with: **Score: X/10**"]
    newline)
    "Perform a comprehensive code quality and security review of this codebase. Produce a Markdown report."
    "code quality analysis".

(** The texts of [FunctionalityStrategy]. *)
Definition functionalityTexts : Texts :=
  mkTexts "functionality"
    "Business logic and functional flow mapping"
    (Join
    ["You are an expert business analyst and software engineer. Analyze the provided codebase and produce a beautiful Markdown report.";
     EmptyString;
     "Your report MUST include:";
     "1. **Use Cases** — distinct business use cases identified from the code";
     "2. **API Endpoints** — all endpoints found with HTTP methods and descriptions";
     "3. **Business Rules** — core domain rules and validations discovered";
     "4. **Flow Diagram** — a Mermaid sequence diagram of the main user flow";
     "5. **Gaps & Missing Functionality** — what appears incomplete or missing";
     "6. **Functionality Score** — rate 0-10 with justification";
     EmptyString;
     "Format rules:";
     "- Use Markdown headings (##), bullet points, tables for endpoints";
     "- Include exactly ONE Mermaid sequence diagram";
     "- Be specific about actual code found, not generic";
     "- End with: **Score: X/10**"]
    newline)
    "Map the business functionality of this codebase and produce a Markdown report with Mermaid diagrams."
    "functionality analysis".

(** The texts of [DevOpsStrategy]. *)
Definition devOpsTexts : Texts :=
  mkTexts "devops"
    "DevOps, CI/CD, and infrastructure analysis"
    (Join
    ["You are an expert in DevOps, CI/CD, and infrastructure. Analyze the provided codebase and produce a beautiful Markdown report.";
     EmptyString;
     "Your report MUST include:";
     "1. **Infrastructure Overview** — what infrastructure files exist (Docker, CI, config)";
     "2. **CI/CD Pipeline** — describe any CI/CD configuration found, or suggest one";
     "3. **Deployment Architecture** — how the app is deployed or should be deployed";
     "4. **DevOps Diagram** — a Mermaid diagram of the deployment/CI pipeline";
     "5. **Recommendations** — specific DevOps improvements";
     "6. **DevOps Score** — rate 0-10 with justification";
     EmptyString;
     "Format rules:";
     "- Use Markdown headings (##), bullet points, code blocks";
     "- Include ONE Mermaid diagram (graph or flowchart)";
     "- Reference actual files found (Dockerfile, docker-compose.yml, Makefile, etc.)";
     "- End with: **Score: X/10**"]
    newline)
    "Analyze the DevOps and infrastructure of this codebase and produce a Markdown report with Mermaid diagrams."
    "devops analysis".

(** The texts of [SecurityStrategy]. *)
Definition securityTexts : Texts :=
  mkTexts "security"
    "Security audit: secrets, injection, vulnerabilities"
    (Join
    ["You are an elite application security auditor (OWASP certified). Analyze the provided codebase and produce a comprehensive security audit report in Markdown.";
     EmptyString;
     "Your report MUST cover these categories:";
     EmptyString;
     "## 🔑 Leaked Secrets & Sensitive Data";
     "- Hardcoded API keys, tokens, passwords, connection strings";
     "- .env files checked into version control";
     "- Private keys, certificates, or credentials in code";
     "- Sensitive data in logs, comments, or error messages";
     EmptyString;
     "## 💉 Injection Vulnerabilities";
     "- SQL injection (raw queries, string concatenation)";
     "- NoSQL injection";
     "- Command injection (os.exec, subprocess, etc.)";
     "- XSS (Cross-Site Scripting) — unescaped user input in HTML/templates";
     "- LDAP injection, XML injection, template injection";
     EmptyString;
     "## 🔐 Authentication & Authorization";
     "- Missing or weak authentication checks";
     "- Broken access control (IDOR, privilege escalation)";
     "- JWT issues (weak secrets, no expiration, algorithm confusion)";
     "- Session management problems";
     "- Missing CSRF protection";
     EmptyString;
     "## 🌐 API & Network Security";
     "- Missing input validation";
     "- Missing rate limiting";
     "- CORS misconfiguration";
     "- Insecure HTTP (no TLS enforcement)";
     "- Exposed internal endpoints";
     EmptyString;
     "## 📦 Dependency & Configuration";
     "- Known vulnerable dependencies";
     "- Insecure default configurations";
     "- Debug mode in production code";
     "- Missing security headers";
     EmptyString;
     "## 🛡️ Data Protection";
     "- Sensitive data not encrypted at rest";
     "- Missing data sanitization";
     "- PII exposure risks";
     "- Insecure file uploads";
     EmptyString;
     "Format rules:";
     "- Use severity indicators: 🔴 CRITICAL, 🟠 HIGH, 🟡 MEDIUM, 🟢 LOW";
     "- Reference specific files, line descriptions, and functions";
     "- Provide remediation suggestions for each finding";
     "- Include code examples showing the vulnerable pattern and the fix";
     "- End with: **Security Score: X/10** (10 = most secure)"]
    newline)
    "Perform an exhaustive security audit of this codebase. Look for leaked secrets, injection vulnerabilities, authentication bypasses, and all OWASP Top 10 issues. Produce a detailed Markdown report."
    "security analysis".

(** The strategies in the order [main] registers them. *)
Definition registered (jsonScore : string -> option spec_float)
    (chat : nat -> string -> string -> list string -> Result string)
  : list Engine.AnalysisStrategy :=
  map (strategyOf jsonScore chat)
    [architectureTexts; codeQualityTexts; functionalityTexts; devOpsTexts;
     securityTexts].

End Analysis.

(* ===================================================================== *)
(** ** The Ollama provider ([internal/adapter/ai/ollama.go])               *)
(* ===================================================================== *)

Module Ollama.
Import GoStrings Go.

(** [OllamaEndpointConfig] *)
Record OllamaEndpointConfig := mkOllamaEndpointConfig {
  BaseURL : string;
  Model : string;
  Token : string
}.

(** [OllamaProvider] without its HTTP client. *)
Record OllamaProvider := mkOllamaProvider {
  embed : OllamaEndpointConfig;
  chat : OllamaEndpointConfig
}.

(** The JSON payloads the provider builds. *)
Inductive Payload :=
| EmbedOne (model input : string)
| EmbedMany (model : string) (input : list string)
| ChatMessages (model systemContent userContent : string) (stream : bool).

(** A POST request: the URL, the [Authorization] header if any, and the
    payload ([Content-Type] is always [application/json]). *)
Record Request := mkRequest {
  url : string;
  authorization : option string;
  payload : Payload
}.

(** An HTTP response: status code and body. *)
Record Response := mkResponse {
  statusCode : Z;
  body : string
}.

(** One value read by [json.Decoder.Decode] from a streamed chat body. *)
Record Frame := mkFrame {
  content : string;
  done : bool
}.

(** What lies outside the program: the error of
    [http.NewRequestWithContext] for a URL, if any; [httpClient.Do] for
    the n-th call of the provider; and [encoding/json] on the bodies it
    returns (for a streamed body, the results of the successive [Decode]
    calls until [More] is false).  [json.Marshal] of the payloads, which
    hold strings and booleans only, does not fail. *)
Record Net := mkNet {
  newRequestError : string -> option string;
  doRequest : nat -> Request -> Result Response;
  decodeEmbeddings : string -> Result (list (list spec_float));
  decodeMessage : string -> Result string;
  decodeFrames : string -> list (Result Frame)
}.

(** [ModelName] *)
Definition ModelName (o : OllamaProvider) : string := Model (chat o).

(** The request both [post] and [ChatStream] build. *)
Definition requestTo (cfg : OllamaEndpointConfig) (path : string) (p : Payload)
  : Request :=
  mkRequest (BaseURL cfg +:+ path)
    (if String.eqb (Token cfg) EmptyString then None
     else Some ("Bearer " +:+ Token cfg))
    p.

(** [post] *)
Definition post (net : Net) (n : nat) (cfg : OllamaEndpointConfig)
    (path : string) (p : Payload) : Result string :=
  match newRequestError net (BaseURL cfg +:+ path) with
  | Some e => Err ("create request: " +:+ e)
  | None =>
      match doRequest net n (requestTo cfg path p) with
      | Err e => Err e
      | Ok resp =>
          if negb (statusCode resp =? 200)
          then Err ("ollama API error (" +:+ pretty (statusCode resp) +:+ "): "
                    +:+ body resp)
          else Ok (body resp)
      end
  end.

(** [Embed] *)
Definition Embed (net : Net) (o : OllamaProvider) (n : nat) (text : string)
  : Result (list spec_float) :=
  match post net n (embed o) "/api/embed" (EmbedOne (Model (embed o)) text) with
  | Err e => Err ("ollama embed: " +:+ e)
  | Ok b =>
      match decodeEmbeddings net b with
      | Err e => Err ("ollama embed decode: " +:+ e)
      | Ok [] => Err "ollama embed: empty response"
      | Ok (first :: _) => Ok first
      end
  end.

(** [EmbedBatch] *)
Definition EmbedBatch (net : Net) (o : OllamaProvider) (n : nat)
    (texts : list string) : Result (list (list spec_float)) :=
  match post net n (embed o) "/api/embed" (EmbedMany (Model (embed o)) texts) with
  | Err e => Err ("ollama embed batch: " +:+ e)
  | Ok b =>
      match decodeEmbeddings net b with
      | Err e => Err ("ollama embed batch decode: " +:+ e)
      | Ok embeddings => Ok embeddings
      end
  end.

(** [fmt.Sprintf("\n--- Context chunk %d ---\n%s\n", i+1, chunk)] *)
Definition contextBlock (i : nat) (chunk : string) : string :=
  newline +:+ "--- Context chunk " +:+ pretty (i + 1)%nat +:+ " ---" +:+ newline
  +:+ chunk +:+ newline.

(** The loop [for i, chunk := range contextChunks] that builds
    [contextStr], from index [i] on. *)
Fixpoint contextFrom (i : nat) (contextChunks : list string) (contextStr : string)
  : string :=
  match contextChunks with
  | [] => contextStr
  | chunk :: rest =>
      contextFrom (S i) rest (contextStr +:+ contextBlock i chunk)
  end.

(** The user message of [Chat] and [ChatStream]. *)
Definition fullPrompt (userPrompt : string) (contextChunks : list string) : string :=
  match contextChunks with
  | [] => userPrompt
  | _ :: _ =>
      "Relevant code context:" +:+ newline
      +:+ contextFrom 0 contextChunks EmptyString
      +:+ newline +:+ newline +:+ "Question: " +:+ userPrompt
  end.

(** [Chat] *)
Definition Chat (net : Net) (o : OllamaProvider) (n : nat)
    (systemPrompt userPrompt : string) (contextChunks : list string)
  : Result string :=
  match post net n (chat o) "/api/chat"
          (ChatMessages (Model (chat o)) systemPrompt
             (fullPrompt userPrompt contextChunks) false) with
  | Err e => Err ("ollama chat: " +:+ e)
  | Ok b =>
      match decodeMessage net b with
      | Err e => Err ("ollama chat decode: " +:+ e)
      | Ok c => Ok c
      end
  end.

(** The goroutine of [ChatStream]: what it sends on the channel, given
    the results of the [Decode] calls still to come. *)
Fixpoint streamTokens (frames : list (Result Frame)) : list string :=
  match frames with
  | [] => []
  | Err _ :: _ => []
  | Ok f :: rest =>
      (if negb (String.eqb (content f) EmptyString) then [content f] else [])
      ++ (if done f then [] else streamTokens rest)
  end.

(** [ChatStream]; the answer is what the returned channel will carry. *)
Definition ChatStream (net : Net) (o : OllamaProvider) (n : nat)
    (systemPrompt userPrompt : string) (contextChunks : list string)
  : Result (list string) :=
  match newRequestError net (BaseURL (chat o) +:+ "/api/chat") with
  | Some e => Err ("ollama stream: create request: " +:+ e)
  | None =>
      match doRequest net n
              (requestTo (chat o) "/api/chat"
                 (ChatMessages (Model (chat o)) systemPrompt
                    (fullPrompt userPrompt contextChunks) true)) with
      | Err e => Err ("ollama stream: " +:+ e)
      | Ok resp => Ok (streamTokens (decodeFrames net (body resp)))
      end
  end.

(** The provider as the services hold it. *)
Definition provider (net : Net) (o : OllamaProvider) : Rag.AIProvider :=
  Rag.mkAIProvider (Embed net o) (EmbedBatch net o) (Chat net o) (ChatStream net o).

(** *** Vocabulary *)

(** The frames before the first one that is an error or is marked done,
    and that frame itself when it is marked done. *)
Fixpoint heard (frames : list (Result Frame)) : list Frame :=
  match frames with
  | [] => []
  | Err _ :: _ => []
  | Ok f :: rest => if done f then [f] else f :: heard rest
  end.

End Ollama.

(* ===================================================================== *)
(** ** The chat endpoint ([internal/handler/chat_handler.go])              *)
(* ===================================================================== *)

Module ChatHandler.
Import GoStrings Go Orchestrator.

(** [truncate]; [s[:maxLen]] with a negative [maxLen] panics ([None]). *)
Definition truncate (s : string) (maxLen : Z) : option string :=
  if Z.of_nat (String.length s) <=? maxLen then Some s
  else if maxLen <? 0 then None
  else Some (String.substring 0 (Z.to_nat maxLen) s +:+ "...").

(** An entry of the request's [history]. *)
Record Turn := mkTurn {
  Role : string;
  Content : string
}.

Section Context.

(** [fmt.Sprintf] of a score with the verb [%.1f]. *)
Variable formatScore : spec_float -> string.

(** The context entry of one analysis result; [truncate] does not panic
    here, its bound being 2000. *)
Definition analysisEntry (r : AnalysisResultRow) : string :=
  "=== Analysis: " +:+ RowStrategy r +:+ " (score: "
  +:+ formatScore (RowScore r) +:+ ") ===" +:+ newline
  +:+ default EmptyString (truncate (RowSummary r) 2000).

(** [for _, r := range results], with its [break] once the context holds
    more than five entries. *)
Fixpoint addResults (results : list AnalysisResultRow)
    (analysisContext : list string) : list string :=
  match results with
  | [] => analysisContext
  | r :: rest =>
      if (5 <? length analysisContext)%nat then analysisContext
      else addResults rest (analysisContext ++ [analysisEntry r])
  end.

(** [for _, h := range body.History], which skips the long turns. *)
Fixpoint addHistory (history : list Turn) (analysisContext : list string)
  : list string :=
  match history with
  | [] => analysisContext
  | h :: rest =>
      if (500 <? String.length (Content h))%nat
      then addHistory rest analysisContext
      else addHistory rest
             (analysisContext ++ ["[" +:+ Role h +:+ "]: " +:+ Content h])
  end.

(** The context [Chat] hands to the model for a repository. *)
Definition chatContext (repoName repoURL : string)
    (results : list AnalysisResultRow) (history : list Turn) : list string :=
  addHistory history
    (addResults results
       ["Repository: " +:+ repoName +:+ newline +:+ "URL: " +:+ repoURL]).

End Context.

End ChatHandler.

(* ===================================================================== *)
(** ** More providers for the examples                                     *)
(* ===================================================================== *)

Module MoreExamples.
Import GoStrings Go.

(** A provider whose batch embedding answers without error but with no
    vector at all. *)
Definition stingyAI : Rag.AIProvider :=
  Rag.mkAIProvider
    (fun _ _ => Ok [S754_finite false 1 0])
    (fun _ _ => Ok [])
    (fun _ _ _ _ => Ok "It is in main.go.")
    (fun _ _ _ _ => Ok ["It"; " depends."]).

(** A database whose similarity SELECT always fails. *)
Definition brokenDb : Rag.Database :=
  Rag.mkDatabase
    (fun _ _ => None)
    (fun _ _ _ _ _ => Rag.QueryFailed "connection refused").

(** Two strategies registered under one name, and a third. *)
Definition firstQuality : Engine.AnalysisStrategy :=
  Engine.mkAnalysisStrategy "code_quality" "first registration"
    (fun _ _ => Err "superseded").

Definition secondQuality : Engine.AnalysisStrategy :=
  Engine.mkAnalysisStrategy "code_quality" "second registration"
    (fun _ _ => Ok Examples.securityReport).

Definition failingSecurity : Engine.AnalysisStrategy :=
  Engine.mkAnalysisStrategy "security" "always fails"
    (fun _ _ => Err "model offline").

Definition architecture : Engine.AnalysisStrategy :=
  Engine.mkAnalysisStrategy "architecture" "always answers"
    (fun _ _ => Ok Examples.securityReport).

Definition threeStrategies : list Engine.AnalysisStrategy :=
  [firstQuality; failingSecurity; secondQuality].

(** An Ollama server that answers every request with status 500 and an
    error body, which decodes to one frame without content. *)
Definition failingNet : Ollama.Net :=
  Ollama.mkNet
    (fun _ => None)
    (fun _ _ => Ok (Ollama.mkResponse 500 "{error}"))
    (fun _ => Err "unexpected body")
    (fun _ => Err "unexpected body")
    (fun _ => [Ok (Ollama.mkFrame EmptyString false)]).

(** An Ollama server that answers every embedding request with status 200
    and no embedding, however many inputs were sent. *)
Definition emptyBatchNet : Ollama.Net :=
  Ollama.mkNet
    (fun _ => None)
    (fun _ _ => Ok (Ollama.mkResponse 200 "{embeddings}"))
    (fun _ => Ok [])
    (fun _ => Ok "fine")
    (fun _ => []).

(** An Ollama server that streams a greeting in two tokens, with a frame
    without content between them and a frame after the one marked done. *)
Definition talkingNet : Ollama.Net :=
  Ollama.mkNet
    (fun _ => None)
    (fun _ _ => Ok (Ollama.mkResponse 200 "{frames}"))
    (fun _ => Err "unexpected body")
    (fun _ => Err "unexpected body")
    (fun _ => [Ok (Ollama.mkFrame "Hel" false);
               Ok (Ollama.mkFrame EmptyString false);
               Ok (Ollama.mkFrame "lo" true);
               Ok (Ollama.mkFrame "ignored" false)]).

Definition localOllama : Ollama.OllamaProvider :=
  Ollama.mkOllamaProvider
    (Ollama.mkOllamaEndpointConfig "http://localhost:11434" "bge-m3" EmptyString)
    (Ollama.mkOllamaEndpointConfig "http://localhost:11434" "qwen3" "secret").

End MoreExamples.

(* ===================================================================== *)
(** * Properties                                                           *)
(* ===================================================================== *)

Module GoTheory.
Import Go.

(** Running [bind] when its first computation returns. *)
Lemma bind_Some {W A B} (c : M W A) (k : A -> M W B) w a w' :
  c w = (Some a, w') -> bind c k w = k a w'.
Proof. intros H. unfold bind. by rewrite H. Qed.

End GoTheory.

Module ChunkerTheory.
Import GoStrings Chunker.

Lemma Split_nonempty s sep : Split s sep <> [].
Proof.
  induction s as [|c r IH]; simpl; [done|].
  destruct (Ascii.eqb c sep); [done|].
  destruct (Split r sep); done.
Qed.

Lemma Split_noSep s sep : Forall (fun l => hasByte sep l = false) (Split s sep).
Proof.
  induction s as [|c r IH]; simpl.
  - by constructor.
  - destruct (Ascii.eqb c sep) eqn:E.
    + by constructor.
    + destruct (Split r sep) as [|l ls]; simpl.
      * constructor; [simpl; by rewrite E|constructor].
      * inversion IH; subst. constructor; [simpl; by rewrite E|done].
Qed.

Lemma Split_single l sep : hasByte sep l = false -> Split l sep = [l].
Proof.
  induction l as [|c r IH]; simpl; [done|].
  intros H. apply orb_false_elim in H as [H1 H2].
  rewrite H1, (IH H2). done.
Qed.

Lemma Split_app_sep l r sep :
  hasByte sep l = false ->
  Split (l +:+ String sep r) sep = l :: Split r sep.
Proof.
  induction l as [|c l IH]; simpl.
  - intros _. by rewrite Ascii.eqb_refl.
  - intros H. apply orb_false_elim in H as [H1 H2].
    rewrite H1, (IH H2). done.
Qed.

Lemma Split_Join ls sep :
  ls <> [] -> Forall (fun l => hasByte sep l = false) ls ->
  Split (Join ls (String sep EmptyString)) sep = ls.
Proof.
  induction ls as [|l ls IH]; [done|].
  intros _ H. inversion H as [|? ? Hl Hls]; subst.
  destruct ls as [|l' ls'].
  - simpl. by apply Split_single.
  - change (Join (l :: l' :: ls') (String sep EmptyString))
      with (l +:+ String sep (Join (l' :: ls') (String sep EmptyString))).
    rewrite Split_app_sep by done. f_equal. by apply IH.
Qed.

(** The loop and [windows] emit the same chunks. *)
Lemma chunkLoop_windows maxTokens lines : forall st,
  (if (0 <? length (current (chunkLoop maxTokens lines st)))%nat
   then chunks (chunkLoop maxTokens lines st)
        ++ [Join (current (chunkLoop maxTokens lines st)) newline]
   else chunks (chunkLoop maxTokens lines st))
  = chunks st
    ++ map (fun w => Join w newline)
         (windows maxTokens (current st) (currentLen st) lines).
Proof.
  induction lines as [|line rest IH]; intros st.
  - simpl. destruct (0 <? length (current st))%nat; simpl;
      [done|by rewrite app_nil_r].
  - change (chunkLoop maxTokens (line :: rest) st)
      with (chunkLoop maxTokens rest (chunkStep maxTokens st line)).
    rewrite IH. unfold chunkStep. simpl.
    destruct ((wrapInt (currentLen st + wordCount line) >? maxTokens)
              && (0 <? length (current st))%nat); simpl.
    + by rewrite <- app_assoc.
    + done.
Qed.

Lemma chunkCode_windows content maxTokens :
  chunkCode content maxTokens
  = map (fun w => Join w newline) (windows maxTokens [] 0 (Split content LF)).
Proof. unfold chunkCode. cbv zeta. by rewrite chunkLoop_windows. Qed.

Lemma overlap_is_min n : (if (n <? 3)%nat then n else 3%nat) = Nat.min 3 n.
Proof. destruct (Nat.ltb_spec n 3); lia. Qed.

(** What [windows] emits: a first window that extends the buffer, every
    later one overlapping its predecessor, the whole reconstructing the
    buffer followed by the remaining lines. *)
Lemma windows_spec maxTokens lines : forall cur len,
  cur ++ lines <> [] ->
  exists w ws ext,
    windows maxTokens cur len lines = w :: ws
    /\ w = cur ++ ext
    /\ overlapChain (w :: ws)
    /\ w ++ dropOverlaps w ws = cur ++ lines
    /\ Forall (fun c => c <> []) (w :: ws).
Proof.
  induction lines as [|line rest IH]; intros cur len Hne.
  - rewrite app_nil_r in Hne. destruct cur as [|c cur]; [done|].
    exists (c :: cur), [], []. simpl. rewrite !app_nil_r.
    refine (conj eq_refl (conj eq_refl (conj I (conj eq_refl _)))).
    by repeat constructor.
  - simpl.
    destruct ((wrapInt (len + wordCount line) >? maxTokens)
              && (0 <? length cur)%nat) eqn:E.
    + apply andb_prop in E as [_ Hlen]. apply Nat.ltb_lt in Hlen.
      rewrite overlap_is_min. fold (overlapWith cur).
      set (kept := drop (length cur - overlapWith cur) cur).
      assert (Hk : length kept = overlapWith cur).
      { unfold kept, overlapWith. rewrite length_drop. lia. }
      destruct (IH (kept ++ [line]) (wrapInt (recount kept + wordCount line)))
        as (w & ws & ext & Hw & Hext & Hchain & Hrec & Hall).
      { by destruct kept. }
      rewrite Hw. exists cur, (w :: ws), []. rewrite app_nil_r.
      refine (conj eq_refl (conj eq_refl (conj _ (conj _ _)))).
      * simpl. split; [|exact Hchain].
        rewrite Hext, <- app_assoc. by apply take_app_length'.
      * simpl. f_equal.
        assert (Hle : (overlapWith cur <= length w)%nat).
        { rewrite Hext, !length_app. lia. }
        rewrite <- (drop_app_le w (dropOverlaps w ws)) by exact Hle.
        rewrite Hrec, <- app_assoc. by apply drop_app_length'.
      * constructor; [|exact Hall]. intros ->. simpl in Hlen. lia.
    + destruct (IH (cur ++ [line]) (wrapInt (len + wordCount line)))
        as (w & ws & ext & Hw & Hext & Hchain & Hrec & Hall).
      { by destruct cur. }
      exists w, ws, (line :: ext). rewrite Hw.
      refine (conj eq_refl (conj _ (conj Hchain (conj _ Hall)))).
      * rewrite Hext, <- app_assoc. done.
      * rewrite Hrec, <- app_assoc. done.
Qed.

Lemma windows_Forall (P : string -> Prop) maxTokens lines : forall cur len,
  Forall P cur -> Forall P lines ->
  Forall (Forall P) (windows maxTokens cur len lines).
Proof.
  induction lines as [|line rest IH]; intros cur len Hc Hl; simpl.
  - destruct (0 <? length cur)%nat; by repeat constructor.
  - inversion Hl; subst.
    destruct ((wrapInt (len + wordCount line) >? maxTokens)
              && (0 <? length cur)%nat).
    + constructor; [done|]. apply IH; [|done].
      apply Forall_app; split; [by apply Forall_drop|by repeat constructor].
    + apply IH; [|done]. apply Forall_app; split; [done|by repeat constructor].
Qed.

(** Splitting the joined windows gives the windows back. *)
Lemma linesOf_Join_windows (ws : list (list string)) :
  Forall (fun c => c <> []) ws ->
  Forall (Forall (fun l => hasByte LF l = false)) ws ->
  map linesOf (map (fun w => Join w newline) ws) = ws.
Proof.
  induction ws as [|w ws IH]; intros H1 H2; [done|].
  inversion H1; inversion H2; subst. simpl. f_equal; [|by apply IH].
  unfold linesOf, newline. by apply Split_Join.
Qed.

Lemma chunkCode_lines content maxTokens :
  map linesOf (chunkCode content maxTokens)
  = windows maxTokens [] 0 (Split content LF).
Proof.
  rewrite chunkCode_windows. apply linesOf_Join_windows.
  - destruct (windows_spec maxTokens (Split content LF) [] 0)
      as (w & ws & ext & Hw & _ & _ & _ & Hall).
    { simpl. apply Split_nonempty. }
    by rewrite Hw.
  - apply windows_Forall; [constructor|apply Split_noSep].
Qed.

(** The chunker always emits at least one chunk. *)
Lemma chunkCode_at_least_one content maxTokens :
  (1 <= length (chunkCode content maxTokens))%nat.
Proof.
  rewrite chunkCode_windows, length_map.
  destruct (windows_spec maxTokens (Split content LF) [] 0)
    as (w & ws & ext & Hw & _).
  { simpl. apply Split_nonempty. }
  rewrite Hw. simpl. lia.
Qed.

(** C8: for every content and every token limit, each chunk but the first
    begins with the last min(3, line count) lines of the chunk before it,
    and the chunks, each without its leading overlap lines, concatenate to
    the lines of the content in their order. *)
Theorem chunkCode_overlap_reconstruct (content : string) (maxTokens : Z) :
  overlapChain (map linesOf (chunkCode content maxTokens))
  /\ reconstruct (map linesOf (chunkCode content maxTokens)) = Split content LF.
Proof.
  rewrite chunkCode_lines.
  destruct (windows_spec maxTokens (Split content LF) [] 0)
    as (w & ws & ext & Hw & _ & Hchain & Hrec & _).
  { simpl. apply Split_nonempty. }
  rewrite Hw. split; [exact Hchain|exact Hrec].
Qed.

(** C4: on the empty content the chunker emits one chunk, the empty string,
    whatever the token limit; the claim has it emit none. *)
Theorem chunkCode_empty_content (maxTokens : Z) :
  chunkCode EmptyString maxTokens = [EmptyString].
Proof.
  unfold chunkCode. simpl. unfold chunkStep. simpl.
  rewrite andb_false_r. reflexivity.
Qed.

End ChunkerTheory.

Module RagTheory.
Import GoStrings Chunker Go Rag.

Lemma buildEmbeddings_total snapshotID repoID filePath vectors : forall cs i,
  (i + length cs <= length vectors)%nat ->
  exists es,
    buildEmbeddings snapshotID repoID filePath i cs vectors = Some es
    /\ length es = length cs
    /\ forall j c v,
         cs !! j = Some c -> vectors !! (i + j)%nat = Some v ->
         es !! j = Some (rowFor snapshotID repoID filePath (i + j) c v).
Proof.
  induction cs as [|c cs IH]; intros i Hlen; simpl in *.
  - exists []. split; [done|]. split; [done|]. intros j c v Hj. done.
  - destruct (lookup_lt_is_Some_2 vectors i) as [v Hv]; [lia|].
    rewrite Hv. destruct (IH (S i)) as (es & -> & Hl & Hes); [lia|].
    eexists. split; [reflexivity|]. split; [simpl; lia|].
    intros [|j] c' v' Hj Hv'; simpl in *.
    + injection Hj as <-. rewrite Nat.add_0_r in *. rewrite Hv in Hv'.
      by injection Hv' as <-.
    + replace (i + S j)%nat with (S i + j)%nat in * by lia. by apply Hes.
Qed.

(** The file whose embedding call fails leaves the store as it was. *)
Lemma indexFile_failed ai db repoID snapshotID file w e :
  EmbedBatch ai (length (aiLog w)) (chunksOf file) = Err e ->
  indexFile ai db repoID snapshotID file w
  = (Some tt,
     mkWorld (rows w) (dbOps w) (aiLog w ++ [CallEmbedBatch (chunksOf file)])).
Proof.
  intros He. destruct file as [path content]. unfold indexFile, chunksOf in *.
  simpl in *.
  pose proof (ChunkerTheory.chunkCode_at_least_one content 512) as Hone.
  destruct (Nat.eqb_spec (length (chunkCode content 512)) 0) as [Hz|_]; [lia|].
  unfold bind, callEmbedBatch, bind, get, logCall, modify, ret. simpl.
  by rewrite He.
Qed.

(** The file whose embedding call answers one vector per chunk is stored
    whole when the transaction commits. *)
Lemma indexFile_stored ai db repoID snapshotID file w :
  embedsWell ai (length (aiLog w)) file ->
  (forall n es, txError db n es = None) ->
  indexFile ai db repoID snapshotID file w
  = (Some tt,
     mkWorld (rows w ++ storedFor ai snapshotID repoID (length (aiLog w)) file)
       (S (dbOps w)) (aiLog w ++ [CallEmbedBatch (chunksOf file)])).
Proof.
  intros (vectors & Hv & Hlen) Htx. unfold storedFor. rewrite Hv.
  destruct file as [path content]. unfold indexFile, chunksOf in *.
  simpl in *.
  pose proof (ChunkerTheory.chunkCode_at_least_one content 512) as Hone.
  destruct (Nat.eqb_spec (length (chunkCode content 512)) 0) as [Hz|_]; [lia|].
  unfold bind at 1, callEmbedBatch, bind, get, logCall, modify, ret. simpl.
  rewrite Hv.
  destruct (buildEmbeddings_total snapshotID repoID path vectors
              (chunkCode content 512) 0) as (es & -> & Hl & _); [lia|].
  simpl. destruct es as [|e es]; [simpl in Hl; lia|].
  unfold StoreBatchEmbeddings, bind, get, modify, ret. simpl.
  by rewrite Htx.
Qed.

(** The loop of [IndexChunks] when every embedding call either fails or
    answers one vector per chunk, and the store commits. *)
Lemma indexFiles_spec ai db repoID snapshotID : forall files w,
  (forall k f, files !! k = Some f ->
     embedsWell ai (length (aiLog w) + k) f
     \/ exists e, EmbedBatch ai (length (aiLog w) + k) (chunksOf f) = Err e) ->
  (forall n es, txError db n es = None) ->
  exists d,
    forEach files (indexFile ai db repoID snapshotID) w
    = (Some tt,
       mkWorld
         (rows w ++ storedAll ai snapshotID repoID (length (aiLog w)) files)
         d
         (aiLog w ++ map (fun f => CallEmbedBatch (chunksOf f)) files)).
Proof.
  induction files as [|f files IH]; intros w Hcalls Htx.
  - exists (dbOps w). simpl. rewrite !app_nil_r. by destruct w.
  - cbn [forEach storedAll map].
    assert (Hstep : exists d1,
              indexFile ai db repoID snapshotID f w
              = (Some tt,
                 mkWorld
                   (rows w ++ storedFor ai snapshotID repoID (length (aiLog w)) f)
                   d1 (aiLog w ++ [CallEmbedBatch (chunksOf f)]))).
    { destruct (Hcalls 0%nat f eq_refl) as [Hwell|[e He]];
        rewrite Nat.add_0_r in *.
      - eexists. by apply indexFile_stored.
      - eexists. rewrite (indexFile_failed _ _ _ _ _ _ e He).
        unfold storedFor. rewrite He. by rewrite app_nil_r. }
    destruct Hstep as [d1 Hstep]. rewrite (GoTheory.bind_Some _ _ _ _ _ Hstep).
    destruct (IH (mkWorld
                    (rows w ++ storedFor ai snapshotID repoID (length (aiLog w)) f)
                    d1 (aiLog w ++ [CallEmbedBatch (chunksOf f)])))
      as [d Hrest]; [|done|].
    { intros k f' Hf'. cbn [aiLog]. rewrite length_app. simpl.
      replace (length (aiLog w) + 1 + k)%nat with (length (aiLog w) + S k)%nat
        by lia.
      by apply Hcalls. }
    exists d. rewrite Hrest. cbn [aiLog rows]. rewrite length_app. simpl.
    rewrite Nat.add_1_r, <- !app_assoc. reflexivity.
Qed.

Lemma storedAll_app ai snapshotID repoID : forall files1 n files2,
  storedAll ai snapshotID repoID n (files1 ++ files2)
  = storedAll ai snapshotID repoID n files1
    ++ storedAll ai snapshotID repoID (n + length files1) files2.
Proof.
  induction files1 as [|f files1 IH]; intros n files2; simpl.
  - by rewrite Nat.add_0_r.
  - rewrite IH, <- app_assoc.
    by replace (S n + length files1)%nat with (n + S (length files1))%nat by lia.
Qed.

Lemma storedAll_elem ai snapshotID repoID x : forall files n k f,
  files !! k = Some f ->
  x ∈ storedFor ai snapshotID repoID (n + k) f ->
  x ∈ storedAll ai snapshotID repoID n files.
Proof.
  induction files as [|f0 files IH]; intros n k f Hk Hx; [done|].
  simpl. apply elem_of_app. destruct k as [|k]; simpl in Hk.
  - injection Hk as ->. rewrite Nat.add_0_r in Hx. by left.
  - right. apply (IH (S n) k f Hk).
    by replace (S n + k)%nat with (n + S k)%nat by lia.
Qed.

Lemma storedFor_well ai snapshotID repoID n f :
  embedsWell ai n f ->
  length (storedFor ai snapshotID repoID n f) = length (chunksOf f).
Proof.
  intros (vectors & Hv & Hlen). unfold storedFor. rewrite Hv.
  destruct (buildEmbeddings_total snapshotID repoID f.1 vectors (chunksOf f) 0)
    as (es & -> & Hl & _); [lia|done].
Qed.

Lemma storedAll_well ai snapshotID repoID : forall files n,
  (forall k f, files !! k = Some f -> embedsWell ai (n + k) f) ->
  length (storedAll ai snapshotID repoID n files)
  = sum_list_with (fun f => length (chunksOf f)) files.
Proof.
  induction files as [|f files IH]; intros n Hwell; [done|].
  simpl. rewrite length_app, storedFor_well.
  - f_equal. apply IH. intros k f' Hk.
    replace (S n + k)%nat with (n + S k)%nat by lia. by apply Hwell.
  - specialize (Hwell 0%nat f eq_refl). by rewrite Nat.add_0_r in Hwell.
Qed.

(** C7: when the embedding call of exactly one file fails (the others
    answer one vector per chunk, and the store commits), [IndexChunks]
    returns a nil error, every chunk of every other file is in the store
    with its path, index, text, language and vector, and the rows added are
    as many as the chunks of the other files. *)
Theorem IndexChunks_continues_past_failed_file
    (ai : AIProvider) (db : Database) (repoID snapshotID : string)
    (before : list (string * string)) (bad : string * string)
    (after : list (string * string)) (w : World) (e : string) :
  EmbedBatch ai (length (aiLog w) + length before) (chunksOf bad) = Err e ->
  (forall k f, (before ++ bad :: after) !! k = Some f -> k <> length before ->
     embedsWell ai (length (aiLog w) + k) f) ->
  (forall n es, txError db n es = None) ->
  exists w' new,
    IndexChunks ai db repoID snapshotID (before ++ bad :: after) w
    = (Some None, w')
    /\ rows w' = rows w ++ new
    /\ (forall k f vectors i c v,
          (before ++ bad :: after) !! k = Some f -> k <> length before ->
          EmbedBatch ai (length (aiLog w) + k) (chunksOf f) = Ok vectors ->
          chunksOf f !! i = Some c -> vectors !! i = Some v ->
          rowFor snapshotID repoID f.1 i c v ∈ new)
    /\ length new
       = sum_list_with (fun f => length (chunksOf f)) (before ++ after).
Proof.
  intros Hbad Hwell Htx.
  destruct (indexFiles_spec ai db repoID snapshotID (before ++ bad :: after) w)
    as [d Hrun]; [|done|].
  { intros k f Hk. destruct (decide (k = length before)) as [->|Hne].
    - right. exists e. rewrite list_lookup_middle in Hk by done.
      by injection Hk as <-.
    - left. by apply Hwell. }
  unfold IndexChunks. rewrite (GoTheory.bind_Some _ _ _ _ _ Hrun).
  eexists _, _. split; [reflexivity|]. split; [reflexivity|]. split.
  - intros k f vectors i c v Hk Hne Hv Hc Hvi.
    apply (storedAll_elem _ _ _ _ _ _ k f Hk).
    unfold storedFor. rewrite Hv.
    destruct (Hwell k f Hk Hne) as (vectors' & Hv' & Hlen).
    rewrite Hv in Hv'. injection Hv' as <-.
    destruct (buildEmbeddings_total snapshotID repoID f.1 vectors (chunksOf f) 0)
      as (es & -> & _ & Hes); [lia|].
    simpl. apply list_elem_of_lookup. exists i. by apply (Hes i c v).
  - rewrite storedAll_app. cbn [storedAll].
    unfold storedFor at 1. rewrite Hbad. cbn [app].
    rewrite length_app, sum_list_with_app.
    rewrite !storedAll_well; [done| |].
    + intros k f Hk.
      replace (S (length (aiLog w) + length before) + k)%nat
        with (length (aiLog w) + (length before + S k))%nat by lia.
      apply Hwell; [|lia].
      rewrite lookup_app_r by lia.
      replace (length before + S k - length before)%nat with (S k) by lia.
      done.
    + intros k f Hk. apply Hwell.
      * rewrite lookup_app_l; [done|]. by apply lookup_lt_Some in Hk.
      * apply lookup_lt_Some in Hk. lia.
Qed.

Lemma IndexChunks_continues_past_failed_file_witness :
  exists w' new,
    IndexChunks Examples.demoAI Examples.demoDb "repo-1" "snap-1"
      ([("a.go", "package a")] ++ ("b.go", "package b") :: [("c.md", "# notes")])
      Examples.emptyStore = (Some None, w')
    /\ rows w' = rows Examples.emptyStore ++ new
    /\ (forall k f vectors i c v,
          ([("a.go", "package a")] ++ ("b.go", "package b")
             :: [("c.md", "# notes")]) !! k = Some f ->
          k <> length [("a.go", "package a")] ->
          EmbedBatch Examples.demoAI (length (aiLog Examples.emptyStore) + k)
            (chunksOf f) = Ok vectors ->
          chunksOf f !! i = Some c -> vectors !! i = Some v ->
          rowFor "snap-1" "repo-1" f.1 i c v ∈ new)
    /\ length new
       = sum_list_with (fun f => length (chunksOf f))
           ([("a.go", "package a")] ++ [("c.md", "# notes")]).
Proof.
  apply (IndexChunks_continues_past_failed_file Examples.demoAI Examples.demoDb
           "repo-1" "snap-1" [("a.go", "package a")] ("b.go", "package b")
           [("c.md", "# notes")] Examples.emptyStore
           "embedding service unavailable").
  - reflexivity.
  - intros k f Hk Hne.
    destruct k as [|[|[|k]]]; simpl in Hk; try done;
      injection Hk as <-; eexists; (split; [reflexivity|reflexivity]).
  - reflexivity.
Defined.

(** [Query] with no similar chunk: the fixed answer, no source, no error,
    and no chat call. *)
Lemma Query_no_chunks fmt ai db repoID question w v :
  Embed ai (length (aiLog w)) question = Ok v ->
  selectSimilar db (dbOps w) (rows w) repoID v 10 = Rows [] ->
  Query fmt ai db repoID question w
  = (Some (Ok (noRelevantCode, [])),
     mkWorld (rows w) (S (dbOps w)) (aiLog w ++ [CallEmbed question])).
Proof.
  intros He Hs. unfold Query, bind, callEmbed, bind, get, logCall, modify, ret.
  simpl. rewrite He. unfold SearchSimilar, bind, get, modify, ret. simpl.
  by rewrite Hs.
Qed.

(** [QueryStream] with no similar chunk: the chat provider is called all
    the same, with an empty context, and its stream is the answer. *)
Lemma QueryStream_no_chunks ai db repoID question w v :
  Embed ai (length (aiLog w)) question = Ok v ->
  selectSimilar db (dbOps w) (rows w) repoID v 10 = Rows [] ->
  QueryStream ai db repoID question w
  = (Some (match ChatStream ai (S (length (aiLog w))) streamSystemPrompt
                   question [] with
           | Err e => Err ("chat stream: " +:+ e)
           | Ok stream => Ok (stream, [])
           end),
     mkWorld (rows w) (S (dbOps w))
       (aiLog w ++ [CallEmbed question;
                    CallChatStream streamSystemPrompt question []])).
Proof.
  intros He Hs.
  unfold QueryStream, bind, callEmbed, bind, get, logCall, modify, ret.
  simpl. rewrite He. unfold SearchSimilar, bind, get, modify, ret. simpl.
  rewrite Hs. simpl.
  unfold callChatStream, bind, get, logCall, modify, ret. simpl.
  rewrite length_app, Nat.add_1_r, <- app_assoc. simpl.
  by destruct (ChatStream ai (S (length (aiLog w))) streamSystemPrompt question []).
Qed.

(** C5: on a repository with nothing indexed, [Query] gives the fixed
    answer with no source and makes no chat call, while [QueryStream]
    calls the streaming chat with an empty context and returns its
    stream; the claim has both give the fixed answer before any chat
    call. *)
Theorem QueryStream_calls_chat_without_chunks :
  Query Examples.formatTwoDecimals Examples.demoAI Examples.demoDb "repo-1"
    "where is main?" Examples.emptyStore
  = (Some (Ok (noRelevantCode, [])),
     mkWorld [] 1 [CallEmbed "where is main?"])
  /\ QueryStream Examples.demoAI Examples.demoDb "repo-1" "where is main?"
       Examples.emptyStore
     = (Some (Ok (["It"; " depends."], [])),
        mkWorld [] 1
          [CallEmbed "where is main?";
           CallChatStream streamSystemPrompt "where is main?" []]).
Proof. split; vm_compute; reflexivity. Qed.

End RagTheory.

Module JobsTheory.
Import Go Jobs.

Lemma afterSend_closed snapshot c : closed (afterSend snapshot c) = closed c.
Proof. unfold afterSend. by destruct (length (buf c) <? cap c)%nat. Qed.

Lemma afterSend_full snapshot c :
  length (buf c) = cap c -> afterSend snapshot c = c.
Proof.
  intros H. unfold afterSend.
  destruct (Nat.ltb_spec (length (buf c)) (cap c)); [lia|done].
Qed.

Lemma sendAll_notin snapshot ss : forall cs ch,
  ch ∉ ss -> sendAll snapshot ss cs !! ch = cs !! ch.
Proof.
  induction ss as [|x ss IH]; intros cs ch Hn; simpl; [done|].
  apply not_elem_of_cons in Hn as [Hne Hn].
  rewrite IH by done.
  destruct (cs !! x); [by rewrite lookup_insert_ne|done].
Qed.

Lemma sendAll_in snapshot ss : forall cs ch,
  NoDup ss -> ch ∈ ss ->
  sendAll snapshot ss cs !! ch = afterSend snapshot <$> cs !! ch.
Proof.
  induction ss as [|x ss IH]; intros cs ch Hnd Hin; [by apply elem_of_nil in Hin|].
  apply NoDup_cons in Hnd as [Hx Hnd].
  apply elem_of_cons in Hin as [->|Hin]; simpl.
  - rewrite sendAll_notin by done.
    destruct (cs !! x) eqn:E; [by rewrite lookup_insert_eq|by rewrite E].
  - rewrite IH by done.
    destruct (cs !! x) eqn:E; [|done].
    rewrite lookup_insert_ne; [done|]. intros ->. done.
Qed.

(** A full channel is left as it is, wherever it is listed. *)
Lemma sendAll_full snapshot ss : forall cs ch c,
  cs !! ch = Some c -> length (buf c) = cap c ->
  sendAll snapshot ss cs !! ch = Some c.
Proof.
  induction ss as [|x ss IH]; intros cs ch c Hc Hfull; simpl; [done|].
  apply IH; [|done].
  destruct (cs !! x) as [cx|] eqn:E; [|done].
  destruct (decide (x = ch)) as [->|Hne].
  - rewrite lookup_insert_eq. rewrite Hc in E. injection E as <-.
    by rewrite afterSend_full.
  - by rewrite lookup_insert_ne.
Qed.

Lemma sendAll_open snapshot ss : forall cs ch,
  (exists c, cs !! ch = Some c /\ closed c = false) ->
  exists c, sendAll snapshot ss cs !! ch = Some c /\ closed c = false.
Proof.
  induction ss as [|x ss IH]; intros cs ch (c & Hc & Ho); simpl; [eauto|].
  apply IH.
  destruct (cs !! x) as [cx|] eqn:E; [|eauto].
  destruct (decide (x = ch)) as [->|Hne].
  - rewrite lookup_insert_eq. eexists; split; [done|].
    rewrite afterSend_closed. rewrite Hc in E. by injection E as <-.
  - rewrite lookup_insert_ne by done. eauto.
Qed.

(** The notification loop, when every listed channel is open. *)
Lemma notify_spec snapshot ss : forall t,
  (forall ch, ch ∈ ss -> exists c, chans t !! ch = Some c /\ closed c = false) ->
  forEach ss (trySend snapshot) t
  = (Some tt, mkJobTracker (jobs t) (subs t)
                (sendAll snapshot ss (chans t)) (nextChan t)).
Proof.
  induction ss as [|x ss IH]; intros t Hopen.
  - by destruct t.
  - destruct (Hopen x) as (c & Hc & Ho); [by left|].
    simpl. unfold bind at 1. unfold trySend at 1. unfold bind at 1, get at 1.
    rewrite Hc, Ho.
    destruct (length (buf c) <? cap c)%nat eqn:E.
    + unfold modify at 1. rewrite IH.
      * simpl. unfold afterSend. by rewrite E, Ho.
      * intros ch Hin. simpl.
        destruct (decide (x = ch)) as [->|Hne].
        -- rewrite lookup_insert_eq. eauto.
        -- rewrite lookup_insert_ne by done. apply Hopen. by right.
    + unfold ret at 1. rewrite IH.
      * do 2 f_equal. unfold afterSend. rewrite E. by rewrite insert_id.
      * intros ch Hin. apply Hopen. by right.
Qed.

Lemma UpdateJob_held now id strategy progress status t job :
  subsOpen t -> jobs t !! id = Some job ->
  UpdateJob now id strategy progress status t
  = (Some tt, updated now id strategy progress status job t).
Proof.
  intros Hwf Hjob. unfold UpdateJob, bind at 1, get at 1. rewrite Hjob.
  unfold bind, modify. rewrite notify_spec; [done|].
  simpl. intros ch Hin. destruct (subs t !! id) as [ss|] eqn:E; simpl in Hin.
  - by apply (Hwf id ss E).
  - by apply elem_of_nil in Hin.
Qed.

Lemma updated_subsOpen now id strategy progress status t job :
  subsOpen t -> subsOpen (updated now id strategy progress status job t).
Proof.
  intros Hwf id' ss Hss. simpl in Hss. destruct (Hwf id' ss Hss) as [Hnd Hopen].
  split; [done|]. intros ch Hin. simpl. apply sendAll_open. by apply Hopen.
Qed.

Lemma UpdateJob_absent now id strategy progress status t :
  jobs t !! id = None ->
  UpdateJob now id strategy progress status t = (Some tt, t).
Proof. intros H. unfold UpdateJob, bind, get. by rewrite H. Qed.

(** C10: for a job id the tracker does not hold, [UpdateJob] returns with
    the tracker exactly as it was: no job is created or changed and no
    channel, of that id or of any other, receives a snapshot. *)
Theorem UpdateJob_unknown_id_noop (now : Z) (id strategy : string)
    (progress : Z) (status : string) (t : JobTracker) :
  jobs t !! id = None ->
  UpdateJob now id strategy progress status t = (Some tt, t).
Proof. apply UpdateJob_absent. Qed.

Lemma UpdateJob_unknown_id_noop_witness :
  jobs Examples.strayTracker !! "job-9" = None
  /\ UpdateJob 300 "job-9" "security" 1 "running" Examples.strayTracker
     = (Some tt, Examples.strayTracker).
Proof.
  split; [reflexivity|].
  apply (UpdateJob_unknown_id_noop 300 "job-9" "security" 1 "running"
           Examples.strayTracker).
  reflexivity.
Defined.

(** C1, as the code has it: an [UpdateJob] for a held job whose status is
    terminal is applied like any other; the stored job takes the progress,
    the current strategy and the status of the call and keeps its
    identifier, repository, total and start time. *)
Theorem UpdateJob_applies_to_terminal_job (now : Z) (id strategy : string)
    (progress : Z) (status : string) (t : JobTracker) (job : JobStatus) :
  subsOpen t ->
  jobs t !! id = Some job ->
  isTerminal (Status job) = true ->
  exists t' job',
    UpdateJob now id strategy progress status t = (Some tt, t')
    /\ GetJob id t' = Some job'
    /\ Status job' = status /\ Progress job' = progress
    /\ Current job' = strategy
    /\ ID job' = ID job /\ RepoID job' = RepoID job
    /\ Total job' = Total job /\ StartedAt job' = StartedAt job.
Proof.
  intros Hwf Hjob _.
  exists (updated now id strategy progress status job t),
         (applyUpdate now strategy progress status job).
  split; [by apply UpdateJob_held|].
  split; [unfold GetJob; simpl; by rewrite lookup_insert_eq|].
  by repeat split.
Qed.

Lemma subsOpen_doneTracker : subsOpen Examples.doneTracker.
Proof.
  intros id ss Hss.
  destruct (decide (id = "job-1")) as [->|Hne].
  - vm_compute in Hss. injection Hss as <-. split.
    + apply NoDup_singleton.
    + intros ch Hin. apply list_elem_of_singleton in Hin as ->.
      eexists. split; [vm_compute; reflexivity|reflexivity].
  - assert (Hs : subs Examples.doneTracker = {[ "job-1" := [0%nat] ]})
      by (vm_compute; reflexivity).
    rewrite Hs in Hss. by rewrite lookup_singleton_ne in Hss.
Qed.

Lemma UpdateJob_applies_to_terminal_job_witness :
  exists t' job',
    UpdateJob 300 "job-1" "security" 0 "running" Examples.doneTracker
    = (Some tt, t')
    /\ GetJob "job-1" t' = Some job'
    /\ Status job' = "running" /\ Progress job' = 0
    /\ Current job' = "security"
    /\ ID job' = ID Examples.doneJob /\ RepoID job' = RepoID Examples.doneJob
    /\ Total job' = Total Examples.doneJob
    /\ StartedAt job' = StartedAt Examples.doneJob.
Proof.
  apply (UpdateJob_applies_to_terminal_job 300 "job-1" "security" 0 "running"
           Examples.doneTracker Examples.doneJob).
  - exact subsOpen_doneTracker.
  - vm_compute. reflexivity.
  - reflexivity.
Defined.

(** C1, as stated, fails: the job [job-1] is complete, and a later
    [UpdateJob] turns it back to running with progress 0. *)
Lemma terminal_job_is_overwritten :
  GetJob "job-1" Examples.doneTracker = Some Examples.doneJob
  /\ isTerminal (Status Examples.doneJob) = true
  /\ (UpdateJob 300 "job-1" "security" 0 "running" Examples.doneTracker).1
     = Some tt
  /\ GetJob "job-1"
       (UpdateJob 300 "job-1" "security" 0 "running" Examples.doneTracker).2
     = Some Examples.reopenedJob
  /\ Examples.reopenedJob <> Examples.doneJob.
Proof.
  split; [vm_compute; reflexivity|].
  split; [reflexivity|].
  split; [vm_compute; reflexivity|].
  split; [vm_compute; reflexivity|].
  discriminate.
Qed.

End JobsTheory.

Module OrchestratorTheory.
Import GoStrings Go Orchestrator GoTheory JobsTheory.

Lemma updateJob_held env jobID s p st w job :
  Ready jobID w job ->
  updateJob env jobID s p st w
  = (Some tt,
     mkWorld
       (Jobs.updated (clock env (length (trace w))) jobID s p st job (tracker w))
       (results w)
       (trace w ++ [EvUpdateJob jobID s p st
                      (Some (Jobs.applyUpdate (clock env (length (trace w)))
                               s p st job))])).
Proof.
  intros [Hwf Hjob]. unfold updateJob, bind, get, onTracker.
  rewrite (UpdateJob_held _ _ _ _ _ _ job) by done.
  unfold emit, modify. simpl. by rewrite lookup_insert_eq.
Qed.

Lemma updated_Ready now jobID s p st w job rs tr :
  Ready jobID w job ->
  Ready jobID (mkWorld (Jobs.updated now jobID s p st job (tracker w)) rs tr)
    (Jobs.applyUpdate now s p st job).
Proof.
  intros [Hwf Hjob]. split; simpl.
  - by apply updated_subsOpen.
  - by rewrite lookup_insert_eq.
Qed.

Lemma runsSoFar_app s tr1 tr2 :
  runsSoFar s (tr1 ++ tr2) = (runsSoFar s tr1 + runsSoFar s tr2)%nat.
Proof. unfold runsSoFar. by rewrite List.filter_app, length_app. Qed.

Lemma RunStrategy_spec env s req w :
  RunStrategy env s req w
  = (Some (wrapRun s (Run env s (runsSoFar s (trace w)) req)),
     mkWorld (tracker w) (results w) (trace w ++ [EvRunStrategy s])).
Proof. reflexivity. Qed.

Lemma sleep_spec (attempt : nat) w :
  (if (0 <? attempt)%nat then emit (EvSleep 5) else ret tt) w
  = (Some tt,
     mkWorld (tracker w) (results w)
       (trace w ++ (if (0 <? attempt)%nat then [EvSleep 5] else []))).
Proof.
  destruct (0 <? attempt)%nat; [reflexivity|].
  unfold ret. rewrite app_nil_r. by destruct w.
Qed.

Lemma runsSoFar_sleep s tr (attempt : nat) :
  runsSoFar s (tr ++ (if (0 <? attempt)%nat then [EvSleep 5] else []))
  = runsSoFar s tr.
Proof.
  rewrite runsSoFar_app. destruct (0 <? attempt)%nat; unfold runsSoFar; simpl; lia.
Qed.

Lemma runsSoFar_run s tr : runsSoFar s (tr ++ [EvRunStrategy s]) = S (runsSoFar s tr).
Proof.
  rewrite runsSoFar_app. unfold runsSoFar at 2. simpl.
  rewrite String.eqb_refl. simpl. lia.
Qed.

(** The retry loop, as a function of the world it starts in. *)
Lemma tryStrategy_spec env s req : forall retriesLeft attempt w,
  tryStrategy env s req retriesLeft attempt w
  = (Some (tryAnswer env s req (runsSoFar s (trace w)) retriesLeft).1,
     mkWorld (tracker w) (results w)
       (trace w
        ++ tryEvents s attempt
             (tryAnswer env s req (runsSoFar s (trace w)) retriesLeft).2)).
Proof.
  induction retriesLeft as [|r IH]; intros attempt w.
  - cbn [tryStrategy tryAnswer].
    rewrite (bind_Some _ _ _ _ _ (sleep_spec attempt w)).
    rewrite (bind_Some _ _ _ _ _ (RunStrategy_spec _ _ _ _)).
    cbn [trace tracker results]. rewrite runsSoFar_sleep.
    destruct (wrapRun s (Run env s (runsSoFar s (trace w)) req)); simpl;
      by rewrite <- app_assoc.
  - cbn [tryStrategy tryAnswer].
    rewrite (bind_Some _ _ _ _ _ (sleep_spec attempt w)).
    rewrite (bind_Some _ _ _ _ _ (RunStrategy_spec _ _ _ _)).
    cbn [trace tracker results]. rewrite runsSoFar_sleep.
    destruct (wrapRun s (Run env s (runsSoFar s (trace w)) req)) eqn:E.
    + simpl. by rewrite <- app_assoc.
    + rewrite IH. cbn [trace tracker results].
      rewrite runsSoFar_run, runsSoFar_sleep.
      destruct (tryAnswer env s req (S (runsSoFar s (trace w))) r) as [a n].
      simpl. by rewrite <- !app_assoc.
Qed.

Lemma Save_spec env repoID s summary details score translated w :
  SaveAnalysisResultFull env repoID s summary details score translated w
  = (Some (insertError env (length (trace w))
             (mkAnalysisResultRow repoID s summary (storedDetails env details)
                score translated)),
     mkWorld (tracker w)
       (results w
        ++ savedRows
             [EvSave (mkAnalysisResultRow repoID s summary
                        (storedDetails env details) score translated)
                (insertError env (length (trace w))
                   (mkAnalysisResultRow repoID s summary
                      (storedDetails env details) score translated))])
       (trace w
        ++ [EvSave (mkAnalysisResultRow repoID s summary
                      (storedDetails env details) score translated)
              (insertError env (length (trace w))
                 (mkAnalysisResultRow repoID s summary
                    (storedDetails env details) score translated))])).
Proof.
  unfold SaveAnalysisResultFull, bind, get.
  destruct (insertError env (length (trace w)) _); simpl.
  - by rewrite app_nil_r.
  - done.
Qed.

Lemma translate_spec env summary lang w :
  (if wantsTranslation lang then translateReport env summary lang
   else ret EmptyString) w
  = (Some (if wantsTranslation lang
           then translationOf (chat env (length (trace w)) (translatePrompt lang)
                                 summary [])
           else EmptyString),
     mkWorld (tracker w) (results w)
       (trace w ++ (if wantsTranslation lang
                    then [EvChat (translatePrompt lang) summary] else []))).
Proof.
  destruct (wantsTranslation lang); [reflexivity|].
  unfold ret. rewrite app_nil_r. by destruct w.
Qed.

Lemma savedRows_app tr1 tr2 : savedRows (tr1 ++ tr2) = savedRows tr1 ++ savedRows tr2.
Proof. apply omap_app. Qed.

Lemma savedRows_tryEvents s : forall n attempt, savedRows (tryEvents s attempt n) = [].
Proof.
  induction n as [|n IH]; intros attempt; simpl; [done|].
  rewrite savedRows_app. unfold savedRows in *. simpl. rewrite IH.
  by destruct (0 <? attempt)%nat.
Qed.

(** One iteration of the strategy loop, as a function of the world it
    starts in. *)
Lemma runOneStrategy_exact env jobID repoID req lang i s w job :
  Ready jobID w job ->
  let now1 := clock env (length (trace w)) in
  let j1 := Jobs.applyUpdate now1 s (Z.of_nat i) "running" job in
  let u1 := EvUpdateJob jobID s (Z.of_nat i) "running" (Some j1) in
  let mid := midEvents env repoID req lang s (trace w ++ [u1]) in
  let now2 := clock env (length (trace w ++ u1 :: mid)) in
  let j2 := Jobs.applyUpdate now2 s (Z.of_nat i + 1) "running" j1 in
  runOneStrategy env jobID repoID req lang i s w
  = (Some tt,
     mkWorld
       (Jobs.updated now2 jobID s (Z.of_nat i + 1) "running" j1
          (Jobs.updated now1 jobID s (Z.of_nat i) "running" job (tracker w)))
       (results w ++ savedRows mid)
       (trace w ++ u1 :: mid
        ++ [EvUpdateJob jobID s (Z.of_nat i + 1) "running" (Some j2)])).
Proof.
  intros Hready now1 j1 u1 mid now2 j2. unfold runOneStrategy.
  rewrite (bind_Some _ _ _ _ _ (updateJob_held _ _ _ _ _ _ _ Hready)).
  fold now1 j1 u1.
  rewrite (bind_Some _ _ _ _ _ (tryStrategy_spec _ _ _ _ _ _)).
  cbn [trace tracker results].
  subst mid. unfold midEvents in *.
  destruct (tryAnswer env s req (runsSoFar s (trace w ++ [u1])) maxRetries)
    as [answer n] eqn:E.
  cbn [fst snd].
  destruct answer as [result|err].
  - rewrite (bind_Some _ _ _ _ _ (translate_spec _ _ _ _)).
    rewrite (bind_Some _ _ _ _ _ (Save_spec _ _ _ _ _ _ _ _)).
    cbn [trace tracker results].
    erewrite updateJob_held; [|by apply updated_Ready].
    cbn [trace tracker results].
    subst now2 j2. rewrite !savedRows_app, savedRows_tryEvents.
    replace (savedRows (if wantsTranslation lang
                        then [EvChat (translatePrompt lang) (Summary result)]
                        else [])) with (@nil AnalysisResultRow)
      by (by destruct (wantsTranslation lang)).
    rewrite <- ?app_assoc. simpl. rewrite <- ?app_assoc. simpl.
    reflexivity.
  - rewrite (bind_Some _ _ _ _ _ (Save_spec _ _ _ _ _ _ _ _)).
    cbn [trace tracker results].
    erewrite updateJob_held; [|by apply updated_Ready].
    cbn [trace tracker results].
    subst now2 j2. rewrite !savedRows_app, savedRows_tryEvents.
    rewrite <- ?app_assoc. simpl. rewrite <- ?app_assoc. simpl.
    reflexivity.
Qed.

(** The strategy loop, as a function of the world it starts in. *)
Lemma strategyLoop_exact env jobID repoID req lang : forall strategies i w job,
  Ready jobID w job ->
  strategyLoop env jobID repoID req lang i strategies w
  = (Some tt,
     mkWorld
       (loopTracker env jobID repoID req lang i strategies (trace w) job (tracker w))
       (results w
        ++ savedRows (loopEvents env jobID repoID req lang i strategies (trace w) job).1)
       (trace w ++ (loopEvents env jobID repoID req lang i strategies (trace w) job).1))
  /\ Ready jobID
       (mkWorld
          (loopTracker env jobID repoID req lang i strategies (trace w) job (tracker w))
          (results w
           ++ savedRows (loopEvents env jobID repoID req lang i strategies (trace w) job).1)
          (trace w ++ (loopEvents env jobID repoID req lang i strategies (trace w) job).1))
       (loopEvents env jobID repoID req lang i strategies (trace w) job).2.
Proof.
  induction strategies as [|s rest IH]; intros i w job Hready.
  - simpl. rewrite !app_nil_r. destruct w. by split.
  - cbn [strategyLoop loopEvents loopTracker].
    rewrite (bind_Some _ _ _ _ _ (runOneStrategy_exact _ _ _ _ _ _ _ _ _ Hready)).
    cbv zeta. unfold strategyEvents, strategyTracker. cbv zeta.
    set (j1 := Jobs.applyUpdate (clock env (length (trace w))) s (Z.of_nat i)
                 "running" job).
    set (u1 := EvUpdateJob jobID s (Z.of_nat i) "running" (Some j1)).
    set (mid := midEvents env repoID req lang s (trace w ++ [u1])).
    set (now2 := clock env (length (trace w ++ u1 :: mid))).
    set (j2 := Jobs.applyUpdate now2 s (Z.of_nat i + 1) "running" j1).
    set (u2 := EvUpdateJob jobID s (Z.of_nat i + 1) "running" (Some j2)).
    set (w1 := mkWorld _ _ _).
    assert (Hready1 : Ready jobID w1 j2).
    { subst w1. apply (updated_Ready now2 jobID s (Z.of_nat i + 1) "running"
         (mkWorld (Jobs.updated (clock env (length (trace w))) jobID s
                     (Z.of_nat i) "running" job (tracker w)) [] []) j1).
      by apply updated_Ready. }
    destruct (IH (S i) w1 j2 Hready1) as [Hrun Hr].
    rewrite Hrun. subst w1. cbn [trace tracker results] in *.
    destruct (loopEvents env jobID repoID req lang (S i) rest
                (trace w ++ u1 :: mid ++ [u2]) j2) as [evs2 j'] eqn:E.
    cbn [fst snd] in *.
    rewrite ?savedRows_app in *.
    rewrite <- ?app_assoc in *.
    assert (Hs : savedRows (u1 :: mid ++ [u2]) = savedRows mid).
    { change (u1 :: mid ++ [u2]) with ([u1] ++ mid ++ [u2]).
      rewrite !savedRows_app. simpl. by rewrite app_nil_r. }
    rewrite Hs. split; [reflexivity|exact Hr].
Qed.

Lemma Forall_midEvent_tryEvents s : forall n attempt,
  Forall (midEvent s) (tryEvents s attempt n).
Proof.
  induction n as [|n IH]; intros attempt; simpl; [constructor|].
  apply Forall_app; split.
  - destruct (0 <? attempt)%nat; by repeat constructor.
  - constructor; [done|apply IH].
Qed.

Lemma midEvents_mid env repoID req lang s tr :
  Forall (midEvent s) (midEvents env repoID req lang s tr).
Proof.
  unfold midEvents.
  destruct (tryAnswer env s req (runsSoFar s tr) maxRetries) as [[result|err] n].
  - apply Forall_app; split; [apply Forall_midEvent_tryEvents|].
    apply Forall_app; split; [|by repeat constructor].
    destruct (wantsTranslation lang); by repeat constructor.
  - apply Forall_app; split; [apply Forall_midEvent_tryEvents|].
    by repeat constructor.
Qed.

Lemma mid_no_updates s evs :
  Forall (midEvent s) evs -> updateCalls evs = [] /\ jobHistory evs = [].
Proof.
  induction 1 as [|e evs He _ [IH1 IH2]]; [done|].
  unfold updateCalls, jobHistory in *.
  destruct e; simpl in *; done.
Qed.

Lemma updateCalls_app tr1 tr2 :
  updateCalls (tr1 ++ tr2) = updateCalls tr1 ++ updateCalls tr2.
Proof. apply omap_app. Qed.

Lemma jobHistory_app tr1 tr2 :
  jobHistory (tr1 ++ tr2) = jobHistory tr1 ++ jobHistory tr2.
Proof. apply omap_app. Qed.

(** The updates of one iteration. *)
Lemma strategyEvents_updates env jobID repoID req lang i s tr job :
  updateCalls (strategyEvents env jobID repoID req lang i s tr job).1
  = [(s, Z.of_nat i, "running"); (s, Z.of_nat i + 1, "running")]
  /\ map summaryOf (jobHistory (strategyEvents env jobID repoID req lang i s tr job).1)
     = [(s, Z.of_nat i, "running"); (s, Z.of_nat i + 1, "running")]
  /\ Forall (fun j => Jobs.Total j = Jobs.Total job)
       (jobHistory (strategyEvents env jobID repoID req lang i s tr job).1)
  /\ Jobs.Total (strategyEvents env jobID repoID req lang i s tr job).2
     = Jobs.Total job.
Proof.
  unfold strategyEvents. cbv zeta. cbn [fst snd].
  set (j1 := Jobs.applyUpdate _ s (Z.of_nat i) "running" job).
  set (u1 := EvUpdateJob jobID s (Z.of_nat i) "running" (Some j1)).
  destruct (mid_no_updates s _ (midEvents_mid env repoID req lang s (tr ++ [u1])))
    as [Hc Hh].
  change (u1 :: ?m ++ ?l) with ([u1] ++ m ++ l).
  rewrite !updateCalls_app, !jobHistory_app, Hc, Hh.
  simpl. repeat split; by repeat constructor.
Qed.

Lemma loopEvents_cons env jobID repoID req lang i s rest tr job :
  loopEvents env jobID repoID req lang i (s :: rest) tr job
  = ((strategyEvents env jobID repoID req lang i s tr job).1
     ++ (loopEvents env jobID repoID req lang (S i) rest
           (tr ++ (strategyEvents env jobID repoID req lang i s tr job).1)
           (strategyEvents env jobID repoID req lang i s tr job).2).1,
     (loopEvents env jobID repoID req lang (S i) rest
        (tr ++ (strategyEvents env jobID repoID req lang i s tr job).1)
        (strategyEvents env jobID repoID req lang i s tr job).2).2).
Proof.
  cbn [loopEvents].
  destruct (strategyEvents env jobID repoID req lang i s tr job) as [e1 j2].
  cbn [fst snd].
  by destruct (loopEvents env jobID repoID req lang (S i) rest (tr ++ e1) j2).
Qed.

(** The updates of the whole loop: the calls are the expected ones, every
    call is applied, and the total is kept. *)
Lemma loopEvents_updates env jobID repoID req lang : forall strategies i tr job,
  updateCalls (loopEvents env jobID repoID req lang i strategies tr job).1
  = expectedCalls i strategies
  /\ map summaryOf (jobHistory (loopEvents env jobID repoID req lang i strategies tr job).1)
     = expectedCalls i strategies
  /\ Forall (fun j => Jobs.Total j = Jobs.Total job)
       (jobHistory (loopEvents env jobID repoID req lang i strategies tr job).1)
  /\ Jobs.Total (loopEvents env jobID repoID req lang i strategies tr job).2
     = Jobs.Total job.
Proof.
  induction strategies as [|s rest IH]; intros i tr job.
  - simpl. by repeat split.
  - rewrite loopEvents_cons. cbn [fst snd].
    destruct (strategyEvents_updates env jobID repoID req lang i s tr job)
      as (Hc & Hh & Ht & Hj).
    destruct (IH (S i)
                (tr ++ (strategyEvents env jobID repoID req lang i s tr job).1)
                (strategyEvents env jobID repoID req lang i s tr job).2)
      as (Hc' & Hh' & Ht' & Hj').
    rewrite updateCalls_app, jobHistory_app, map_app, Hc, Hh, Hc', Hh'.
    refine (conj eq_refl (conj eq_refl (conj _ _))).
    + apply Forall_app; split; [done|].
      eapply Forall_impl; [exact Ht'|]. intros j Hx. simpl in Hx. congruence.
    + congruence.
Qed.

(** [runAnalysisJob], as a function of the world it starts in. *)
Lemma runAnalysisJob_exact env jobID repoID req strategies lang w job :
  Ready jobID w job ->
  runAnalysisJob env jobID repoID req strategies lang w
  = (Some tt,
     mkWorld
       (jobTracker env jobID repoID req lang strategies (trace w) job (tracker w))
       (results w
        ++ savedRows (loopEvents env jobID repoID req lang 0 strategies (trace w) job).1)
       (trace w ++ (jobEvents env jobID repoID req lang strategies (trace w) job).1))
  /\ Ready jobID
       (mkWorld
          (jobTracker env jobID repoID req lang strategies (trace w) job (tracker w))
          [] [])
       (jobEvents env jobID repoID req lang strategies (trace w) job).2.
Proof.
  intros Hready. unfold runAnalysisJob, jobTracker, jobEvents.
  destruct (strategyLoop_exact env jobID repoID req lang strategies 0 w job Hready)
    as [Hrun Hr].
  rewrite (bind_Some _ _ _ _ _ Hrun).
  destruct (loopEvents env jobID repoID req lang 0 strategies (trace w) job)
    as [evs j] eqn:E.
  cbn [fst snd] in *.
  rewrite (updateJob_held _ _ _ _ _ _ _ Hr). cbn [trace tracker results].
  rewrite <- app_assoc. split; [reflexivity|].
  exact (updated_Ready (clock env (length (trace w ++ evs))) jobID EmptyString
           (Z.of_nat (length strategies)) "complete" _ _ [] [] Hr).
Qed.

(** [RunAnalysis] creates the job and runs it. *)
Lemma RunAnalysis_exact env jobID repoID req strategies lang w :
  Jobs.subsOpen (tracker w) ->
  let job0 := newJob (clock env (length (trace w))) jobID repoID
                (Z.of_nat (length strategies)) in
  let w0 := mkWorld
              (Jobs.mkJobTracker (<[jobID := job0]> (Jobs.jobs (tracker w)))
                 (Jobs.subs (tracker w)) (Jobs.chans (tracker w))
                 (Jobs.nextChan (tracker w)))
              (results w) (trace w) in
  RunAnalysis env jobID repoID req strategies lang w
  = runAnalysisJob env jobID repoID req strategies lang w0
  /\ Ready jobID w0 job0.
Proof.
  intros Hwf job0 w0. split.
  - reflexivity.
  - split; simpl; [exact Hwf|by rewrite lookup_insert_eq].
Qed.

(** The progress values of the expected calls, closed by the final call. *)
Lemma expectedCalls_progress : forall strategies i,
  nondecreasing
    (Z.of_nat i
     :: map (fun c => c.1.2) (expectedCalls i strategies)
        ++ [Z.of_nat (i + length strategies)])
  /\ Forall (fun p => p <= Z.of_nat (i + length strategies))
       (map (fun c => c.1.2) (expectedCalls i strategies)
        ++ [Z.of_nat (i + length strategies)]).
Proof.
  induction strategies as [|s rest IH]; intros i; simpl.
  - split; [split; [lia|done]|]. constructor; [lia|constructor].
  - destruct (IH (S i)) as [Hn Hf].
    replace (i + S (length rest))%nat with (S i + length rest)%nat by lia.
    replace (Z.of_nat i + 1) with (Z.of_nat (S i)) by lia.
    split.
    + split; [lia|]. split; [lia|]. exact Hn.
    + constructor; [lia|]. constructor; [lia|]. exact Hf.
Qed.

Lemma expectedCalls_running : forall strategies i,
  Forall (fun c => c.2 = "running") (expectedCalls i strategies).
Proof.
  induction strategies as [|s rest IH]; intros i; simpl; by repeat constructor.
Qed.

Lemma terminalTransitions_running h1 : forall h2,
  Forall (fun j => Jobs.Status j = "running") h1 ->
  terminalTransitions false (h1 ++ h2) = terminalTransitions false h2.
Proof.
  induction h1 as [|j h1 IH]; intros h2 H; [done|].
  inversion H as [|? ? Hj Hrest]; subst. simpl. rewrite Hj. simpl.
  by apply IH.
Qed.

(** A full channel stays as it is through any update. *)
Lemma updated_full now id s p st job t ch c :
  Jobs.chans t !! ch = Some c -> length (Jobs.buf c) = Jobs.cap c ->
  Jobs.chans (Jobs.updated now id s p st job t) !! ch = Some c.
Proof. intros Hc Hfull. simpl. by apply sendAll_full. Qed.

Lemma loopTracker_full env jobID repoID req lang ch c : forall strategies i tr job t,
  Jobs.chans t !! ch = Some c -> length (Jobs.buf c) = Jobs.cap c ->
  Jobs.chans (loopTracker env jobID repoID req lang i strategies tr job t) !! ch
  = Some c.
Proof.
  induction strategies as [|s rest IH]; intros i tr job t Hc Hfull; [done|].
  cbn [loopTracker].
  destruct (strategyEvents env jobID repoID req lang i s tr job) as [e1 j2].
  apply IH; [|done]. unfold strategyTracker. cbv zeta.
  apply updated_full; [|done]. by apply updated_full.
Qed.

Lemma jobTracker_full env jobID repoID req lang strategies tr job t ch c :
  Jobs.chans t !! ch = Some c -> length (Jobs.buf c) = Jobs.cap c ->
  Jobs.chans (jobTracker env jobID repoID req lang strategies tr job t) !! ch
  = Some c.
Proof.
  intros Hc Hfull. unfold jobTracker.
  destruct (loopEvents env jobID repoID req lang 0 strategies tr job) as [evs j]
    eqn:E.
  apply updated_full; [|done]. by apply loopTracker_full.
Qed.

(** The updates of a whole job. *)
Lemma jobEvents_updates env jobID repoID req lang strategies tr job :
  updateCalls (jobEvents env jobID repoID req lang strategies tr job).1
  = expectedCalls 0 strategies
    ++ [(EmptyString, Z.of_nat (length strategies), "complete")]
  /\ map summaryOf (jobHistory (jobEvents env jobID repoID req lang strategies tr job).1)
     = expectedCalls 0 strategies
       ++ [(EmptyString, Z.of_nat (length strategies), "complete")]
  /\ Forall (fun j => Jobs.Total j = Jobs.Total job)
       (jobHistory (jobEvents env jobID repoID req lang strategies tr job).1)
  /\ summaryOf (jobEvents env jobID repoID req lang strategies tr job).2
     = (EmptyString, Z.of_nat (length strategies), "complete")
  /\ Jobs.Total (jobEvents env jobID repoID req lang strategies tr job).2
     = Jobs.Total job
  /\ last (jobHistory (jobEvents env jobID repoID req lang strategies tr job).1)
     = Some (jobEvents env jobID repoID req lang strategies tr job).2.
Proof.
  unfold jobEvents.
  destruct (loopEvents_updates env jobID repoID req lang strategies 0 tr job)
    as (Hc & Hh & Ht & Hj).
  destruct (loopEvents env jobID repoID req lang 0 strategies tr job) as [evs j].
  cbn [fst snd] in *.
  rewrite updateCalls_app, jobHistory_app, map_app, Hc, Hh. simpl.
  refine (conj eq_refl (conj eq_refl (conj _ (conj eq_refl (conj Hj _))))).
  - apply Forall_app; split; [done|]. by repeat constructor.
  - by rewrite last_snoc.
Qed.

Lemma map_Progress_summary (h : list Jobs.JobStatus) :
  map Jobs.Progress h = map (fun c => c.1.2) (map summaryOf h).
Proof. induction h as [|j h IH]; simpl; [done|by rewrite IH]. Qed.

Lemma Forall_Status_summary (h : list Jobs.JobStatus) st :
  Forall (fun c : string * Z * string => c.2 = st) (map summaryOf h) ->
  Forall (fun j => Jobs.Status j = st) h.
Proof.
  induction h as [|j h IH]; simpl; intros H; [constructor|].
  inversion H; subst. constructor; [done|by apply IH].
Qed.

(** C2: a job created by [RunAnalysis] and driven by its background loop
    has every [UpdateJob] call applied; across those calls the stored
    progress never decreases (from the 0 the job is created with), never
    exceeds the total, and the status passes to a terminal one exactly
    once; the job the tracker holds at the end is the last of them. *)
Theorem job_progress_monotone_bounded_one_terminal
    (env : Env) (jobID repoID : string) (req : AnalysisRequest)
    (strategies : list string) (lang : string) (w : World) :
  Jobs.subsOpen (tracker w) ->
  exists w' evs,
    RunAnalysis env jobID repoID req strategies lang w = (Some tt, w')
    /\ trace w' = trace w ++ evs
    /\ map summaryOf (jobHistory evs) = updateCalls evs
    /\ nondecreasing (0 :: map Jobs.Progress (jobHistory evs))
    /\ Forall (fun j => Jobs.Progress j <= Jobs.Total j) (jobHistory evs)
    /\ terminalTransitions false (jobHistory evs) = 1%nat
    /\ Jobs.GetJob jobID (tracker w') = last (jobHistory evs).
Proof.
  intros Hwf.
  destruct (RunAnalysis_exact env jobID repoID req strategies lang w Hwf)
    as [Hrun Hready].
  set (job0 := newJob (clock env (length (trace w))) jobID repoID
                 (Z.of_nat (length strategies))) in *.
  set (w0 := mkWorld _ _ _) in *.
  destruct (runAnalysisJob_exact env jobID repoID req strategies lang w0 job0 Hready)
    as [Hjob [_ Hheld]].
  destruct (jobEvents_updates env jobID repoID req lang strategies (trace w0) job0)
    as (Hc & Hh & Ht & Hsum & Htot & Hlast).
  destruct (expectedCalls_progress strategies 0) as [Hnd Hle].
  simpl in Hnd, Hle.
  eexists _, (jobEvents env jobID repoID req lang strategies (trace w0) job0).1.
  split; [rewrite Hrun; exact Hjob|].
  split; [reflexivity|].
  split; [by rewrite Hc, Hh|].
  assert (Hp : map Jobs.Progress
                 (jobHistory (jobEvents env jobID repoID req lang strategies
                                (trace w0) job0).1)
               = map (fun c => c.1.2) (expectedCalls 0 strategies)
                 ++ [Z.of_nat (length strategies)]).
  { rewrite map_Progress_summary, Hh, map_app. done. }
  split; [rewrite Hp; exact Hnd|].
  split.
  { apply Forall_forall. intros j Hj.
    assert (Hj1 : Jobs.Progress j
                  ∈ map Jobs.Progress
                      (jobHistory (jobEvents env jobID repoID req lang
                                     strategies (trace w0) job0).1))
      by (apply list_elem_of_fmap; eauto).
    rewrite Hp in Hj1. rewrite Forall_forall in Hle. rewrite Forall_forall in Ht.
    rewrite (Ht j Hj). simpl. by apply Hle. }
  split.
  { assert (Hsplit : exists h,
              jobHistory (jobEvents env jobID repoID req lang strategies
                            (trace w0) job0).1
              = h ++ [(jobEvents env jobID repoID req lang strategies
                         (trace w0) job0).2]
              /\ map summaryOf h = expectedCalls 0 strategies).
    { destruct (jobHistory _) as [|j0 h0] using rev_ind; [done|].
      rewrite last_snoc in Hlast. injection Hlast as ->.
      exists h0. split; [done|].
      rewrite map_app in Hh. simpl in Hh.
      by apply app_inj_tail in Hh as [Hh _]. }
    destruct Hsplit as (h & -> & Hhh).
    rewrite terminalTransitions_running.
    - simpl. injection Hsum as _ _ ->. done.
    - apply Forall_Status_summary. rewrite Hhh. apply expectedCalls_running. }
  rewrite Hlast. unfold Jobs.GetJob. simpl. exact Hheld.
Qed.

Lemma subsOpen_watchedTracker : Jobs.subsOpen Examples.watchedTracker.
Proof.
  intros id ss Hss.
  assert (Hs : Jobs.subs Examples.watchedTracker = {[ "job-1" := [0%nat] ]})
    by (vm_compute; reflexivity).
  rewrite Hs in Hss. apply lookup_singleton_Some in Hss as [<- <-].
  split; [apply NoDup_singleton|].
  intros ch Hin. apply list_elem_of_singleton in Hin as ->.
  eexists. split; [vm_compute; reflexivity|reflexivity].
Qed.

Lemma job_progress_monotone_bounded_one_terminal_witness :
  Jobs.subsOpen (tracker Examples.freshWorld)
  /\ exists w' evs,
       RunAnalysis Examples.flakyEnv "job-2" "repo-1" Examples.request
         ["security"] EmptyString Examples.freshWorld = (Some tt, w')
       /\ trace w' = trace Examples.freshWorld ++ evs
       /\ map summaryOf (jobHistory evs) = updateCalls evs
       /\ nondecreasing (0 :: map Jobs.Progress (jobHistory evs))
       /\ Forall (fun j => Jobs.Progress j <= Jobs.Total j) (jobHistory evs)
       /\ terminalTransitions false (jobHistory evs) = 1%nat
       /\ Jobs.GetJob "job-2" (tracker w') = last (jobHistory evs).
Proof.
  split; [exact subsOpen_watchedTracker|].
  apply (job_progress_monotone_bounded_one_terminal Examples.flakyEnv "job-2"
           "repo-1" Examples.request ["security"] EmptyString
           Examples.freshWorld).
  exact subsOpen_watchedTracker.
Defined.

(** C9: an [UpdateJob] for a held job returns, whatever the state of the
    subscribers' channels: each subscriber's channel gets the snapshot when
    it has room and is left as it was when it is full (the others still
    get it).  And the background job of a job whose subscribers never
    drain returns with the job complete, the full channels untouched. *)
Theorem full_subscriber_never_blocks
    (env : Env) (jobID repoID : string) (req : AnalysisRequest)
    (strategies : list string) (lang : string) (w : World)
    (job : Jobs.JobStatus) (ss : list nat)
    (now : Z) (strategy : string) (progress : Z) (status : string) :
  Jobs.subsOpen (tracker w) ->
  Jobs.jobs (tracker w) !! jobID = Some job ->
  Jobs.subs (tracker w) !! jobID = Some ss ->
  (exists t',
     Jobs.UpdateJob now jobID strategy progress status (tracker w) = (Some tt, t')
     /\ Jobs.GetJob jobID t'
        = Some (Jobs.applyUpdate now strategy progress status job)
     /\ forall ch c, ch ∈ ss -> Jobs.chans (tracker w) !! ch = Some c ->
          Jobs.chans t' !! ch
          = Some (Jobs.afterSend
                    (Jobs.applyUpdate now strategy progress status job) c))
  /\ (exists w' final,
        runAnalysisJob env jobID repoID req strategies lang w = (Some tt, w')
        /\ Jobs.GetJob jobID (tracker w') = Some final
        /\ Jobs.Status final = "complete"
        /\ forall ch c, Jobs.chans (tracker w) !! ch = Some c ->
             length (Jobs.buf c) = Jobs.cap c ->
             Jobs.chans (tracker w') !! ch = Some c).
Proof.
  intros Hwf Hjob Hss. split.
  - exists (Jobs.updated now jobID strategy progress status job (tracker w)).
    split; [by apply UpdateJob_held|].
    split; [unfold Jobs.GetJob; simpl; by rewrite lookup_insert_eq|].
    intros ch c Hin Hc. simpl. rewrite Hss. simpl.
    destruct (Hwf jobID ss Hss) as [Hnd _].
    rewrite sendAll_in by done. by rewrite Hc.
  - assert (Hready : Ready jobID w job) by (by split).
    destruct (runAnalysisJob_exact env jobID repoID req strategies lang w job Hready)
      as [Hrun [_ Hheld]].
    destruct (jobEvents_updates env jobID repoID req lang strategies (trace w) job)
      as (_ & _ & _ & Hsum & _ & _).
    eexists _, _. split; [exact Hrun|].
    split; [exact Hheld|].
    split; [by injection Hsum|].
    intros ch c Hc Hfull. simpl. by apply jobTracker_full.
Qed.

Lemma subsOpen_crowdedTracker : Jobs.subsOpen Examples.crowdedTracker.
Proof.
  intros id ss Hss. simpl in Hss.
  apply lookup_singleton_Some in Hss as [<- <-].
  split.
  - apply NoDup_cons. split; [|apply NoDup_singleton].
    intros Hin. apply list_elem_of_singleton in Hin. discriminate.
  - intros ch Hin. apply elem_of_cons in Hin as [->|Hin].
    + eexists. split; [vm_compute; reflexivity|reflexivity].
    + apply list_elem_of_singleton in Hin as ->.
      eexists. split; [vm_compute; reflexivity|reflexivity].
Qed.

Lemma full_subscriber_never_blocks_witness :
  (exists t',
     Jobs.UpdateJob 1000 "job-1" "security" 0 "running"
       (tracker Examples.crowdedWorld) = (Some tt, t')
     /\ Jobs.GetJob "job-1" t'
        = Some (Jobs.applyUpdate 1000 "security" 0 "running" Examples.runningJob)
     /\ forall ch c, ch ∈ [0%nat; 1%nat] ->
          Jobs.chans (tracker Examples.crowdedWorld) !! ch = Some c ->
          Jobs.chans t' !! ch
          = Some (Jobs.afterSend
                    (Jobs.applyUpdate 1000 "security" 0 "running"
                       Examples.runningJob) c))
  /\ (exists w' final,
        runAnalysisJob Examples.flakyEnv "job-1" "repo-1" Examples.request
          ["security"] EmptyString Examples.crowdedWorld = (Some tt, w')
        /\ Jobs.GetJob "job-1" (tracker w') = Some final
        /\ Jobs.Status final = "complete"
        /\ forall ch c, Jobs.chans (tracker Examples.crowdedWorld) !! ch = Some c ->
             length (Jobs.buf c) = Jobs.cap c ->
             Jobs.chans (tracker w') !! ch = Some c).
Proof.
  apply (full_subscriber_never_blocks Examples.flakyEnv "job-1" "repo-1"
           Examples.request ["security"] EmptyString Examples.crowdedWorld
           Examples.runningJob [0%nat; 1%nat] 1000 "security" 0 "running").
  - exact subsOpen_crowdedTracker.
  - vm_compute. reflexivity.
  - vm_compute. reflexivity.
Defined.

(** Three failing attempts leave the error of the third. *)
Lemma tryAnswer_all_fail env s req k :
  (forall n, exists e, Run env s n req = Err e) ->
  exists e,
    Run env s (k + 2) req = Err e
    /\ tryAnswer env s req k maxRetries
       = (Err ("run strategy " +:+ s +:+ ": " +:+ e), 3%nat).
Proof.
  intros Hfail.
  destruct (Hfail k) as [e0 H0]. destruct (Hfail (S k)) as [e1 H1].
  destruct (Hfail (S (S k))) as [e2 H2].
  exists e2. split; [by replace (k + 2)%nat with (S (S k)) by lia|].
  unfold maxRetries. cbn [tryAnswer]. rewrite H0. cbn [wrapRun].
  rewrite H1. cbn [wrapRun]. rewrite H2. reflexivity.
Qed.

Lemma failSummary_report env repoID s err :
  isFailureReport repoID s err
    (mkAnalysisResultRow repoID s (failSummary s err) (storedDetails env "{}")
       zeroScore EmptyString).
Proof.
  unfold isFailureReport. cbn [RowRepoID RowStrategy RowScore
                                 RowSummaryTranslated RowSummary].
  do 4 (split; [reflexivity|]).
  unfold failSummary.
  replace (pretty (maxRetries + 1)%nat) with "3" by (vm_compute; reflexivity).
  reflexivity.
Qed.

Lemma midEvents_all_fail env repoID req lang s tr :
  (forall n, exists e, Run env s n req = Err e) ->
  (forall n row, insertError env n row = None) ->
  exists e row,
    Run env s (runsSoFar s tr + 2) req = Err e
    /\ midEvents env repoID req lang s tr
       = tryEvents s 0 3 ++ [EvSave row None]
    /\ isFailureReport repoID s ("run strategy " +:+ s +:+ ": " +:+ e) row.
Proof.
  intros Hfail Hins. unfold midEvents.
  destruct (tryAnswer_all_fail env s req (runsSoFar s tr) Hfail)
    as (e & He & ->).
  rewrite Hins. eexists e, _. split; [exact He|].
  split; [reflexivity|]. apply failSummary_report.
Qed.

(** The iteration of a strategy that fails on every attempt: one row is
    saved, the failure report with the error of the third attempt, and the
    strategy was run three times. *)
Lemma strategyEvents_all_fail env jobID repoID req lang i s tr job :
  (forall n, exists e, Run env s n req = Err e) ->
  (forall n row, insertError env n row = None) ->
  exists e row,
    Run env s (runsSoFar s tr + 2) req = Err e
    /\ savedRows (strategyEvents env jobID repoID req lang i s tr job).1 = [row]
    /\ isFailureReport repoID s ("run strategy " +:+ s +:+ ": " +:+ e) row
    /\ forall s',
         runsSoFar s' (strategyEvents env jobID repoID req lang i s tr job).1
         = if String.eqb s' s then 3%nat else 0%nat.
Proof.
  intros Hfail Hins. unfold strategyEvents. cbv zeta. cbn [fst].
  set (j1 := Jobs.applyUpdate _ s (Z.of_nat i) "running" job).
  set (u1 := EvUpdateJob jobID s (Z.of_nat i) "running" (Some j1)).
  assert (Hk : runsSoFar s (tr ++ [u1]) = runsSoFar s tr).
  { rewrite runsSoFar_app. unfold runsSoFar at 2. simpl. lia. }
  destruct (midEvents_all_fail env repoID req lang s (tr ++ [u1]) Hfail Hins)
    as (e & row & He & -> & Hrow).
  rewrite Hk in He. exists e, row. split; [exact He|].
  split; [reflexivity|]. split; [exact Hrow|].
  intros s'. unfold runsSoFar. cbn. rewrite (String.eqb_sym s s').
  by destruct (String.eqb s' s).
Qed.

Lemma occurrences_cons s s0 i rest :
  occurrences s (S i) (s0 :: rest)
  = ((if String.eqb s s0 then 1 else 0) + occurrences s i rest)%nat.
Proof.
  unfold occurrences. cbn [take List.filter].
  by destruct (String.eqb s s0).
Qed.

Lemma loopEvents_all_fail env jobID repoID req lang : forall strategies i tr job,
  (forall s n, s ∈ strategies -> exists e, Run env s n req = Err e) ->
  (forall n row, insertError env n row = None) ->
  length (savedRows (loopEvents env jobID repoID req lang i strategies tr job).1)
  = length strategies
  /\ forall j s, strategies !! j = Some s ->
       exists e row,
         Run env s (runsSoFar s tr + 3 * occurrences s j strategies + 2) req
         = Err e
         /\ savedRows (loopEvents env jobID repoID req lang i strategies tr job).1
            !! j = Some row
         /\ isFailureReport repoID s ("run strategy " +:+ s +:+ ": " +:+ e) row.
Proof.
  induction strategies as [|s0 rest IH]; intros i tr job Hfail Hins.
  - split; [reflexivity|]. intros j s Hj. done.
  - rewrite loopEvents_cons. cbn [fst]. rewrite savedRows_app.
    destruct (strategyEvents_all_fail env jobID repoID req lang i s0 tr job)
      as (e0 & row0 & He0 & Hrows0 & Hrow0 & Hruns0); [|done|].
    { intros n. apply Hfail. by left. }
    rewrite Hrows0.
    set (evs1 := (strategyEvents env jobID repoID req lang i s0 tr job).1) in *.
    set (j2 := (strategyEvents env jobID repoID req lang i s0 tr job).2).
    destruct (IH (S i) (tr ++ evs1) j2) as [Hlen Hat]; [|done|].
    { intros s n Hin. apply Hfail. by right. }
    split; [cbn [app length]; by rewrite Hlen|].
    intros [|j] s Hj.
    + injection Hj as <-. exists e0, row0.
      unfold occurrences. cbn [take List.filter length].
      rewrite Nat.mul_0_r, Nat.add_0_r. by split.
    + destruct (Hat j s Hj) as (e & row & He & Hj' & Hrow).
      exists e, row. split; [|by split].
      rewrite <- He. f_equal.
      rewrite runsSoFar_app, Hruns0, occurrences_cons.
      destruct (String.eqb s s0); lia.
Qed.

(** C6: when every strategy fails on all of its attempts (and the store
    takes the rows), the job saves one row per strategy, in their order,
    and the row at each position is the failure report of the strategy at
    that position: score 0, and the notice naming the strategy, the three
    attempts and the error of the third, last attempt as [RunStrategy]
    words it.  (The runs of a strategy before that attempt are those before
    the job, three for each earlier position of the strategy, and two.)
    The [UpdateJob] calls are, per strategy, the mark at its index and the
    advance to its index plus one, then the final one; and the job ends
    complete with progress equal to total. *)
Theorem all_strategies_failing_job_completes
    (env : Env) (jobID repoID : string) (req : AnalysisRequest)
    (strategies : list string) (lang : string) (w : World) :
  Jobs.subsOpen (tracker w) ->
  (forall s k, s ∈ strategies -> exists e, Run env s k req = Err e) ->
  (forall n row, insertError env n row = None) ->
  exists w' evs rows final,
    RunAnalysis env jobID repoID req strategies lang w = (Some tt, w')
    /\ trace w' = trace w ++ evs
    /\ results w' = results w ++ rows
    /\ length rows = length strategies
    /\ (forall i s, strategies !! i = Some s ->
          exists e row,
            Run env s
              (runsSoFar s (trace w) + 3 * occurrences s i strategies + 2) req
            = Err e
            /\ rows !! i = Some row
            /\ isFailureReport repoID s
                 ("run strategy " +:+ s +:+ ": " +:+ e) row)
    /\ updateCalls evs
       = expectedCalls 0 strategies
         ++ [(EmptyString, Z.of_nat (length strategies), "complete")]
    /\ Jobs.GetJob jobID (tracker w') = Some final
    /\ Jobs.Status final = "complete"
    /\ Jobs.Progress final = Z.of_nat (length strategies)
    /\ Jobs.Total final = Z.of_nat (length strategies)
    /\ Jobs.Current final = EmptyString.
Proof.
  intros Hwf Hfail Hins.
  destruct (RunAnalysis_exact env jobID repoID req strategies lang w Hwf)
    as [Hrun Hready].
  set (job0 := newJob (clock env (length (trace w))) jobID repoID
                 (Z.of_nat (length strategies))) in *.
  set (w0 := mkWorld _ _ _) in *.
  destruct (runAnalysisJob_exact env jobID repoID req strategies lang w0 job0 Hready)
    as [Hjob [_ Hheld]].
  destruct (jobEvents_updates env jobID repoID req lang strategies (trace w0) job0)
    as (Hc & _ & _ & Hsum & Htot & _).
  destruct (loopEvents_all_fail env jobID repoID req lang strategies 0
              (trace w0) job0 Hfail Hins) as [Hlen Hat].
  eexists _, _, _, _.
  split; [rewrite Hrun; exact Hjob|].
  split; [reflexivity|].
  split; [reflexivity|].
  split; [exact Hlen|].
  split; [exact Hat|].
  split; [exact Hc|].
  split; [exact Hheld|].
  injection Hsum as Hcur Hprog Hst.
  by rewrite Htot.
Qed.

Lemma all_strategies_failing_job_completes_witness :
  exists w' evs rows final,
    RunAnalysis Examples.stubbornEnv "job-2" "repo-1" Examples.request
      ["security"; "quality"] EmptyString Examples.freshWorld = (Some tt, w')
    /\ trace w' = trace Examples.freshWorld ++ evs
    /\ results w' = results Examples.freshWorld ++ rows
    /\ length rows = length ["security"; "quality"]
    /\ (forall i s, ["security"; "quality"] !! i = Some s ->
          exists e row,
            Run Examples.stubbornEnv s
              (runsSoFar s (trace Examples.freshWorld)
               + 3 * occurrences s i ["security"; "quality"] + 2)
              Examples.request
            = Err e
            /\ rows !! i = Some row
            /\ isFailureReport "repo-1" s
                 ("run strategy " +:+ s +:+ ": " +:+ e) row)
    /\ updateCalls evs
       = expectedCalls 0 ["security"; "quality"]
         ++ [(EmptyString, Z.of_nat (length ["security"; "quality"]), "complete")]
    /\ Jobs.GetJob "job-2" (tracker w') = Some final
    /\ Jobs.Status final = "complete"
    /\ Jobs.Progress final = Z.of_nat (length ["security"; "quality"])
    /\ Jobs.Total final = Z.of_nat (length ["security"; "quality"])
    /\ Jobs.Current final = EmptyString.
Proof.
  apply (all_strategies_failing_job_completes Examples.stubbornEnv "job-2"
           "repo-1" Examples.request ["security"; "quality"] EmptyString
           Examples.freshWorld).
  - exact subsOpen_watchedTracker.
  - intros s k Hin.
    apply elem_of_cons in Hin as [->|Hin]; [eexists; reflexivity|].
    apply list_elem_of_singleton in Hin as ->. eexists; reflexivity.
  - reflexivity.
Defined.

(** The loop over a list of strategies in which [s] occurs, split at [s]. *)
Lemma loopEvents_split env jobID repoID req lang s post : forall pre i tr job,
  loopEvents env jobID repoID req lang i (pre ++ s :: post) tr job
  = ((loopEvents env jobID repoID req lang i pre tr job).1
     ++ (strategyEvents env jobID repoID req lang (i + length pre) s
           (tr ++ (loopEvents env jobID repoID req lang i pre tr job).1)
           (loopEvents env jobID repoID req lang i pre tr job).2).1
     ++ (loopEvents env jobID repoID req lang (S (i + length pre)) post
           (tr ++ (loopEvents env jobID repoID req lang i pre tr job).1
            ++ (strategyEvents env jobID repoID req lang (i + length pre) s
                  (tr ++ (loopEvents env jobID repoID req lang i pre tr job).1)
                  (loopEvents env jobID repoID req lang i pre tr job).2).1)
           (strategyEvents env jobID repoID req lang (i + length pre) s
              (tr ++ (loopEvents env jobID repoID req lang i pre tr job).1)
              (loopEvents env jobID repoID req lang i pre tr job).2).2).1,
     (loopEvents env jobID repoID req lang (S (i + length pre)) post
        (tr ++ (loopEvents env jobID repoID req lang i pre tr job).1
         ++ (strategyEvents env jobID repoID req lang (i + length pre) s
               (tr ++ (loopEvents env jobID repoID req lang i pre tr job).1)
               (loopEvents env jobID repoID req lang i pre tr job).2).1)
        (strategyEvents env jobID repoID req lang (i + length pre) s
           (tr ++ (loopEvents env jobID repoID req lang i pre tr job).1)
           (loopEvents env jobID repoID req lang i pre tr job).2).2).2).
Proof.
  induction pre as [|p pre IH]; intros i tr job.
  - cbn [app length]. rewrite Nat.add_0_r.
    change (loopEvents env jobID repoID req lang i [] tr job) with
      (@nil Event, job).
    cbn [fst snd]. rewrite !app_nil_r. cbn [app].
    apply loopEvents_cons.
  - change ((p :: pre) ++ s :: post) with (p :: (pre ++ s :: post)).
    rewrite loopEvents_cons, IH. rewrite (loopEvents_cons _ _ _ _ _ _ p pre).
    cbn [fst snd length].
    replace (i + S (length pre))%nat with (S i + length pre)%nat by lia.
    rewrite <- !app_assoc. reflexivity.
Qed.

Lemma about_mid_other s s' evs :
  s' <> s -> Forall (midEvent s') evs -> List.filter (about s) evs = [].
Proof.
  intros Hne. induction 1 as [|e evs He _ IH]; [done|].
  simpl. rewrite IH.
  destruct e; simpl in *; try done; subst;
    by rewrite (proj2 (String.eqb_neq _ _) Hne).
Qed.

Lemma strategyEvents_about_other env jobID repoID req lang i s s' tr job :
  s' <> s ->
  List.filter (about s) (strategyEvents env jobID repoID req lang i s' tr job).1
  = [].
Proof.
  intros Hne. unfold strategyEvents. cbv zeta. cbn [fst].
  change (?u :: ?m ++ ?l) with ([u] ++ m ++ l).
  rewrite !List.filter_app.
  rewrite (about_mid_other s s' _ Hne (midEvents_mid _ _ _ _ _ _)).
  simpl. by rewrite (proj2 (String.eqb_neq _ _) Hne).
Qed.

Lemma loopEvents_about_other env jobID repoID req lang s :
  forall strategies i tr job,
  s ∉ strategies ->
  List.filter (about s) (loopEvents env jobID repoID req lang i strategies tr job).1
  = [].
Proof.
  induction strategies as [|s' rest IH]; intros i tr job Hn; [done|].
  apply not_elem_of_cons in Hn as [Hne Hn].
  rewrite loopEvents_cons. cbn [fst]. rewrite List.filter_app.
  rewrite strategyEvents_about_other by done. by rewrite IH.
Qed.

Lemma about_runs s evs tr :
  List.filter (about s) evs = [] -> runsSoFar s (tr ++ evs) = runsSoFar s tr.
Proof.
  intros H. rewrite runsSoFar_app.
  assert (Hz : runsSoFar s evs = 0%nat); [|lia].
  unfold runsSoFar. induction evs as [|e evs IH]; [done|].
  simpl in H. destruct (about s e) eqn:E; [done|].
  simpl. destruct e; simpl in *; try by apply IH.
  rewrite E. by apply IH.
Qed.

Lemma about_rows s evs :
  List.filter (about s) evs = [] -> List.filter (rowOf s) (savedRows evs) = [].
Proof.
  induction evs as [|e evs IH]; [done|].
  simpl. destruct (about s e) eqn:E; [done|]. intros H.
  unfold savedRows in *. simpl.
  destruct e as [| | | |row [err|]]; simpl in *; try by apply IH.
  unfold rowOf at 1. rewrite E. by apply IH.
Qed.

(** The iteration of a strategy that fails twice and then succeeds. *)
Lemma strategyEvents_retry env jobID repoID req lang i s tr job e0 e1 r :
  Run env s (runsSoFar s tr) req = Err e0 ->
  Run env s (S (runsSoFar s tr)) req = Err e1 ->
  Run env s (S (S (runsSoFar s tr))) req = Ok r ->
  (forall n row, insertError env n row = None) ->
  exists j1 j2 row,
    (strategyEvents env jobID repoID req lang i s tr job).1
    = [EvUpdateJob jobID s (Z.of_nat i) "running" (Some j1);
       EvRunStrategy s; EvSleep 5; EvRunStrategy s; EvSleep 5; EvRunStrategy s]
      ++ (if wantsTranslation lang
          then [EvChat (translatePrompt lang) (Summary r)] else [])
      ++ [EvSave row None;
          EvUpdateJob jobID s (Z.of_nat i + 1) "running" (Some j2)]
    /\ RowRepoID row = repoID /\ RowStrategy row = s
    /\ RowSummary row = Summary r /\ RowScore row = Score r.
Proof.
  intros H0 H1 H2 Hins. unfold strategyEvents. cbv zeta. cbn [fst].
  set (j1 := Jobs.applyUpdate _ s (Z.of_nat i) "running" job).
  set (u1 := EvUpdateJob jobID s (Z.of_nat i) "running" (Some j1)).
  assert (Hk : runsSoFar s (tr ++ [u1]) = runsSoFar s tr).
  { rewrite runsSoFar_app. unfold runsSoFar at 2. simpl. lia. }
  unfold midEvents. rewrite Hk. unfold maxRetries.
  cbn [tryAnswer]. rewrite H0. cbn [wrapRun]. rewrite H1. cbn [wrapRun].
  rewrite H2. cbn [wrapRun tryEvents]. rewrite Hins.
  eexists j1, _, _. split.
  - simpl. rewrite <- !app_assoc. simpl. reflexivity.
  - done.
Qed.

(** C3, as the code has it: for a strategy that fails on its first two
    attempts and succeeds on the third (the store taking the rows), the job
    marks the strategy once with [UpdateJob] at its index, runs it three
    times with a sleep before the second and the third run, saves the
    successful result and then advances the progress; nothing else in the
    job is about that strategy, and the row saved for it is the successful
    one. *)
Theorem retried_strategy_saves_success
    (env : Env) (jobID repoID : string) (req : AnalysisRequest) (lang : string)
    (pre : list string) (s : string) (post : list string) (w : World)
    (e0 e1 : string) (r : AnalysisResult) :
  Jobs.subsOpen (tracker w) ->
  s ∉ pre -> s ∉ post ->
  Run env s (runsSoFar s (trace w)) req = Err e0 ->
  Run env s (S (runsSoFar s (trace w))) req = Err e1 ->
  Run env s (S (S (runsSoFar s (trace w)))) req = Ok r ->
  (forall n row, insertError env n row = None) ->
  exists w' before after j1 j2 final row rows,
    RunAnalysis env jobID repoID req (pre ++ s :: post) lang w = (Some tt, w')
    /\ trace w'
       = trace w ++ before
         ++ [EvUpdateJob jobID s (Z.of_nat (length pre)) "running" (Some j1);
             EvRunStrategy s; EvSleep 5; EvRunStrategy s; EvSleep 5;
             EvRunStrategy s]
         ++ (if wantsTranslation lang
             then [EvChat (translatePrompt lang) (Summary r)] else [])
         ++ [EvSave row None;
             EvUpdateJob jobID s (Z.of_nat (length pre) + 1) "running" (Some j2)]
         ++ after
         ++ [EvUpdateJob jobID EmptyString
               (Z.of_nat (length (pre ++ s :: post))) "complete" (Some final)]
    /\ List.filter (about s) before = []
    /\ List.filter (about s) after = []
    /\ RowRepoID row = repoID /\ RowStrategy row = s
    /\ RowSummary row = Summary r /\ RowScore row = Score r
    /\ results w' = results w ++ rows
    /\ List.filter (rowOf s) rows = [row].
Proof.
  intros Hwf Hpre Hpost H0 H1 H2 Hins.
  destruct (RunAnalysis_exact env jobID repoID req (pre ++ s :: post) lang w Hwf)
    as [Hrun Hready].
  set (job0 := newJob (clock env (length (trace w))) jobID repoID
                 (Z.of_nat (length (pre ++ s :: post)))) in *.
  set (w0 := mkWorld _ _ _) in *.
  destruct (runAnalysisJob_exact env jobID repoID req (pre ++ s :: post) lang
              w0 job0 Hready) as [Hjob _].
  rewrite Hrun, Hjob. clear Hrun Hjob.
  unfold jobEvents. rewrite loopEvents_split. cbn [fst snd].
  change (trace w0) with (trace w). change (results w0) with (results w).
  set (lp := loopEvents env jobID repoID req lang 0 pre (trace w) job0).
  assert (Hb : List.filter (about s) lp.1 = [])
    by (by apply loopEvents_about_other).
  destruct (strategyEvents_retry env jobID repoID req lang (0 + length pre) s
              (trace w ++ lp.1) lp.2 e0 e1 r) as (j1 & j2 & row & Hse & Hrow);
    try (rewrite about_runs by exact Hb; assumption); [exact Hins|].
  set (se := strategyEvents env jobID repoID req lang (0 + length pre) s
               (trace w ++ lp.1) lp.2) in *.
  set (lq := loopEvents env jobID repoID req lang (S (0 + length pre)) post
               (trace w ++ lp.1 ++ se.1) se.2).
  assert (Ha : List.filter (about s) lq.1 = [])
    by (by apply loopEvents_about_other).
  eexists _, lp.1, lq.1, j1, j2, _, row, _.
  split; [reflexivity|].
  split.
  { cbn [trace]. rewrite Hse. cbn [Nat.add]. rewrite <- !app_assoc.
    reflexivity. }
  split; [exact Hb|]. split; [exact Ha|].
  destruct Hrow as (Hr1 & Hr2 & Hr3 & Hr4).
  split; [exact Hr1|]. split; [exact Hr2|]. split; [exact Hr3|].
  split; [exact Hr4|].
  split; [reflexivity|].
  rewrite !savedRows_app, !List.filter_app.
  rewrite (about_rows s _ Hb), (about_rows s _ Ha), Hse.
  rewrite !savedRows_app.
  replace (savedRows (if wantsTranslation lang
                      then [EvChat (translatePrompt lang) (Summary r)]
                      else [])) with (@nil AnalysisResultRow)
    by (by destruct (wantsTranslation lang)).
  simpl. unfold rowOf. rewrite Hr2, String.eqb_refl. reflexivity.
Qed.

Lemma retried_strategy_saves_success_witness :
  exists w' before after j1 j2 final row rows,
    RunAnalysis Examples.flakyEnv "job-2" "repo-1" Examples.request
      ([] ++ "security" :: []) EmptyString Examples.freshWorld = (Some tt, w')
    /\ trace w'
       = trace Examples.freshWorld ++ before
         ++ [EvUpdateJob "job-2" "security" (Z.of_nat (length (@nil string)))
               "running" (Some j1);
             EvRunStrategy "security"; EvSleep 5; EvRunStrategy "security";
             EvSleep 5; EvRunStrategy "security"]
         ++ (if wantsTranslation EmptyString
             then [EvChat (translatePrompt EmptyString)
                     (Summary Examples.securityReport)] else [])
         ++ [EvSave row None;
             EvUpdateJob "job-2" "security"
               (Z.of_nat (length (@nil string)) + 1) "running" (Some j2)]
         ++ after
         ++ [EvUpdateJob "job-2" EmptyString
               (Z.of_nat (length ([] ++ "security" :: []))) "complete"
               (Some final)]
    /\ List.filter (about "security") before = []
    /\ List.filter (about "security") after = []
    /\ RowRepoID row = "repo-1" /\ RowStrategy row = "security"
    /\ RowSummary row = Summary Examples.securityReport
    /\ RowScore row = Score Examples.securityReport
    /\ results w' = results Examples.freshWorld ++ rows
    /\ List.filter (rowOf "security") rows = [row].
Proof.
  apply (retried_strategy_saves_success Examples.flakyEnv "job-2" "repo-1"
           Examples.request EmptyString [] "security" [] Examples.freshWorld
           "timeout" "timeout" Examples.securityReport).
  - exact subsOpen_watchedTracker.
  - apply not_elem_of_nil.
  - apply not_elem_of_nil.
  - reflexivity.
  - reflexivity.
  - reflexivity.
  - reflexivity.
Defined.

(** C3, as stated, fails: the [security] strategy fails twice and succeeds
    on its third run, the row saved is the successful one, and yet
    [UpdateJob] was called with status running once, not three times, for
    index 0; the calls of the whole job are three. *)
Lemma retry_marks_running_once :
  Run Examples.flakyEnv "security" 0 Examples.request = Err "timeout"
  /\ Run Examples.flakyEnv "security" 1 Examples.request = Err "timeout"
  /\ Run Examples.flakyEnv "security" 2 Examples.request
     = Ok Examples.securityReport
  /\ (RunAnalysis Examples.flakyEnv "job-2" "repo-1" Examples.request
        ["security"] EmptyString Examples.freshWorld).1 = Some tt
  /\ runsSoFar "security"
       (trace (RunAnalysis Examples.flakyEnv "job-2" "repo-1" Examples.request
                 ["security"] EmptyString Examples.freshWorld).2) = 3%nat
  /\ map RowSummary
       (results (RunAnalysis Examples.flakyEnv "job-2" "repo-1"
                   Examples.request ["security"] EmptyString
                   Examples.freshWorld).2)
     = [Summary Examples.securityReport]
  /\ updateCalls
       (trace (RunAnalysis Examples.flakyEnv "job-2" "repo-1" Examples.request
                 ["security"] EmptyString Examples.freshWorld).2)
     = [("security", 0, "running"); ("security", 1, "running");
        (EmptyString, 1, "complete")]
  /\ length
       (List.filter
          (fun c : string * Z * string =>
             (c.1.2 =? 0) && String.eqb c.2 "running")
          (updateCalls
             (trace (RunAnalysis Examples.flakyEnv "job-2" "repo-1"
                       Examples.request ["security"] EmptyString
                       Examples.freshWorld).2)))
     <> 3%nat.
Proof.
  repeat split; try (vm_compute; reflexivity).
  vm_compute. discriminate.
Qed.

End OrchestratorTheory.

Module JobsHandlerTheory.
Import GoStrings Go Jobs JobsHandler GoTheory JobsTheory.

Lemma removeFirst_subseteq ch ss x : x ∈ removeFirst ch ss -> x ∈ ss.
Proof.
  induction ss as [|s ss IH]; simpl; [done|].
  destruct (Nat.eqb_spec s ch) as [->|Hne]; intros H.
  - by right.
  - apply elem_of_cons in H as [->|H]; [by left|right; by apply IH].
Qed.

Lemma removeFirst_NoDup ch ss : NoDup ss -> NoDup (removeFirst ch ss).
Proof.
  induction 1 as [|s ss Hs Hnd IH]; simpl; [constructor|].
  destruct (Nat.eqb_spec s ch) as [->|Hne]; [done|].
  constructor; [|done]. intros H. by apply Hs, (removeFirst_subseteq ch).
Qed.

Lemma removeFirst_gone ch ss : NoDup ss -> ch ∉ removeFirst ch ss.
Proof.
  induction 1 as [|s ss Hs Hnd IH]; simpl; [by apply not_elem_of_nil|].
  destruct (Nat.eqb_spec s ch) as [->|Hne]; [done|].
  apply not_elem_of_cons. split; [congruence|done].
Qed.

Lemma removeFirst_absent ch ss : ch ∉ ss -> removeFirst ch ss = ss.
Proof.
  induction ss as [|s ss IH]; simpl; [done|]. intros H.
  apply not_elem_of_cons in H as [Hne H].
  destruct (Nat.eqb_spec s ch) as [->|_]; [done|]. by rewrite IH.
Qed.

Lemma removeFirst_last ch ss : ch ∉ ss -> removeFirst ch (ss ++ [ch]) = ss.
Proof.
  induction ss as [|s ss IH]; simpl; intros H.
  - by rewrite Nat.eqb_refl.
  - apply not_elem_of_cons in H as [Hne H].
    destruct (Nat.eqb_spec s ch) as [->|_]; [done|]. by rewrite IH.
Qed.

Lemma trackerOk_new : trackerOk NewJobTracker.
Proof.
  split; [|split].
  - intros id ss H. cbn in H. by rewrite lookup_empty in H.
  - intros id1 id2 ss1 ss2 ch H. cbn in H. by rewrite lookup_empty in H.
  - intros id ss ch H. cbn in H. by rewrite lookup_empty in H.
Qed.

Lemma CreateJob_ok now id repoID total t :
  trackerOk t ->
  (CreateJob now id repoID total t).1 = Some tt
  /\ trackerOk (CreateJob now id repoID total t).2.
Proof. intros H. split; [done|]. exact H. Qed.

Lemma UpdateJob_ok now id strategy progress status t :
  trackerOk t ->
  (UpdateJob now id strategy progress status t).1 = Some tt
  /\ trackerOk (UpdateJob now id strategy progress status t).2.
Proof.
  intros (Ho & Hd & Hb).
  destruct (jobs t !! id) as [job|] eqn:E.
  - rewrite (UpdateJob_held _ _ _ _ _ _ _ Ho E). split; [done|].
    split; [by apply updated_subsOpen|]. split; [exact Hd|exact Hb].
  - rewrite (UpdateJob_absent _ _ _ _ _ _ E). by split.
Qed.

Lemma Subscribe_run id t :
  Subscribe id t
  = (Some (nextChan t),
     mkJobTracker (jobs t)
       (<[id := default [] (subs t !! id) ++ [nextChan t]]> (subs t))
       (<[nextChan t := mkChan [] 10 false]> (chans t))
       (S (nextChan t))).
Proof. reflexivity. Qed.

Lemma Subscribe_ok id t :
  trackerOk t -> trackerOk (Subscribe id t).2.
Proof.
  intros (Ho & Hd & Hb). rewrite Subscribe_run. cbn [snd].
  assert (Hfresh : forall id' ss, subs t !! id' = Some ss -> nextChan t ∉ ss).
  { intros id' ss Hss Hin. specialize (Hb _ _ _ Hss Hin). lia. }
  assert (Hold : forall ss, subs t !! id = Some ss \/ ss = [] ->
            NoDup ss /\ (nextChan t ∉ ss)
            /\ (forall ch, ch ∈ ss -> (ch < nextChan t)%nat
                 /\ exists c, chans t !! ch = Some c /\ closed c = false)).
  { intros ss [Hss| ->].
    - destruct (Ho _ _ Hss) as [Hnd Hop]. split; [done|]. split; [by eapply Hfresh|].
      intros ch Hin. split; [by eapply Hb|by apply Hop].
    - split; [constructor|]. split; [by apply not_elem_of_nil|].
      intros ch Hin. by apply elem_of_nil in Hin. }
  assert (Hcur : subs t !! id = Some (default [] (subs t !! id))
                 \/ default [] (subs t !! id) = []).
  { destruct (subs t !! id); [by left|by right]. }
  destruct (Hold _ Hcur) as (Hnd & Hnew & Hel).
  split; [|split].
  - intros id' ss Hss. cbn [subs chans nextChan] in *.
    destruct (decide (id' = id)) as [->|Hne].
    + rewrite lookup_insert_eq in Hss. injection Hss as <-. split.
      * apply NoDup_app. split; [done|]. split; [|apply NoDup_singleton].
        intros x Hx Hx'. apply list_elem_of_singleton in Hx' as ->. done.
      * intros ch Hin. apply elem_of_app in Hin as [Hin|Hin].
        -- destruct (Hel ch Hin) as [Hlt Hc].
           rewrite lookup_insert_ne by lia. done.
        -- apply list_elem_of_singleton in Hin as ->.
           rewrite lookup_insert_eq. eauto.
    + rewrite lookup_insert_ne in Hss by done.
      destruct (Ho _ _ Hss) as [Hnd' Hop]. split; [done|].
      intros ch Hin. specialize (Hb _ _ _ Hss Hin).
      rewrite lookup_insert_ne by lia. by apply Hop.
  - intros id1 id2 ss1 ss2 ch H1 H2 Hin1 Hin2. cbn [subs chans nextChan] in *.
    destruct (decide (id1 = id)) as [->|Hn1]; destruct (decide (id2 = id)) as [->|Hn2];
      [done| | |].
    + rewrite lookup_insert_eq in H1. injection H1 as <-.
      rewrite lookup_insert_ne in H2 by done.
      apply elem_of_app in Hin1 as [Hin1|Hin1].
      * destruct Hcur as [Hcur|Hcur]; [|rewrite Hcur in Hin1; by apply elem_of_nil in Hin1].
        symmetry. by eapply (Hd id2 id).
      * apply list_elem_of_singleton in Hin1 as ->. by destruct (Hfresh _ _ H2).
    + rewrite lookup_insert_eq in H2. injection H2 as <-.
      rewrite lookup_insert_ne in H1 by done.
      apply elem_of_app in Hin2 as [Hin2|Hin2].
      * destruct Hcur as [Hcur|Hcur]; [|rewrite Hcur in Hin2; by apply elem_of_nil in Hin2].
        by eapply (Hd id1 id).
      * apply list_elem_of_singleton in Hin2 as ->. by destruct (Hfresh _ _ H1).
    + rewrite lookup_insert_ne in H1, H2 by done. by eapply Hd.
  - intros id' ss ch Hss Hin. cbn [subs chans nextChan] in *.
    destruct (decide (id' = id)) as [->|Hne].
    + rewrite lookup_insert_eq in Hss. injection Hss as <-.
      apply elem_of_app in Hin as [Hin|Hin].
      * destruct (Hel ch Hin). lia.
      * apply list_elem_of_singleton in Hin as ->. lia.
    + rewrite lookup_insert_ne in Hss by done. specialize (Hb _ _ _ Hss Hin). lia.
Qed.

(** [Unsubscribe] of a subscription the tracker has. *)
Lemma Unsubscribe_run id ch t ss c :
  subs t !! id = Some ss -> ch ∈ ss ->
  chans t !! ch = Some c -> closed c = false ->
  Unsubscribe id ch t
  = (Some tt,
     mkJobTracker (jobs t) (<[id := removeFirst ch ss]> (subs t))
       (<[ch := mkChan (buf c) (cap c) true]> (chans t)) (nextChan t)).
Proof.
  intros Hss Hin Hc Ho. unfold Unsubscribe, bind at 1, get at 1.
  rewrite Hss. rewrite bool_decide_eq_true_2 by done.
  unfold bind, modify. cbn. by rewrite Hc, Ho.
Qed.

Lemma Unsubscribe_ok id ch t :
  trackerOk t -> listed id ch t ->
  (Unsubscribe id ch t).1 = Some tt /\ trackerOk (Unsubscribe id ch t).2.
Proof.
  intros (Ho & Hd & Hb) (ss & Hss & Hin).
  destruct (Ho _ _ Hss) as [Hnd Hop]. destruct (Hop ch Hin) as (c & Hc & Hcl).
  rewrite (Unsubscribe_run _ _ _ _ _ Hss Hin Hc Hcl). split; [done|]. cbn [snd].
  split; [|split].
  - intros id' ss' Hss'. cbn [subs chans nextChan] in *.
    destruct (decide (id' = id)) as [->|Hne].
    + rewrite lookup_insert_eq in Hss'. injection Hss' as <-.
      split; [by apply removeFirst_NoDup|].
      intros x Hx.
      assert (x <> ch) by (intros ->; by apply (removeFirst_gone ch ss)).
      rewrite lookup_insert_ne by done. by apply Hop, (removeFirst_subseteq ch).
    + rewrite lookup_insert_ne in Hss' by done.
      destruct (Ho _ _ Hss') as [Hnd' Hop']. split; [done|].
      intros x Hx.
      assert (x <> ch) by (intros ->; by apply Hne, (Hd id' id ss' ss ch)).
      rewrite lookup_insert_ne by done. by apply Hop'.
  - intros id1 id2 ss1 ss2 x H1 H2 Hin1 Hin2. cbn [subs chans nextChan] in *.
    assert (Hsub : forall i s, <[id := removeFirst ch ss]> (subs t) !! i = Some s ->
               x ∈ s -> exists s', subs t !! i = Some s' /\ x ∈ s').
    { intros i s Hs Hx. destruct (decide (i = id)) as [->|Hni].
      - rewrite lookup_insert_eq in Hs. injection Hs as <-.
        exists ss. split; [done|]. by apply (removeFirst_subseteq ch).
      - rewrite lookup_insert_ne in Hs by done. eauto. }
    destruct (Hsub _ _ H1 Hin1) as (s1 & ? & ?).
    destruct (Hsub _ _ H2 Hin2) as (s2 & ? & ?).
    by eapply Hd.
  - intros id' ss' x Hss' Hx. cbn [subs chans nextChan] in *.
    destruct (decide (id' = id)) as [->|Hne].
    + rewrite lookup_insert_eq in Hss'. injection Hss' as <-.
      eapply Hb; [exact Hss|]. by apply (removeFirst_subseteq ch).
    + rewrite lookup_insert_ne in Hss' by done. by eapply Hb.
Qed.

Lemma runCall_ok c t :
  trackerOk t ->
  match c with DoUnsubscribe id ch => listed id ch t | _ => True end ->
  (runCall c t).1 = Some tt /\ trackerOk (runCall c t).2.
Proof.
  intros Hok Hc. destruct c as [now id repoID total|now id s p st|id|id ch]; simpl.
  - by apply CreateJob_ok.
  - by apply UpdateJob_ok.
  - split; [done|]. by apply (Subscribe_ok id).
  - by apply Unsubscribe_ok.
Qed.

Lemma calls_ok cs : forall t,
  trackerOk t -> disciplined cs t ->
  exists t', forEach cs runCall t = (Some tt, t') /\ trackerOk t'.
Proof.
  induction cs as [|c cs IH]; intros t Hok Hd.
  - by exists t.
  - destruct Hd as [Hc Hd].
    destruct (runCall_ok c t Hok Hc) as [Hr Hok'].
    destruct (runCall c t) as [r t1] eqn:E. cbn [fst snd] in *. subst r.
    destruct (IH t1 Hok' Hd) as (t' & Hrun & Hok'').
    exists t'. split; [|done]. cbn [forEach]. by rewrite (bind_Some _ _ _ _ _ E).
Qed.

(** X1: starting from a new tracker, any sequence of [CreateJob],
    [UpdateJob], [Subscribe] and [Unsubscribe] calls in which every
    [Unsubscribe] names a channel that is subscribed to that job at that
    point runs without a panic (no send on, and no close of, a closed
    channel), and leaves every subscribed channel open and listed once. *)
Theorem tracker_calls_never_panic (cs : list Call) :
  disciplined cs NewJobTracker ->
  exists t,
    forEach cs runCall NewJobTracker = (Some tt, t)
    /\ trackerOk t.
Proof. intros Hd. by apply calls_ok; [apply trackerOk_new|]. Qed.

Lemma tracker_calls_never_panic_witness :
  exists t,
    forEach [DoCreateJob 100 "job-1" "repo-1" 2; DoSubscribe "job-1";
             DoUpdateJob 110 "job-1" "security" 0 "running";
             DoUnsubscribe "job-1" 0; DoUpdateJob 120 "job-1" EmptyString 2 "complete"]
      runCall NewJobTracker = (Some tt, t)
    /\ trackerOk t.
Proof.
  apply (tracker_calls_never_panic
           [DoCreateJob 100 "job-1" "repo-1" 2; DoSubscribe "job-1";
            DoUpdateJob 110 "job-1" "security" 0 "running";
            DoUnsubscribe "job-1" 0; DoUpdateJob 120 "job-1" EmptyString 2 "complete"]).
  simpl. repeat split.
  exists [0%nat]. split; [vm_compute; reflexivity|]. by left.
Defined.

Lemma take_take_app {A} (n : nat) (l r : list A) :
  take n (take n l ++ r) = take n (l ++ r).
Proof.
  destruct (decide (length l <= n)%nat) as [Hle|Hgt].
  - by rewrite (take_ge l) by lia.
  - rewrite (take_app_le l) by lia.
    rewrite take_app_le by (rewrite length_take; lia).
    by rewrite take_take, Nat.min_id.
Qed.

Lemma afterSend_take snapshot c :
  (length (buf c) <= cap c)%nat ->
  afterSend snapshot c
  = mkChan (take (cap c) (buf c ++ [snapshot])) (cap c) (closed c).
Proof.
  intros Hle. unfold afterSend.
  destruct (Nat.ltb_spec (length (buf c)) (cap c)) as [Hlt|Hge].
  - rewrite take_ge; [done|]. rewrite length_app. simpl. lia.
  - rewrite take_app_le by lia. rewrite take_ge by lia. by destruct c.
Qed.

Lemma default_last_cons {A} (a b : A) (l : list A) :
  default a (last (b :: l)) = default b (last l).
Proof. rewrite last_cons. by destruct (last l). Qed.

(** A run of updates of a held job, seen from one of its subscribers. *)
Lemma updates_chan id ch us : forall t job c,
  subsOpen t -> jobs t !! id = Some job -> listed id ch t ->
  chans t !! ch = Some c -> (length (buf c) <= cap c)%nat ->
  exists t',
    forEach (updateCallsOf id us) runCall t = (Some tt, t')
    /\ subsOpen t' /\ subs t' = subs t /\ nextChan t' = nextChan t
    /\ jobs t' !! id = Some (default job (last (snapshots job us)))
    /\ chans t' !! ch
       = Some (mkChan (take (cap c) (buf c ++ snapshots job us)) (cap c) (closed c)).
Proof.
  induction us as [|u us IH]; intros t job c Ho Hjob Hl Hc Hle.
  - exists t. do 4 (split; [done|]). split; [exact Hjob|].
    cbn [snapshots]. rewrite app_nil_r, take_ge by lia. rewrite Hc. by destruct c.
  - destruct Hl as (ss & Hss & Hin).
    set (job' := applyUpdate (uNow u) (uStrategy u) (uProgress u) (uStatus u) job).
    set (t1 := updated (uNow u) id (uStrategy u) (uProgress u) (uStatus u) job t).
    assert (Hc1 : chans t1 !! ch = Some (afterSend job' c)).
    { unfold t1. cbn [updated chans]. rewrite Hss. cbn [default].
      rewrite sendAll_in; [by rewrite Hc|by apply (Ho id ss)|done]. }
    rewrite afterSend_take in Hc1 by done.
    edestruct (IH t1 job') as (t' & Hrun & Ho' & Hs' & Hn' & Hj' & Hc');
      [by apply updated_subsOpen| | |exact Hc1| |].
    + unfold t1. cbn [updated jobs]. by rewrite lookup_insert_eq.
    + exists ss. by split.
    + cbn [buf cap]. rewrite length_take. lia.
    + exists t'. cbn [updateCallsOf map forEach runCall].
      rewrite (bind_Some _ _ _ _ _ (UpdateJob_held _ _ _ _ _ _ _ Ho Hjob)).
      fold t1. split; [exact Hrun|]. split; [done|]. split; [done|].
      split; [done|]. split.
      * rewrite Hj'. cbn [snapshots]. fold job'. by rewrite default_last_cons.
      * rewrite Hc'. cbn [buf cap closed snapshots]. fold job'.
        by rewrite take_take_app, <- app_assoc.
Qed.

(** X2: a subscriber that does not receive keeps the first ten snapshots
    published after it subscribed, in order; the later ones are dropped,
    while the job the tracker holds follows every update. *)
Theorem subscriber_keeps_first_ten_updates
    (t : JobTracker) (id : string) (job : JobStatus) (us : list JobUpdate) :
  trackerOk t -> jobs t !! id = Some job ->
  exists t',
    bind (Subscribe id) (fun _ => forEach (updateCallsOf id us) runCall) t
    = (Some tt, t')
    /\ chans t' !! nextChan t
       = Some (mkChan (take 10 (snapshots job us)) 10 false)
    /\ GetJob id t' = Some (default job (last (snapshots job us))).
Proof.
  intros Hok Hjob.
  pose proof (Subscribe_ok id t Hok) as (Ho1 & _ & _).
  rewrite (bind_Some _ _ _ _ _ (Subscribe_run id t)).
  rewrite Subscribe_run in Ho1. cbn [snd] in Ho1.
  edestruct (updates_chan id (nextChan t) us) as (t' & Hrun & _ & _ & _ & Hj & Hc);
    [exact Ho1| | | | |].
  - cbn [jobs]. exact Hjob.
  - eexists. cbn [subs]. rewrite lookup_insert_eq. split; [done|].
    apply elem_of_app. right. by left.
  - cbn [chans]. by rewrite lookup_insert_eq.
  - cbn. lia.
  - exists t'. split; [exact Hrun|]. split; [exact Hc|exact Hj].
Qed.

Lemma trackerOk_startedTracker : trackerOk Examples.startedTracker.
Proof.
  apply (CreateJob_ok 100 "job-1" "repo-1" 2 NewJobTracker). apply trackerOk_new.
Qed.

Lemma subscriber_keeps_first_ten_updates_witness :
  exists t',
    bind (Subscribe "job-1")
      (fun _ => forEach
         (updateCallsOf "job-1" [mkJobUpdate 110 "security" 0 "running"])
         runCall)
      Examples.startedTracker
    = (Some tt, t')
    /\ chans t' !! nextChan Examples.startedTracker
       = Some (mkChan
                 (take 10 (snapshots Examples.runningJob
                             [mkJobUpdate 110 "security" 0 "running"]))
                 10 false)
    /\ GetJob "job-1" t'
       = Some (default Examples.runningJob
                 (last (snapshots Examples.runningJob
                          [mkJobUpdate 110 "security" 0 "running"]))).
Proof.
  apply (subscriber_keeps_first_ten_updates Examples.startedTracker "job-1"
           Examples.runningJob [mkJobUpdate 110 "security" 0 "running"]).
  - exact trackerOk_startedTracker.
  - vm_compute. reflexivity.
Defined.

(** X3: [Subscribe] followed by [Unsubscribe] of the channel it returned
    leaves the jobs and the subscriber lists as they were (the job's list
    exists afterwards, possibly empty) and the channel closed; a second
    [Unsubscribe] of that channel panics, closing a closed channel. *)
Theorem Subscribe_Unsubscribe_round_trip (t : JobTracker) (id : string) :
  trackerOk t ->
  exists t',
    bind (Subscribe id) (Unsubscribe id) t = (Some tt, t')
    /\ jobs t' = jobs t
    /\ subs t' = <[id := default [] (subs t !! id)]> (subs t)
    /\ chans t' = <[nextChan t := mkChan [] 10 true]> (chans t)
    /\ trackerOk t'
    /\ (Unsubscribe id (nextChan t) t').1 = None.
Proof.
  intros Hok.
  assert (Hfresh : nextChan t ∉ default [] (subs t !! id)).
  { destruct Hok as (_ & _ & Hb). destruct (subs t !! id) as [ss|] eqn:E; simpl.
    - intros Hin. specialize (Hb _ _ _ E Hin). lia.
    - apply not_elem_of_nil. }
  pose proof (Subscribe_ok id t Hok) as Hok1.
  rewrite (bind_Some _ _ _ _ _ (Subscribe_run id t)).
  rewrite Subscribe_run in Hok1. cbn [snd] in Hok1.
  set (t1 := mkJobTracker _ _ _ _) in *.
  assert (Hl : listed id (nextChan t) t1).
  { eexists. unfold t1. cbn [subs]. rewrite lookup_insert_eq. split; [done|].
    apply elem_of_app. right. by left. }
  destruct (Unsubscribe_ok id (nextChan t) t1 Hok1 Hl) as [_ Hok2].
  destruct Hl as (ss & Hss & Hin).
  assert (Hc : chans t1 !! nextChan t = Some (mkChan [] 10 false)).
  { unfold t1. cbn [chans]. by rewrite lookup_insert_eq. }
  rewrite (Unsubscribe_run _ _ _ _ _ Hss Hin Hc eq_refl) in Hok2 |- *.
  cbn [snd] in Hok2.
  unfold t1 in Hss. cbn [subs] in Hss. rewrite lookup_insert_eq in Hss.
  injection Hss as <-. rewrite removeFirst_last in Hok2 |- * by done.
  eexists. split; [reflexivity|]. subst t1. cbn [jobs subs chans buf cap] in *.
  split; [done|]. split; [by rewrite insert_insert_eq|].
  split; [by rewrite insert_insert_eq|]. split; [exact Hok2|].
  unfold Unsubscribe, bind at 1, get at 1. cbn [subs chans].
  rewrite lookup_insert_eq. rewrite bool_decide_eq_false_2 by done.
  unfold bind, ret. cbn [chans]. by rewrite lookup_insert_eq.
Qed.

Lemma Subscribe_Unsubscribe_round_trip_witness :
  exists t',
    bind (Subscribe "job-1") (Unsubscribe "job-1") Examples.startedTracker
    = (Some tt, t')
    /\ jobs t' = jobs Examples.startedTracker
    /\ subs t'
       = <["job-1" := default [] (subs Examples.startedTracker !! "job-1")]>
           (subs Examples.startedTracker)
    /\ chans t'
       = <[nextChan Examples.startedTracker := mkChan [] 10 true]>
           (chans Examples.startedTracker)
    /\ trackerOk t'
    /\ (Unsubscribe "job-1" (nextChan Examples.startedTracker) t').1 = None.
Proof.
  apply (Subscribe_Unsubscribe_round_trip Examples.startedTracker "job-1").
  exact trackerOk_startedTracker.
Defined.

Lemma snapshots_app job us u :
  snapshots job (us ++ [u])
  = snapshots job us
    ++ [applyUpdate (uNow u) (uStrategy u) (uProgress u) (uStatus u)
          (default job (last (snapshots job us)))].
Proof.
  revert job. induction us as [|v us IH]; intros job; [done|].
  cbn [app snapshots]. rewrite IH. by rewrite default_last_cons.
Qed.

Lemma last_snapshots_app job us u :
  default job (last (snapshots job (us ++ [u])))
  = applyUpdate (uNow u) (uStrategy u) (uProgress u) (uStatus u)
      (default job (last (snapshots job us))).
Proof. rewrite snapshots_app. by rewrite last_snoc. Qed.

Lemma throughTerminal_first read u rest :
  Forall (fun j => isTerminal (Status j) = false) read ->
  isTerminal (Status u) = true ->
  throughTerminal (read ++ u :: rest) = read ++ [u].
Proof.
  induction 1 as [|j read Hj _ IH]; intros Hu; simpl.
  - by rewrite Hu.
  - rewrite Hj. by rewrite IH.
Qed.

Lemma throughTerminal_settled l r :
  Exists (fun j => isTerminal (Status j) = true) l ->
  throughTerminal (l ++ r) = throughTerminal l.
Proof.
  induction 1 as [j l Hj|j l _ IH]; simpl.
  - by rewrite Hj.
  - destruct (isTerminal (Status j)); [done|]. by rewrite IH.
Qed.

(** Taking a value from, or adding one to, an open channel keeps the
    bookkeeping in order. *)
Lemma trackerOk_buffer t ch c b :
  trackerOk t -> chans t !! ch = Some c ->
  trackerOk (mkJobTracker (jobs t) (subs t)
               (<[ch := mkChan b (cap c) (closed c)]> (chans t)) (nextChan t)).
Proof.
  intros (Ho & Hd & Hb) Hc. split; [|split; [exact Hd|exact Hb]].
  intros id ss Hss. cbn [subs chans] in *.
  destruct (Ho _ _ Hss) as [Hnd Hop]. split; [done|].
  intros x Hx. destruct (decide (x = ch)) as [->|Hne].
  - rewrite lookup_insert_eq. destruct (Hop ch Hx) as (c' & Hc' & Hcl).
    rewrite Hc in Hc'. injection Hc' as <-. eauto.
  - rewrite lookup_insert_ne by done. by apply Hop.
Qed.

Lemma terminal_test st :
  (String.eqb st "complete" || String.eqb st "error") = isTerminal st.
Proof. reflexivity. Qed.

(** One tick of the schedule keeps the writer and the tracker in step. *)
Lemma tick_serving marshal id ch job us unread t s k :
  serving marshal id ch job us unread t s ->
  roomy unread [k] ->
  exists s' t',
    tick marshal id ch k s t = (Some s', t')
    /\ serving marshal id ch job (us ++ published [k])
         (match k with
          | Publish _ => S unread
          | Pass => pred unread
          | TimerFires => unread
          end) t' s'.
Proof.
  intros (Hok & Hjob & Hs) Hroom.
  destruct k as [u| |]; [| |by destruct Hroom].
  - (* an update is published *)
    destruct Hroom as [Hlt _]. cbn [tick].
    change (published [Publish u]) with [u].
    pose proof Hok as (Ho & _).
    pose proof (UpdateJob_ok (uNow u) id (uStrategy u) (uProgress u) (uStatus u) t Hok)
      as [_ Hok'].
    rewrite (UpdateJob_held _ _ _ _ _ _ _ Ho Hjob) in Hok'. cbn [snd] in Hok'.
    rewrite (bind_Some _ _ _ _ _ (UpdateJob_held _ _ _ _ _ _ _ Ho Hjob)).
    eexists _, _. split; [reflexivity|].
    split; [exact Hok'|]. split.
    { cbn [updated jobs]. rewrite lookup_insert_eq. by rewrite last_snapshots_app. }
    destruct (live s).
    + destruct Hs as (Hl & b & read & Hc & Hlen & Happ & Hread & Hw).
      split; [exact Hl|]. destruct Hl as (ss & Hss & Hin).
      exists (b ++ [applyUpdate (uNow u) (uStrategy u) (uProgress u) (uStatus u)
                      (default job (last (snapshots job us)))]), read.
      split; [|split; [|split; [|split]]].
      * cbn [updated chans]. rewrite Hss. cbn [default].
        rewrite sendAll_in; [|by apply (Ho id ss)|done]. rewrite Hc. cbn [fmap option_fmap option_map].
        f_equal. unfold afterSend. cbn [buf cap closed].
        destruct (Nat.ltb_spec (length b) 10); [done|lia].
      * rewrite length_app. simpl. lia.
      * by rewrite snapshots_app, app_assoc, Happ.
      * exact Hread.
      * exact Hw.
    + destruct Hs as [Hex Hw]. rewrite snapshots_app. split.
      * apply Exists_app. by left.
      * by rewrite throughTerminal_settled.
  - (* the writer makes a pass *)
    cbn [tick]. change (published [Pass]) with (@nil JobUpdate). rewrite app_nil_r.
    destruct (live s) eqn:Hlive; [|eexists _, _; split; [reflexivity|];
      split; [done|]; split; [done|]; by rewrite Hlive].
    destruct Hs as (Hl & b & read & Hc & Hlen & Happ & Hread & Hw).
    unfold writerStep, receive.
    unfold bind at 1, bind at 1, bind at 1, get at 1. rewrite Hc. cbn [buf cap closed].
    destruct b as [|u b].
    + (* nothing is ready *)
      unfold ret. eexists _, _. split; [reflexivity|].
      split; [done|]. split; [done|]. rewrite Hlive. split; [done|].
      exists [], read. subst unread. by repeat split.
    + unfold bind at 1, modify at 1, ret at 1.
      set (t1 := mkJobTracker _ _ _ _).
      assert (Hok1 : trackerOk t1) by exact (trackerOk_buffer t ch _ b Hok Hc).
      rewrite terminal_test.
      destruct (isTerminal (Status u)) eqn:Hterm.
      * (* the update is terminal: the writer returns *)
        assert (Hl1 : listed id ch t1) by exact Hl.
        destruct (Unsubscribe_ok id ch t1 Hok1 Hl1) as [Hr Hok2].
        destruct (Unsubscribe id ch t1) as [r t2] eqn:E. cbn [fst snd] in *. subst r.
        assert (Hjobs : jobs t2 = jobs t).
        { destruct Hl1 as (ss & Hss & Hin).
          destruct Hok1 as (Ho1 & _). destruct (Ho1 _ _ Hss) as [_ Hop].
          destruct (Hop ch Hin) as (c1 & Hc1 & Hcl).
          rewrite (Unsubscribe_run _ _ _ _ _ Hss Hin Hc1 Hcl) in E.
          injection E as <-. reflexivity. }
        unfold bind, ret. rewrite E. eexists _, _. split; [reflexivity|].
        split; [exact Hok2|]. split; [by rewrite Hjobs|]. cbn [live written].
        rewrite <- Happ. split.
        -- apply Exists_app. right. by left.
        -- rewrite (throughTerminal_first _ _ _ Hread Hterm).
           rewrite Hw, map_app. reflexivity.
      * (* the writer goes on *)
        unfold ret. eexists _, _. split; [reflexivity|].
        split; [exact Hok1|]. split; [exact Hjob|]. cbn [live written].
        split; [exact Hl|]. exists b, (read ++ [u]).
        split; [unfold t1; cbn [chans]; by rewrite lookup_insert_eq|].
        split; [subst unread; reflexivity|].
        split; [by rewrite <- app_assoc|].
        split; [apply Forall_app; split; [done|by constructor]|].
        rewrite Hw, map_app. reflexivity.
Qed.

Lemma published_cons k ks : published (k :: ks) = published [k] ++ published ks.
Proof. unfold published. cbn [omap]. by destruct k. Qed.

Lemma schedule_serving marshal id ch job : forall ks us unread t s,
  serving marshal id ch job us unread t s ->
  roomy unread ks ->
  exists s' t' unread',
    schedule marshal id ch ks s t = (Some s', t')
    /\ serving marshal id ch job (us ++ published ks) unread' t' s'.
Proof.
  induction ks as [|k ks IH]; intros us unread t s Hs Hroom.
  - exists s, t, unread. split; [done|]. cbn. by rewrite app_nil_r.
  - assert (Hk : roomy unread [k]).
    { destruct k; cbn in *; [by destruct Hroom|done|done]. }
    destruct (tick_serving _ _ _ _ _ _ _ _ _ Hs Hk) as (s1 & t1 & Hrun & Hs1).
    edestruct (IH _ _ t1 s1 Hs1) as (s' & t' & unread' & Hrest & Hs').
    { destruct k; cbn in *; [by destruct Hroom|done|done]. }
    exists s', t', unread'. cbn [schedule].
    rewrite (bind_Some _ _ _ _ _ Hrun). split; [exact Hrest|].
    by rewrite published_cons, app_assoc.
Qed.

(** X4: when the calls on the tracker do not overlap (the handler's
    [GetJob] and [Subscribe] run before the first update, and every
    [UpdateJob] call and every pass of the writer runs to its end before
    the next begins), a stream on a running job, its writer scheduled
    against the job's updates in any order in which the timer does not
    fire and at most ten updates wait unread, never panics and drops no
    snapshot: what the writer has written, followed by the frames of what
    its channel still holds, is the first frame and then one frame per
    snapshot published, in order; once it has returned, it has written
    exactly the frames through the first terminal snapshot. *)
Theorem stream_writes_every_update_in_order
    (marshal : JobStatus -> string) (t : JobTracker) (id : string)
    (job : JobStatus) (ks : list Tick) :
  trackerOk t -> jobs t !! id = Some job ->
  isTerminal (Status job) = false -> roomy 0 ks ->
  exists s t',
    serve marshal id ks t = (Some s, t')
    /\ trackerOk t'
    /\ if live s
       then exists c,
              chans t' !! nextChan t = Some c
              /\ written s ++ map (updateFrame marshal) (buf c)
                 = firstFrame marshal job
                   :: map (updateFrame marshal) (snapshots job (published ks))
       else written s
            = firstFrame marshal job
              :: map (updateFrame marshal)
                   (throughTerminal (snapshots job (published ks))).
Proof.
  intros Hok Hjob Hrun Hroom.
  unfold serve, StreamSSE, bind at 1, bind at 1, get at 1.
  unfold GetJob. rewrite Hjob. rewrite terminal_test, Hrun.
  rewrite (bind_Some _ _ _ _ _ (Subscribe_run id t)). unfold ret at 1.
  pose proof (Subscribe_ok id t Hok) as Hok1.
  rewrite Subscribe_run in Hok1. cbn [snd] in Hok1.
  set (t1 := mkJobTracker _ _ _ _) in *.
  assert (Hs : serving marshal id (nextChan t) job [] 0 t1
                 (mkWriter true [firstFrame marshal job])).
  { split; [exact Hok1|]. split; [exact Hjob|]. cbn [live written]. split.
    - eexists. unfold t1. cbn [subs]. rewrite lookup_insert_eq. split; [done|].
      apply elem_of_app. right. by left.
    - exists [], []. unfold t1. cbn [chans]. rewrite lookup_insert_eq.
      by repeat split. }
  destruct (schedule_serving _ _ _ _ ks _ _ _ _ Hs Hroom)
    as (s' & t' & unread' & Hsched & Hok' & _ & Hs').
  exists s', t'. split; [exact Hsched|]. split; [exact Hok'|].
  cbn [app] in Hs'. destruct (live s').
  - destruct Hs' as (_ & b & read & Hc & _ & Happ & _ & Hw).
    eexists. split; [exact Hc|]. cbn [buf]. by rewrite Hw, <- Happ, map_app.
  - by destruct Hs' as [_ Hw].
Qed.

Lemma stream_writes_every_update_in_order_witness :
  exists s t',
    serve Status "job-1"
      [Publish (mkJobUpdate 110 "security" 0 "running"); Pass;
       Publish (mkJobUpdate 120 EmptyString 2 "complete"); Pass]
      Examples.startedTracker = (Some s, t')
    /\ trackerOk t'
    /\ if live s
       then exists c,
              chans t' !! nextChan Examples.startedTracker = Some c
              /\ written s ++ map (updateFrame Status) (buf c)
                 = firstFrame Status Examples.runningJob
                   :: map (updateFrame Status)
                        (snapshots Examples.runningJob
                           (published
                              [Publish (mkJobUpdate 110 "security" 0 "running"); Pass;
                               Publish (mkJobUpdate 120 EmptyString 2 "complete");
                               Pass]))
       else written s
            = firstFrame Status Examples.runningJob
              :: map (updateFrame Status)
                   (throughTerminal
                      (snapshots Examples.runningJob
                         (published
                            [Publish (mkJobUpdate 110 "security" 0 "running"); Pass;
                             Publish (mkJobUpdate 120 EmptyString 2 "complete");
                             Pass]))).
Proof.
  apply (stream_writes_every_update_in_order Status Examples.startedTracker "job-1"
           Examples.runningJob
           [Publish (mkJobUpdate 110 "security" 0 "running"); Pass;
            Publish (mkJobUpdate 120 EmptyString 2 "complete"); Pass]).
  - exact trackerOk_startedTracker.
  - vm_compute. reflexivity.
  - vm_compute. reflexivity.
  - simpl. repeat split; lia.
Defined.

(** [UpdateJob] is its locked step followed by its sends, and [StreamSSE]
    is its [GetJob] followed by the rest. *)
Lemma UpdateJob_steps now id strategy progress status t :
  UpdateJob now id strategy progress status t
  = bind (lockedUpdate now id strategy progress status) notifySubscribers t.
Proof.
  unfold UpdateJob, lockedUpdate, notifySubscribers, bind, get, modify, ret.
  by destruct (jobs t !! id).
Qed.

Lemma StreamSSE_steps marshal id t :
  StreamSSE marshal id t
  = match GetJob id t with
    | None => (Some NotFound, t)
    | Some job => streamFrom marshal id job t
    end.
Proof.
  unfold StreamSSE, streamFrom, bind, get, ret.
  by destruct (GetJob id t).
Qed.

(** Sends that come to a closed channel after open ones panic. *)
Lemma sends_reach_closed_channel snapshot ch : forall ss t,
  (forall x, x ∈ ss -> exists c, chans t !! x = Some c /\ closed c = false) ->
  (exists c, chans t !! ch = Some c /\ closed c = true) ->
  (forEach (ss ++ [ch]) (trySend snapshot) t).1 = None.
Proof.
  induction ss as [|x ss IH]; intros t Hopen (c & Hc & Hcl).
  - cbn [app forEach]. unfold bind, trySend, bind, get. by rewrite Hc, Hcl.
  - destruct (Hopen x) as (cx & Hx & Hxo); [by left|].
    assert (Hne : x <> ch) by (intros ->; congruence).
    cbn [app forEach]. unfold bind at 1, trySend at 1, bind at 1, get at 1.
    rewrite Hx, Hxo.
    destruct (length (buf cx) <? cap cx)%nat.
    + unfold modify at 1. apply IH.
      * intros y Hy. cbn [chans].
        destruct (decide (y = x)) as [->|Hyx].
        -- rewrite lookup_insert_eq. eauto.
        -- rewrite lookup_insert_ne by done. apply Hopen. by right.
      * exists c. cbn [chans]. by rewrite lookup_insert_ne.
    + unfold ret at 1. apply IH; [|eauto].
      intros y Hy. apply Hopen. by right.
Qed.

(** X29: [UpdateJob] releases the mutex before it sends.  When the stream
    of the last channel of the subscriber slice returns in between (its
    timer fired, say) and its deferred [Unsubscribe] closes the channel,
    the sends of the update panic: a send on a closed channel, in
    the goroutine of the job. *)
Theorem Unsubscribe_between_unlock_and_sends_panics
    (now : Z) (id strategy : string) (progress : Z) (status : string)
    (t : JobTracker) (job : JobStatus) (ss : list nat) (ch : nat) :
  trackerOk t -> jobs t !! id = Some job -> subs t !! id = Some (ss ++ [ch]) ->
  UpdateJob now id strategy progress status t
  = bind (lockedUpdate now id strategy progress status) notifySubscribers t
  /\ exists t1 t2,
       lockedUpdate now id strategy progress status t
       = (Some (Some (applyUpdate now strategy progress status job, ss ++ [ch])),
          t1)
       /\ Unsubscribe id ch t1 = (Some tt, t2)
       /\ (notifySubscribers
             (Some (applyUpdate now strategy progress status job, ss ++ [ch]))
             t2).1 = None.
Proof.
  intros (Ho & _ & _) Hjob Hss. split; [apply UpdateJob_steps|].
  destruct (Ho _ _ Hss) as [Hnd Hop].
  assert (Hin : ch ∈ ss ++ [ch]) by (apply elem_of_app; right; by left).
  destruct (Hop ch Hin) as (c & Hc & Hcl).
  eexists _, _. split.
  { unfold lockedUpdate, bind, get, modify, ret. rewrite Hjob, Hss. reflexivity. }
  split.
  { by apply (Unsubscribe_run _ _ _ (ss ++ [ch]) c). }
  cbn [notifySubscribers]. apply sends_reach_closed_channel.
  - intros x Hx. cbn [chans].
    assert (x <> ch).
    { intros ->. apply NoDup_app in Hnd as (_ & Hdis & _).
      apply (Hdis ch Hx). by left. }
    rewrite lookup_insert_ne by done.
    apply Hop. apply elem_of_app. by left.
  - eexists. cbn [chans]. by rewrite lookup_insert_eq.
Qed.

Lemma trackerOk_watchedTracker : trackerOk Examples.watchedTracker.
Proof. exact (Subscribe_ok "job-1" _ trackerOk_startedTracker). Qed.

Lemma Unsubscribe_between_unlock_and_sends_panics_witness :
  UpdateJob 110 "job-1" "security" 0 "running" Examples.watchedTracker
  = bind (lockedUpdate 110 "job-1" "security" 0 "running") notifySubscribers
      Examples.watchedTracker
  /\ exists t1 t2,
       lockedUpdate 110 "job-1" "security" 0 "running" Examples.watchedTracker
       = (Some (Some (applyUpdate 110 "security" 0 "running" Examples.runningJob,
                      [] ++ [0%nat])),
          t1)
       /\ Unsubscribe "job-1" 0 t1 = (Some tt, t2)
       /\ (notifySubscribers
             (Some (applyUpdate 110 "security" 0 "running" Examples.runningJob,
                    [] ++ [0%nat]))
             t2).1 = None.
Proof.
  apply (Unsubscribe_between_unlock_and_sends_panics 110 "job-1" "security" 0
           "running" Examples.watchedTracker Examples.runningJob [] 0%nat).
  - exact trackerOk_watchedTracker.
  - vm_compute. reflexivity.
  - vm_compute. reflexivity.
Defined.

(** Passes of the writer on an empty open channel wait. *)
Lemma passes_wait marshal id ch t s rest n :
  (exists k, chans t !! ch = Some (mkChan [] k false)) -> live s = true ->
  schedule marshal id ch (replicate n Pass ++ rest) s t
  = schedule marshal id ch rest s t.
Proof.
  intros [k Hc] Hlive. induction n as [|n IH]; [done|].
  cbn [replicate app schedule]. unfold bind at 1, tick. rewrite Hlive.
  unfold bind at 1, writerStep, bind at 1, receive, bind at 1, get at 1.
  rewrite Hc. cbn. exact IH.
Qed.

(** X30: [StreamSSE] reads the job and subscribes under two separate
    holds of the mutex.  An update that lands in between is never
    streamed: the stream opens with the job as it was read, its channel
    stays empty however often the writer looks, and with no later update
    the writer ends at its timer having written the first frame only,
    while the tracker holds the updated job (a complete one, when the
    update was the completing one). *)
Theorem update_between_GetJob_and_Subscribe_is_not_streamed
    (marshal : JobStatus -> string) (now : Z) (id strategy : string)
    (progress : Z) (status : string) (t : JobTracker) (job : JobStatus)
    (n : nat) :
  trackerOk t -> jobs t !! id = Some job -> isTerminal (Status job) = false ->
  StreamSSE marshal id t = streamFrom marshal id job t
  /\ exists t1 t2 t3,
       UpdateJob now id strategy progress status t = (Some tt, t1)
       /\ GetJob id t1 = Some (applyUpdate now strategy progress status job)
       /\ streamFrom marshal id job t1 = (Some (Streaming (nextChan t) job), t2)
       /\ schedule marshal id (nextChan t) (replicate n Pass)
            (mkWriter true [firstFrame marshal job]) t2
          = (Some (mkWriter true [firstFrame marshal job]), t2)
       /\ schedule marshal id (nextChan t) (replicate n Pass ++ [TimerFires])
            (mkWriter true [firstFrame marshal job]) t2
          = (Some (mkWriter false [firstFrame marshal job]), t3)
       /\ GetJob id t3 = Some (applyUpdate now strategy progress status job).
Proof.
  intros Hok Hjob Hrun. pose proof Hok as (Ho & _ & _). split.
  { rewrite StreamSSE_steps. unfold GetJob. by rewrite Hjob. }
  eexists _, _, _.
  split; [by apply UpdateJob_held|].
  split; [unfold GetJob; cbn [jobs updated]; by rewrite lookup_insert_eq|].
  split.
  { unfold streamFrom. rewrite terminal_test, Hrun.
    rewrite (bind_Some _ _ _ _ _ (Subscribe_run id _)). reflexivity. }
  set (t2 := mkJobTracker _ _ _ _).
  assert (Hc : chans t2 !! nextChan t = Some (mkChan [] 10 false)).
  { unfold t2. cbn [chans updated nextChan]. by rewrite lookup_insert_eq. }
  split.
  { rewrite <- (app_nil_r (replicate n Pass)).
    rewrite passes_wait; [done|eauto|done]. }
  split.
  { rewrite passes_wait; [|eauto|done].
    cbn [schedule]. unfold bind at 1, tick. cbn [live].
    unfold writerTimeout, bind at 1.
    rewrite (Unsubscribe_run id (nextChan t) t2
               (default [] (subs t !! id) ++ [nextChan t]) (mkChan [] 10 false)).
    - reflexivity.
    - unfold t2. cbn [subs updated]. by rewrite lookup_insert_eq.
    - apply elem_of_app. right. by left.
    - exact Hc.
    - reflexivity. }
  unfold GetJob. cbn [jobs updated]. by rewrite lookup_insert_eq.
Qed.

Lemma update_between_GetJob_and_Subscribe_is_not_streamed_witness :
  StreamSSE Status "job-1" Examples.startedTracker
  = streamFrom Status "job-1" Examples.runningJob Examples.startedTracker
  /\ exists t1 t2 t3,
       UpdateJob 120 "job-1" EmptyString 2 "complete" Examples.startedTracker
       = (Some tt, t1)
       /\ GetJob "job-1" t1
          = Some (applyUpdate 120 EmptyString 2 "complete" Examples.runningJob)
       /\ streamFrom Status "job-1" Examples.runningJob t1
          = (Some (Streaming (nextChan Examples.startedTracker)
                     Examples.runningJob), t2)
       /\ schedule Status "job-1" (nextChan Examples.startedTracker)
            (replicate 3 Pass)
            (mkWriter true [firstFrame Status Examples.runningJob]) t2
          = (Some (mkWriter true [firstFrame Status Examples.runningJob]), t2)
       /\ schedule Status "job-1" (nextChan Examples.startedTracker)
            (replicate 3 Pass ++ [TimerFires])
            (mkWriter true [firstFrame Status Examples.runningJob]) t2
          = (Some (mkWriter false [firstFrame Status Examples.runningJob]), t3)
       /\ GetJob "job-1" t3
          = Some (applyUpdate 120 EmptyString 2 "complete" Examples.runningJob).
Proof.
  apply (update_between_GetJob_and_Subscribe_is_not_streamed Status 120 "job-1"
           EmptyString 2 "complete" Examples.startedTracker Examples.runningJob 3).
  - exact trackerOk_startedTracker.
  - vm_compute. reflexivity.
  - reflexivity.
Defined.

End JobsHandlerTheory.

Module StreamTheory.
Import GoStrings Go Orchestrator GoTheory JobsTheory OrchestratorTheory.
Import JobsHandlerTheory.

Lemma updated_chan now id s p st job t ch c :
  Jobs.subsOpen t -> JobsHandler.listed id ch t ->
  Jobs.chans t !! ch = Some c -> (length (Jobs.buf c) <= Jobs.cap c)%nat ->
  Jobs.chans (Jobs.updated now id s p st job t) !! ch
  = Some (Jobs.mkChan
            (take (Jobs.cap c) (Jobs.buf c ++ [Jobs.applyUpdate now s p st job]))
            (Jobs.cap c) (Jobs.closed c)).
Proof.
  intros Ho (ss & Hss & Hin) Hc Hle. cbn [Jobs.updated Jobs.chans].
  rewrite Hss. cbn [default].
  rewrite sendAll_in; [|by apply (Ho id ss)|done]. rewrite Hc.
  cbn [fmap option_fmap option_map]. by rewrite afterSend_take.
Qed.

Lemma jobHistory_strategyEvents env jobID repoID req lang i s tr job :
  exists j1,
    jobHistory (strategyEvents env jobID repoID req lang i s tr job).1
    = [j1; (strategyEvents env jobID repoID req lang i s tr job).2]
    /\ j1 = Jobs.applyUpdate (clock env (length tr)) s (Z.of_nat i) "running" job.
Proof.
  unfold strategyEvents. cbv zeta. cbn [fst snd].
  set (j1 := Jobs.applyUpdate _ s (Z.of_nat i) "running" job).
  set (u1 := EvUpdateJob jobID s (Z.of_nat i) "running" (Some j1)).
  destruct (mid_no_updates s _ (midEvents_mid env repoID req lang s (tr ++ [u1])))
    as [_ Hh].
  exists j1. split; [|done].
  change (u1 :: ?m ++ ?l) with ([u1] ++ m ++ l).
  by rewrite !jobHistory_app, Hh.
Qed.

(** The channel of a subscriber after the strategy loop. *)
Lemma loopTracker_chan env jobID repoID req lang ch : forall strategies i tr job t c,
  Jobs.subsOpen t -> JobsHandler.listed jobID ch t ->
  Jobs.chans t !! ch = Some c -> (length (Jobs.buf c) <= Jobs.cap c)%nat ->
  Jobs.subsOpen (loopTracker env jobID repoID req lang i strategies tr job t)
  /\ JobsHandler.listed jobID ch
       (loopTracker env jobID repoID req lang i strategies tr job t)
  /\ Jobs.chans (loopTracker env jobID repoID req lang i strategies tr job t) !! ch
     = Some (Jobs.mkChan
               (take (Jobs.cap c)
                  (Jobs.buf c
                   ++ jobHistory
                        (loopEvents env jobID repoID req lang i strategies tr job).1))
               (Jobs.cap c) (Jobs.closed c)).
Proof.
  induction strategies as [|s rest IH]; intros i tr job t c Ho Hl Hc Hle.
  - cbn [loopTracker loopEvents fst]. split; [done|]. split; [done|].
    change (jobHistory []) with (@nil Jobs.JobStatus).
    rewrite app_nil_r, take_ge by lia. rewrite Hc. by destruct c.
  - rewrite loopEvents_cons. cbn [loopTracker fst].
    destruct (jobHistory_strategyEvents env jobID repoID req lang i s tr job)
      as (j1 & Hh & Hj1).
    rewrite jobHistory_app, Hh.
    destruct (strategyEvents env jobID repoID req lang i s tr job) as [e1 j2] eqn:E.
    cbn [fst snd] in *.
    assert (Hj2 : j2 = Jobs.applyUpdate
                         (clock env (length (tr ++ EvUpdateJob jobID s (Z.of_nat i)
                                                     "running" (Some j1)
                                               :: midEvents env repoID req lang s
                                                    (tr ++ [EvUpdateJob jobID s
                                                              (Z.of_nat i) "running"
                                                              (Some j1)]))))
                         s (Z.of_nat i + 1) "running" j1).
    { unfold strategyEvents in E. cbv zeta in E. injection E as _ <-. by subst j1. }
    set (t1 := Jobs.updated (clock env (length tr)) jobID s (Z.of_nat i) "running"
                 job t).
    assert (Ho1 : Jobs.subsOpen t1) by (by apply updated_subsOpen).
    assert (Hl1 : JobsHandler.listed jobID ch t1) by exact Hl.
    pose proof (updated_chan (clock env (length tr)) jobID s (Z.of_nat i) "running"
                  job t ch c Ho Hl Hc Hle) as Hc1.
    fold t1 in Hc1. rewrite <- Hj1 in Hc1.
    set (t2 := strategyTracker env jobID repoID req lang i s tr job t).
    assert (Ho2 : Jobs.subsOpen t2) by (by apply updated_subsOpen).
    assert (Hl2 : JobsHandler.listed jobID ch t2) by exact Hl.
    assert (Hc2 : Jobs.chans t2 !! ch
                  = Some (Jobs.mkChan
                            (take (Jobs.cap c) (Jobs.buf c ++ [j1; j2]))
                            (Jobs.cap c) (Jobs.closed c))).
    { unfold t2, strategyTracker. cbv zeta. fold t1. rewrite <- Hj1.
      rewrite (updated_chan _ _ _ _ _ _ t1 ch _ Ho1 Hl1 Hc1)
        by (cbn; rewrite length_take; lia).
      cbn [Jobs.buf Jobs.cap Jobs.closed]. rewrite <- Hj2.
      by rewrite take_take_app, <- app_assoc. }
    destruct (IH (S i) (tr ++ e1) j2 t2 _ Ho2 Hl2 Hc2) as (Ho' & Hl' & Hc').
    { cbn. rewrite length_take. lia. }
    split; [exact Ho'|]. split; [exact Hl'|]. rewrite Hc'.
    cbn [Jobs.buf Jobs.cap Jobs.closed].
    rewrite take_take_app, <- app_assoc. reflexivity.
Qed.

Lemma jobHistory_jobEvents env jobID repoID req lang strategies tr job :
  jobHistory (jobEvents env jobID repoID req lang strategies tr job).1
  = jobHistory (loopEvents env jobID repoID req lang 0 strategies tr job).1
    ++ [(jobEvents env jobID repoID req lang strategies tr job).2].
Proof.
  unfold jobEvents.
  destruct (loopEvents env jobID repoID req lang 0 strategies tr job) as [evs j].
  cbn [fst snd]. by rewrite jobHistory_app.
Qed.

(** The channel of a subscriber after the whole job. *)
Lemma jobTracker_chan env jobID repoID req lang ch strategies tr job t c :
  Jobs.subsOpen t -> JobsHandler.listed jobID ch t ->
  Jobs.chans t !! ch = Some c -> (length (Jobs.buf c) <= Jobs.cap c)%nat ->
  Jobs.chans (jobTracker env jobID repoID req lang strategies tr job t) !! ch
  = Some (Jobs.mkChan
            (take (Jobs.cap c)
               (Jobs.buf c
                ++ jobHistory (jobEvents env jobID repoID req lang strategies tr job).1))
            (Jobs.cap c) (Jobs.closed c)).
Proof.
  intros Ho Hl Hc Hle. rewrite jobHistory_jobEvents.
  destruct (loopTracker_chan env jobID repoID req lang ch strategies 0 tr job t c
              Ho Hl Hc Hle) as (Ho1 & Hl1 & Hc1).
  unfold jobTracker, jobEvents.
  destruct (loopEvents env jobID repoID req lang 0 strategies tr job) as [evs j].
  cbn [fst snd] in *.
  rewrite (updated_chan _ _ _ _ _ _ _ ch _ Ho1 Hl1 Hc1)
    by (cbn; rewrite length_take; lia).
  cbn [Jobs.buf Jobs.cap Jobs.closed].
  by rewrite take_take_app, <- app_assoc.
Qed.

Lemma expectedCalls_length : forall strategies i,
  length (expectedCalls i strategies) = (2 * length strategies)%nat.
Proof.
  induction strategies as [|s rest IH]; intros i; simpl; [done|].
  rewrite IH. lia.
Qed.

(** X5: when a stream is opened on a running job and its writer makes no
    pass while the background job runs, the stream's channel ends up with
    the first ten snapshots of the job's 2n+1 updates.  With at most four
    strategies that is all of them, the last one complete; with five or
    more, every snapshot kept is a running one, and the complete one was
    dropped. *)
Theorem unserved_stream_keeps_first_ten
    (env : Env) (marshal : Jobs.JobStatus -> string)
    (jobID repoID : string) (req : AnalysisRequest) (strategies : list string)
    (lang : string) (w : World) (job : Jobs.JobStatus) :
  JobsHandler.trackerOk (tracker w) ->
  Jobs.jobs (tracker w) !! jobID = Some job ->
  Jobs.isTerminal (Jobs.Status job) = false ->
  exists w' evs,
    bind (onTracker (JobsHandler.StreamSSE marshal jobID))
      (fun _ => runAnalysisJob env jobID repoID req strategies lang) w
    = (Some tt, w')
    /\ trace w' = trace w ++ evs
    /\ length (jobHistory evs) = (2 * length strategies + 1)%nat
    /\ Jobs.chans (tracker w') !! Jobs.nextChan (tracker w)
       = Some (Jobs.mkChan (take 10 (jobHistory evs)) 10 false)
    /\ ((length strategies <= 4)%nat ->
        take 10 (jobHistory evs) = jobHistory evs
        /\ exists final,
             last (jobHistory evs) = Some final
             /\ Jobs.Status final = "complete")
    /\ ((5 <= length strategies)%nat ->
        Forall (fun j => Jobs.Status j = "running") (take 10 (jobHistory evs))).
Proof.
  intros Hok Hjob Hrun.
  pose proof (Subscribe_ok jobID (tracker w) Hok) as Hok1.
  rewrite Subscribe_run in Hok1. cbn [snd] in Hok1.
  assert (Hopen : bind (onTracker (JobsHandler.StreamSSE marshal jobID))
            (fun _ => runAnalysisJob env jobID repoID req strategies lang) w
          = runAnalysisJob env jobID repoID req strategies lang
              (mkWorld (Jobs.Subscribe jobID (tracker w)).2 (results w) (trace w))).
  { unfold bind at 1, onTracker, JobsHandler.StreamSSE.
    unfold bind at 1, get at 1. unfold Jobs.GetJob. rewrite Hjob.
    rewrite terminal_test, Hrun.
    rewrite (bind_Some _ _ _ _ _ (Subscribe_run jobID (tracker w))).
    reflexivity. }
  rewrite Hopen. rewrite Subscribe_run. cbn [snd].
  set (t1 := Jobs.mkJobTracker _ _ _ _) in *.
  set (w1 := mkWorld t1 (results w) (trace w)).
  assert (Hready : Ready jobID w1 job).
  { split; [by destruct Hok1|exact Hjob]. }
  destruct (runAnalysisJob_exact env jobID repoID req strategies lang w1 job Hready)
    as [Hjobrun _].
  rewrite Hjobrun. cbn [trace tracker results w1].
  eexists _, _. split; [reflexivity|]. cbn [trace tracker].
  split; [reflexivity|].
  destruct (jobEvents_updates env jobID repoID req lang strategies (trace w) job)
    as (_ & Hsum & _ & Hfin & _ & Hlast).
  set (h := jobHistory (jobEvents env jobID repoID req lang strategies (trace w) job).1)
    in *.
  assert (Hlen : length h = (2 * length strategies + 1)%nat).
  { rewrite <- (length_map summaryOf), Hsum, length_app, expectedCalls_length.
    simpl. lia. }
  split; [exact Hlen|]. split; [|split].
  - rewrite (jobTracker_chan env jobID repoID req lang (Jobs.nextChan (tracker w))
               strategies (trace w) job t1 (Jobs.mkChan [] 10 false)).
    + reflexivity.
    + by destruct Hok1.
    + eexists. unfold t1. cbn [Jobs.subs]. rewrite lookup_insert_eq.
      split; [done|]. apply elem_of_app. right. by left.
    + unfold t1. cbn [Jobs.chans]. by rewrite lookup_insert_eq.
    + cbn. lia.
  - intros Hn. split; [apply take_ge; lia|].
    eexists. split; [exact Hlast|].
    unfold summaryOf in Hfin. by injection Hfin.
  - intros Hn. unfold h. rewrite jobHistory_jobEvents.
    destruct (loopEvents_updates env jobID repoID req lang strategies 0 (trace w) job)
      as (_ & Hs & _).
    assert (Hl : length (jobHistory
                           (loopEvents env jobID repoID req lang 0 strategies
                              (trace w) job).1) = (2 * length strategies)%nat).
    { by rewrite <- (length_map summaryOf), Hs, expectedCalls_length. }
    rewrite take_app_le by lia.
    apply Forall_take, Forall_Status_summary. rewrite Hs.
    apply expectedCalls_running.
Qed.

Lemma unserved_stream_keeps_first_ten_witness :
  exists w' evs,
    bind (onTracker (JobsHandler.StreamSSE Jobs.Status "job-1"))
      (fun _ => runAnalysisJob Examples.flakyEnv "job-1" "repo-1" Examples.request
                  ["security"] EmptyString)
      (mkWorld Examples.startedTracker [] [])
    = (Some tt, w')
    /\ trace w' = trace (mkWorld Examples.startedTracker [] []) ++ evs
    /\ length (jobHistory evs) = (2 * length ["security"] + 1)%nat
    /\ Jobs.chans (tracker w')
         !! Jobs.nextChan (tracker (mkWorld Examples.startedTracker [] []))
       = Some (Jobs.mkChan (take 10 (jobHistory evs)) 10 false)
    /\ ((length ["security"] <= 4)%nat ->
        take 10 (jobHistory evs) = jobHistory evs
        /\ exists final,
             last (jobHistory evs) = Some final
             /\ Jobs.Status final = "complete")
    /\ ((5 <= length ["security"])%nat ->
        Forall (fun j => Jobs.Status j = "running") (take 10 (jobHistory evs))).
Proof.
  apply (unserved_stream_keeps_first_ten Examples.flakyEnv Jobs.Status "job-1"
           "repo-1" Examples.request ["security"] EmptyString
           (mkWorld Examples.startedTracker [] []) Examples.runningJob).
  - exact trackerOk_startedTracker.
  - vm_compute. reflexivity.
  - vm_compute. reflexivity.
Defined.

End StreamTheory.

Module ChunkBudgetTheory.
Import GoStrings Chunker ChunkBudget ChunkerTheory.

Lemma wordCount_nonneg l : 0 <= wordCount l.
Proof. unfold wordCount. lia. Qed.

Lemma wordsOf_nonneg ls : 0 <= wordsOf ls.
Proof.
  induction ls as [|l ls IH]; simpl; [lia|]. pose proof (wordCount_nonneg l). lia.
Qed.

Lemma wordsOf_app a b : wordsOf (a ++ b) = wordsOf a + wordsOf b.
Proof. induction a as [|l a IH]; simpl; [done|]. rewrite IH. lia. Qed.

Lemma wordsOf_drop n ls : wordsOf (drop n ls) <= wordsOf ls.
Proof.
  rewrite <- (take_drop n ls) at 2. rewrite wordsOf_app.
  pose proof (wordsOf_nonneg (take n ls)). lia.
Qed.

Lemma wrapInt_small z : - 2 ^ 63 <= z < 2 ^ 63 -> wrapInt z = z.
Proof.
  intros H. unfold wrapInt.
  rewrite Z.mod_small; lia.
Qed.

Lemma recount_from ls : forall a,
  0 <= a -> a + wordsOf ls < 2 ^ 63 ->
  fold_left (fun acc l => wrapInt (acc + wordCount l)) ls a = a + wordsOf ls.
Proof.
  induction ls as [|l ls IH]; intros a Ha Hb; simpl in *; [lia|].
  pose proof (wordCount_nonneg l). pose proof (wordsOf_nonneg ls).
  rewrite wrapInt_small by lia. rewrite IH by lia. lia.
Qed.

Lemma recount_wordsOf ls : wordsOf ls < 2 ^ 63 -> recount ls = wordsOf ls.
Proof. intros H. unfold recount. rewrite recount_from; lia. Qed.

(** No more windows than lines, plus one for a buffer already begun. *)
Lemma windows_length maxTokens lines : forall cur len,
  (length (windows maxTokens cur len lines)
   <= length lines + (if (0 <? length cur)%nat then 1 else 0))%nat.
Proof.
  induction lines as [|line rest IH]; intros cur len; simpl.
  - destruct (0 <? length cur)%nat; simpl; lia.
  - destruct ((wrapInt (len + wordCount line) >? maxTokens)
              && (0 <? length cur)%nat) eqn:E.
    + apply andb_prop in E as [_ Hc]. rewrite Hc. simpl.
      match goal with
      | |- (S (length (windows _ ?c ?l _)) <= _)%nat => pose proof (IH c l) as H
      end.
      rewrite length_app in H. simpl in H.
      replace (0 <? length (drop (length cur - (if (length cur <? 3)%nat
                                                then length cur else 3%nat)) cur) + 1)%nat
        with true in H by (symmetry; apply Nat.ltb_lt; lia).
      lia.
    + pose proof (IH (cur ++ [line]) (wrapInt (len + wordCount line))) as H.
      rewrite length_app in H. simpl in H.
      replace (0 <? length cur + 1)%nat with true in H
        by (symmetry; apply Nat.ltb_lt; lia).
      destruct (0 <? length cur)%nat; lia.
Qed.

(** X6: the chunker emits at least one chunk and never more chunks than
    the file has lines. *)
Theorem chunkCode_count_bounded_by_lines (content : string) (maxTokens : Z) :
  (1 <= length (chunkCode content maxTokens) <= length (Split content LF))%nat.
Proof.
  split.
  - apply chunkCode_at_least_one.
  - rewrite chunkCode_windows, length_map.
    etransitivity; [apply windows_length|]. simpl. lia.
Qed.

Lemma Join_Split s sep : Join (Split s sep) (String sep EmptyString) = s.
Proof.
  induction s as [|c r IH]; simpl; [done|].
  pose proof (Split_nonempty r sep) as Hne.
  destruct (Ascii.eqb_spec c sep) as [->|Hc].
  - destruct (Split r sep) as [|l ls]; [done|].
    cbn [Join] in *. by rewrite IH.
  - destruct (Split r sep) as [|l ls]; [done|].
    destruct ls as [|l' ls]; simpl in *; by rewrite <- IH.
Qed.

(** While the words seen stay within the budget, the loop only buffers. *)
Lemma windows_within maxTokens lines : forall cur,
  cur ++ lines <> [] ->
  wordsOf cur + wordsOf lines <= maxTokens -> maxTokens < 2 ^ 63 ->
  windows maxTokens cur (wordsOf cur) lines = [cur ++ lines].
Proof.
  induction lines as [|line rest IH]; intros cur Hne Hw Hmax; simpl in *.
  - rewrite app_nil_r in *. destruct cur; [done|]. reflexivity.
  - pose proof (wordCount_nonneg line). pose proof (wordsOf_nonneg rest).
    pose proof (wordsOf_nonneg cur).
    rewrite wrapInt_small by lia.
    destruct (Z.gtb_spec (wordsOf cur + wordCount line) maxTokens) as [Hgt|_]; [lia|].
    cbn [andb].
    replace (wordsOf cur + wordCount line) with (wordsOf (cur ++ [line]))
      by (rewrite wordsOf_app; simpl; lia).
    rewrite IH.
    + by rewrite <- app_assoc.
    + by destruct cur.
    + rewrite wordsOf_app. simpl. lia.
    + done.
Qed.

(** X7: a file whose words fit the budget is one chunk, the file itself
    (the empty file included, as the empty chunk). *)
Theorem chunkCode_small_file_is_one_chunk (content : string) (maxTokens : Z) :
  totalWords content <= maxTokens -> maxTokens < 2 ^ 63 ->
  chunkCode content maxTokens = [content].
Proof.
  intros Hw Hmax. rewrite chunkCode_windows.
  change 0 with (wordsOf []).
  rewrite windows_within; [|apply Split_nonempty|exact Hw|exact Hmax].
  simpl. f_equal. apply (Join_Split content LF).
Qed.

Lemma chunkCode_small_file_is_one_chunk_witness :
  chunkCode "package main" 512 = ["package main"].
Proof.
  apply (chunkCode_small_file_is_one_chunk "package main" 512).
  - vm_compute. discriminate.
  - reflexivity.
Defined.

(** The windows keep to the budget once they are longer than the overlap
    and one line. *)
Lemma windows_budget maxTokens lines : forall cur,
  wordsOf cur + wordsOf lines < 2 ^ 63 ->
  (length cur <= 4)%nat \/ wordsOf cur <= maxTokens ->
  Forall (fun w => (length w <= 4)%nat \/ wordsOf w <= maxTokens)
    (windows maxTokens cur (wordsOf cur) lines).
Proof.
  induction lines as [|line rest IH]; intros cur Hb Hcur; simpl in *.
  - destruct (0 <? length cur)%nat; [constructor; [exact Hcur|constructor]|constructor].
  - pose proof (wordCount_nonneg line). pose proof (wordsOf_nonneg rest).
    pose proof (wordsOf_nonneg cur).
    rewrite wrapInt_small by lia.
    destruct ((wordsOf cur + wordCount line >? maxTokens)
              && (0 <? length cur)%nat) eqn:E.
    + constructor; [exact Hcur|].
      set (kept := drop _ cur).
      assert (Hk : wordsOf kept <= wordsOf cur) by apply wordsOf_drop.
      pose proof (wordsOf_nonneg kept).
      rewrite recount_wordsOf by lia. rewrite wrapInt_small by lia.
      replace (wordsOf kept + wordCount line) with (wordsOf (kept ++ [line]))
        by (rewrite wordsOf_app; simpl; lia).
      apply IH.
      * rewrite wordsOf_app. simpl. lia.
      * left. rewrite length_app. unfold kept. rewrite length_drop. simpl.
        destruct (Nat.ltb_spec (length cur) 3); lia.
    + replace (wordsOf cur + wordCount line) with (wordsOf (cur ++ [line]))
        by (rewrite wordsOf_app; simpl; lia).
      apply IH.
      * rewrite wordsOf_app. simpl. lia.
      * apply andb_false_iff in E as [E|E].
        -- right. rewrite wordsOf_app. simpl.
           destruct (Z.gtb_spec (wordsOf cur + wordCount line) maxTokens); [done|lia].
        -- left. apply Nat.ltb_ge in E. rewrite length_app. simpl. lia.
Qed.

(** X8: every chunk of more than four lines holds at most [maxTokens]
    words; only a chunk of up to three overlap lines and one new line (or
    of a single line) can exceed the budget. *)
Theorem chunkCode_long_chunks_within_budget
    (content : string) (maxTokens : Z) (c : string) :
  totalWords content < 2 ^ 63 ->
  c ∈ chunkCode content maxTokens ->
  (4 < length (linesOf c))%nat ->
  wordsOf (linesOf c) <= maxTokens.
Proof.
  intros Hb Hin Hlen.
  assert (Hl : linesOf c ∈ map linesOf (chunkCode content maxTokens))
    by (by apply list_elem_of_fmap_2).
  rewrite chunkCode_lines in Hl.
  pose proof (windows_budget maxTokens (Split content LF) []) as Hall.
  simpl in Hall. rewrite Forall_forall in Hall.
  destruct (Hall Hb (or_introl (Nat.le_0_l 4)) _ Hl) as [H|H]; [lia|done].
Qed.

Lemma chunkCode_long_chunks_within_budget_witness :
  wordsOf (linesOf (Join ["a"; "b"; "c"; "d"; "e f"] newline)) <= 512.
Proof.
  apply (chunkCode_long_chunks_within_budget
           (Join ["a"; "b"; "c"; "d"; "e f"] newline) 512
           (Join ["a"; "b"; "c"; "d"; "e f"] newline)).
  - vm_compute. reflexivity.
  - assert (chunkCode (Join ["a"; "b"; "c"; "d"; "e f"] newline) 512
            = [Join ["a"; "b"; "c"; "d"; "e f"] newline]) as ->
      by (vm_compute; reflexivity).
    by left.
  - vm_compute. lia.
Defined.

End ChunkBudgetTheory.

Module RagServiceTheory.
Import GoStrings Chunker Go Rag GoTheory RagTheory.

Lemma forEach_app {W A} (body : A -> M W unit) (xs ys : list A) w :
  forEach (xs ++ ys) body w
  = bind (forEach xs body) (fun _ => forEach ys body) w.
Proof.
  revert w. induction xs as [|x xs IH]; intros w; [done|].
  cbn [app forEach]. unfold bind.
  destruct (body x w) as [[[]|] w1]; [|done].
  rewrite IH. reflexivity.
Qed.

Lemma buildEmbeddings_short snapshotID repoID filePath vectors : forall cs i,
  (i <= length vectors < i + length cs)%nat ->
  buildEmbeddings snapshotID repoID filePath i cs vectors = None.
Proof.
  induction cs as [|c cs IH]; intros i Hlen; simpl in *.
  - lia.
  - destruct (vectors !! i) as [v|] eqn:E; [|done].
    apply lookup_lt_Some in E. rewrite IH; [done|lia].
Qed.

Lemma buildEmbeddings_rows snapshotID repoID filePath vectors : forall cs i es,
  buildEmbeddings snapshotID repoID filePath i cs vectors = Some es ->
  Forall (fun e => RepoID e = repoID /\ SnapshotID e = snapshotID
                   /\ FilePath e = filePath
                   /\ Language e = detectLanguage filePath) es.
Proof.
  induction cs as [|c cs IH]; intros i es H; simpl in H.
  - injection H as <-. constructor.
  - destruct (vectors !! i) as [v|]; [|done].
    destruct (buildEmbeddings snapshotID repoID filePath (S i) cs vectors) as [es'|] eqn:E;
      [|done].
    injection H as <-. constructor; [done|]. by eapply IH.
Qed.

(** One file of [IndexChunks], when the provider's answer, if any, has a
    vector for every chunk. *)
Lemma indexFile_any ai db repoID snapshotID file w :
  (forall vectors,
     EmbedBatch ai (length (aiLog w)) (chunksOf file) = Ok vectors ->
     (length (chunksOf file) <= length vectors)%nat) ->
  exists d new,
    indexFile ai db repoID snapshotID file w
    = (Some tt,
       mkWorld (rows w ++ new) d (aiLog w ++ [CallEmbedBatch (chunksOf file)]))
    /\ Forall (fun e => RepoID e = repoID /\ SnapshotID e = snapshotID
                        /\ FilePath e = file.1
                        /\ Language e = detectLanguage file.1) new.
Proof.
  intros Hfit.
  destruct (EmbedBatch ai (length (aiLog w)) (chunksOf file)) as [vectors|e] eqn:He.
  - specialize (Hfit vectors eq_refl).
    destruct file as [path content]. unfold indexFile, chunksOf in *. simpl in *.
    pose proof (ChunkerTheory.chunkCode_at_least_one content 512) as Hone.
    destruct (Nat.eqb_spec (length (chunkCode content 512)) 0) as [Hz|_]; [lia|].
    unfold bind at 1, callEmbedBatch, bind, get, logCall, modify, ret. simpl.
    rewrite He.
    destruct (buildEmbeddings_total snapshotID repoID path vectors
                (chunkCode content 512) 0) as (es & Hes & Hl & _); [lia|].
    rewrite Hes. pose proof (buildEmbeddings_rows _ _ _ _ _ _ _ Hes) as Hrows.
    destruct es as [|e0 es]; [simpl in Hl; lia|].
    unfold StoreBatchEmbeddings, bind, get, modify, ret. simpl.
    destruct (txError db (dbOps w) (e0 :: es)).
    + exists (S (dbOps w)), []. rewrite app_nil_r. split; [done|constructor].
    + exists (S (dbOps w)), (e0 :: es). by split.
  - exists (dbOps w), []. rewrite app_nil_r.
    rewrite (indexFile_failed _ _ _ _ _ _ e He). split; [done|constructor].
Qed.

Lemma indexFiles_any ai db repoID snapshotID : forall files w,
  (forall k f vectors, files !! k = Some f ->
     EmbedBatch ai (length (aiLog w) + k) (chunksOf f) = Ok vectors ->
     (length (chunksOf f) <= length vectors)%nat) ->
  exists d new,
    forEach files (indexFile ai db repoID snapshotID) w
    = (Some tt,
       mkWorld (rows w ++ new) d
         (aiLog w ++ map (fun f => CallEmbedBatch (chunksOf f)) files))
    /\ Forall (fun e => RepoID e = repoID /\ SnapshotID e = snapshotID
                        /\ exists f, f ∈ files /\ FilePath e = f.1
                                     /\ Language e = detectLanguage f.1) new.
Proof.
  induction files as [|f files IH]; intros w Hfit.
  - exists (dbOps w), []. simpl. rewrite !app_nil_r. split; [by destruct w|constructor].
  - destruct (indexFile_any ai db repoID snapshotID f w) as (d1 & new1 & Hstep & Hnew1).
    { intros vectors Hv. apply (Hfit 0%nat f vectors eq_refl).
      by rewrite Nat.add_0_r. }
    cbn [forEach map]. rewrite (bind_Some _ _ _ _ _ Hstep).
    destruct (IH (mkWorld (rows w ++ new1) d1
                    (aiLog w ++ [CallEmbedBatch (chunksOf f)])))
      as (d & new & Hrest & Hnew).
    { intros k f' vectors Hf' Hv. apply (Hfit (S k) f' vectors Hf').
      cbn [aiLog] in Hv. rewrite length_app in Hv. simpl in Hv.
      by replace (length (aiLog w) + S k)%nat with (length (aiLog w) + 1 + k)%nat
        by lia. }
    exists d, (new1 ++ new). rewrite Hrest. cbn [rows aiLog].
    rewrite <- !app_assoc. split; [done|].
    apply Forall_app. split.
    + eapply Forall_impl; [exact Hnew1|]. intros e (? & ? & ? & ?).
      split; [done|]. split; [done|]. exists f. split; [by left|done].
    + eapply Forall_impl; [exact Hnew|]. intros e (? & ? & f' & ? & ?).
      split; [done|]. split; [done|]. exists f'. split; [by right|done].
Qed.

(** X9: as long as every answer of the embedding provider has a vector
    for each chunk, [IndexChunks] returns a nil error whatever the provider
    and the store answer; it asks for exactly one batch embedding per
    file, in order (an empty file included, with its one empty chunk), and
    every row it adds belongs to the given repository and snapshot and to
    one of the files. *)
Theorem IndexChunks_embeds_each_file_once
    (ai : AIProvider) (db : Database) (repoID snapshotID : string)
    (files : list (string * string)) (w : World) :
  (forall k f vectors, files !! k = Some f ->
     EmbedBatch ai (length (aiLog w) + k) (chunksOf f) = Ok vectors ->
     (length (chunksOf f) <= length vectors)%nat) ->
  exists w' new,
    IndexChunks ai db repoID snapshotID files w = (Some None, w')
    /\ aiLog w' = aiLog w ++ map (fun f => CallEmbedBatch (chunksOf f)) files
    /\ rows w' = rows w ++ new
    /\ Forall (fun e => RepoID e = repoID /\ SnapshotID e = snapshotID
                        /\ exists f, f ∈ files /\ FilePath e = f.1
                                     /\ Language e = detectLanguage f.1) new.
Proof.
  intros Hfit.
  destruct (indexFiles_any ai db repoID snapshotID files w Hfit)
    as (d & new & Hrun & Hnew).
  unfold IndexChunks. rewrite (bind_Some _ _ _ _ _ Hrun).
  eexists _, new. split; [reflexivity|]. by repeat split.
Qed.

Lemma IndexChunks_embeds_each_file_once_witness :
  exists w' new,
    IndexChunks Examples.demoAI Examples.demoDb "repo-1" "snap-1"
      [("a.go", "package a"); ("empty.txt", EmptyString)] Examples.emptyStore
    = (Some None, w')
    /\ aiLog w'
       = aiLog Examples.emptyStore
         ++ map (fun f => CallEmbedBatch (chunksOf f))
              [("a.go", "package a"); ("empty.txt", EmptyString)]
    /\ rows w' = rows Examples.emptyStore ++ new
    /\ Forall (fun e => RepoID e = "repo-1" /\ SnapshotID e = "snap-1"
                        /\ exists f, f ∈ [("a.go", "package a");
                                          ("empty.txt", EmptyString)]
                                     /\ FilePath e = f.1
                                     /\ Language e = detectLanguage f.1) new.
Proof.
  apply (IndexChunks_embeds_each_file_once Examples.demoAI Examples.demoDb
           "repo-1" "snap-1" [("a.go", "package a"); ("empty.txt", EmptyString)]
           Examples.emptyStore).
  intros k f vectors Hk Hv.
  destruct k as [|[|k]]; simpl in Hk; [| |done]; injection Hk as <-;
    vm_compute in Hv; [injection Hv as <-|discriminate]; vm_compute; lia.
Defined.

(** [IndexChunks] up to a file whose answer is too short. *)
Lemma IndexChunks_short_spec
    (ai : AIProvider) (db : Database) (repoID snapshotID : string)
    (before : list (string * string)) (bad : string * string)
    (after : list (string * string)) (w : World)
    (vectors : list (list spec_float)) :
  (forall k f vs, before !! k = Some f ->
     EmbedBatch ai (length (aiLog w) + k) (chunksOf f) = Ok vs ->
     (length (chunksOf f) <= length vs)%nat) ->
  EmbedBatch ai (length (aiLog w) + length before) (chunksOf bad) = Ok vectors ->
  (length vectors < length (chunksOf bad))%nat ->
  exists w' new,
    IndexChunks ai db repoID snapshotID (before ++ bad :: after) w = (None, w')
    /\ aiLog w'
       = aiLog w ++ map (fun f => CallEmbedBatch (chunksOf f)) (before ++ [bad])
    /\ rows w' = rows w ++ new
    /\ Forall (fun e => exists f, f ∈ before /\ FilePath e = f.1) new.
Proof.
  intros Hfit Hbad Hshort.
  destruct (indexFiles_any ai db repoID snapshotID before w Hfit)
    as (d & new & Hrun & Hnew).
  unfold IndexChunks. unfold bind at 1. rewrite forEach_app.
  rewrite (bind_Some _ _ _ _ _ Hrun). cbn [forEach].
  set (w1 := mkWorld _ _ _).
  assert (Hstep : indexFile ai db repoID snapshotID bad w1
                  = (None, mkWorld (rows w1) (dbOps w1)
                             (aiLog w1 ++ [CallEmbedBatch (chunksOf bad)]))).
  { assert (Hn : length (aiLog w1) = (length (aiLog w) + length before)%nat).
    { unfold w1. cbn [aiLog]. by rewrite length_app, length_map. }
    destruct bad as [path content]. unfold indexFile, chunksOf in *. simpl in *.
    pose proof (ChunkerTheory.chunkCode_at_least_one content 512) as Hone.
    destruct (Nat.eqb_spec (length (chunkCode content 512)) 0) as [Hz|_]; [lia|].
    unfold bind at 1, callEmbedBatch, bind, get, logCall, modify, ret. simpl.
    rewrite length_app, length_map, Hbad.
    rewrite buildEmbeddings_short by (simpl; lia). reflexivity. }
  unfold bind at 1. rewrite Hstep.
  eexists _, new. split; [reflexivity|]. cbn [aiLog rows w1].
  split; [by rewrite map_app, app_assoc|]. split; [done|].
  eapply Forall_impl; [exact Hnew|]. intros e (_ & _ & f & ? & ? & _). eauto.
Qed.


(** X10: when the provider answers a file's batch with fewer vectors than
    the file has chunks, [IndexChunks] panics at [vectors[i]]: no error is
    returned, the files after it are not reached, and no row of that file
    is stored. *)
Theorem IndexChunks_panics_on_short_answer
    (ai : AIProvider) (db : Database) (repoID snapshotID : string)
    (before : list (string * string)) (bad : string * string)
    (after : list (string * string)) (w : World)
    (vectors : list (list spec_float)) :
  (forall k f vs, before !! k = Some f ->
     EmbedBatch ai (length (aiLog w) + k) (chunksOf f) = Ok vs ->
     (length (chunksOf f) <= length vs)%nat) ->
  EmbedBatch ai (length (aiLog w) + length before) (chunksOf bad) = Ok vectors ->
  (length vectors < length (chunksOf bad))%nat ->
  exists w' new,
    IndexChunks ai db repoID snapshotID (before ++ bad :: after) w = (None, w')
    /\ aiLog w'
       = aiLog w ++ map (fun f => CallEmbedBatch (chunksOf f)) (before ++ [bad])
    /\ rows w' = rows w ++ new
    /\ Forall (fun e => exists f, f ∈ before /\ FilePath e = f.1) new.
Proof.
  intros Hfit Hbad Hshort.
  by apply (IndexChunks_short_spec ai db repoID snapshotID before bad after w vectors).
Qed.

Lemma IndexChunks_panics_on_short_answer_witness :
  exists w' new,
    IndexChunks MoreExamples.stingyAI Examples.demoDb "repo-1" "snap-1"
      ([] ++ ("a.go", "package a") :: [("b.go", "package b")]) Examples.emptyStore
    = (None, w')
    /\ aiLog w'
       = aiLog Examples.emptyStore
         ++ map (fun f => CallEmbedBatch (chunksOf f)) ([] ++ [("a.go", "package a")])
    /\ rows w' = rows Examples.emptyStore ++ new
    /\ Forall (fun e => exists f : string * string, f ∈ [] /\ FilePath e = f.1) new.
Proof.
  apply (IndexChunks_panics_on_short_answer MoreExamples.stingyAI Examples.demoDb
           "repo-1" "snap-1" [] ("a.go", "package a") [("b.go", "package b")]
           Examples.emptyStore []).
  - intros k f vs Hk. done.
  - reflexivity.
  - vm_compute. lia.
Defined.

(** X11: [Query] never panics and never writes to the store; it embeds
    the question once and calls the chat model at most once, and then with
    the system prompt, the question and one context part per chunk found,
    of which there is at least one.  A successful answer carries the
    chunks found; without a chat call it is the fixed answer with no
    sources.  An error names the stage that failed. *)
Theorem Query_reads_only_and_chats_at_most_once
    (fmt : spec_float -> string) (ai : AIProvider) (db : Database)
    (repoID question : string) (w : World) :
  exists r w' chats,
    Query fmt ai db repoID question w = (Some r, w')
    /\ rows w' = rows w
    /\ aiLog w' = aiLog w ++ CallEmbed question :: chats
    /\ (chats = []
        \/ exists found,
             found <> []
             /\ chats = [CallChat querySystemPrompt question
                           (map (queryContextPart fmt) found)]
             /\ forall answer sources, r = Ok (answer, sources) -> sources = found)
    /\ (forall answer sources,
          r = Ok (answer, sources) -> chats = [] ->
          answer = noRelevantCode /\ sources = [])
    /\ (forall e, r = Err e ->
          (exists e', e = "embed query: " +:+ e')
          \/ (exists e', e = "search similar: " +:+ e')
          \/ (exists e', e = "chat: " +:+ e')).
Proof.
  unfold Query, callEmbed, SearchSimilar, callChat, logCall, bind, get, modify, ret.
  cbn -[noRelevantCode querySystemPrompt queryContextPart map].
  destruct (Embed ai (length (aiLog w)) question) as [v|e];
    cbn -[noRelevantCode querySystemPrompt queryContextPart map].
  - destruct (selectSimilar db (dbOps w) (rows w) repoID v 10) as [e|e|found];
      cbn -[noRelevantCode querySystemPrompt queryContextPart map].
    + eexists _, _, []. split; [reflexivity|].
      cbn -[noRelevantCode querySystemPrompt queryContextPart map].
      split; [done|]. split; [done|]. split; [by left|]. split; [done|].
      intros e0 [= <-]. right. left. eauto.
    + eexists _, _, []. split; [reflexivity|].
      cbn -[noRelevantCode querySystemPrompt queryContextPart map].
      split; [done|]. split; [done|]. split; [by left|]. split; [done|].
      intros e0 [= <-]. right. left. eauto.
    + destruct found as [|c found];
        cbn -[noRelevantCode querySystemPrompt queryContextPart map].
      * eexists _, _, []. split; [reflexivity|].
        cbn -[noRelevantCode querySystemPrompt queryContextPart map].
        split; [done|]. split; [done|]. split; [by left|]. split.
        -- by intros answer sources [= <- <-] _.
        -- intros e [=].
      * destruct (Chat ai (length (aiLog w ++ [CallEmbed question]))
                    querySystemPrompt question
                    (map (queryContextPart fmt) (c :: found))) as [response|e].
        -- eexists _, _, [_]. split; [reflexivity|].
           cbn -[noRelevantCode querySystemPrompt queryContextPart map].
           split; [done|]. split; [by rewrite <- app_assoc|]. split; [|split].
           ++ right. exists (c :: found). split; [done|]. split; [done|].
              by intros answer sources [= _ <-].
           ++ intros ? ? _ [=].
           ++ intros e [=].
        -- eexists _, _, [_]. split; [reflexivity|].
           cbn -[noRelevantCode querySystemPrompt queryContextPart map].
           split; [done|]. split; [by rewrite <- app_assoc|]. split; [|split].
           ++ right. exists (c :: found). split; [done|]. split; [done|].
              intros ? ? [=].
           ++ intros ? ? [=].
           ++ intros e0 [= <-]. right. right. eauto.
  - eexists _, _, []. split; [reflexivity|].
    cbn -[noRelevantCode querySystemPrompt queryContextPart map].
    split; [done|]. split; [done|]. split; [by left|]. split; [done|].
    intros e0 [= <-]. left. eauto.
Qed.

End RagServiceTheory.

Module EngineTheory.
Import GoStrings Go Orchestrator Engine GoTheory OrchestratorTheory.

Lemma NewAnalysisEngine_snoc ss s :
  NewAnalysisEngine (ss ++ [s]) = <[Name s := s]> (NewAnalysisEngine ss).
Proof. unfold NewAnalysisEngine. by rewrite foldl_app. Qed.

Lemma registeredAs_snoc name ss s :
  registeredAs name (ss ++ [s])
  = registeredAs name ss ++ (if String.eqb (Name s) name then [s] else []).
Proof. unfold registeredAs. rewrite List.filter_app. simpl. by destruct (String.eqb _ _). Qed.

Lemma NewAnalysisEngine_lookup ss name :
  NewAnalysisEngine ss !! name = last (registeredAs name ss).
Proof.
  induction ss as [|s ss IH] using rev_ind; [done|].
  rewrite NewAnalysisEngine_snoc, registeredAs_snoc.
  destruct (String.eqb_spec (Name s) name) as [<-|Hne].
  - rewrite lookup_insert_eq. by rewrite last_snoc.
  - rewrite lookup_insert_ne by done. by rewrite app_nil_r.
Qed.

(** X12: in an engine built by [NewAnalysisEngine], [Run] runs the
    strategy registered last under the name and answers
    [ErrStrategyNotFound] when none is; the orchestrator's lookup in that
    engine does the same. *)
Theorem Run_uses_last_registration
    (strategies : list AnalysisStrategy) (name : string) (n : nat)
    (req : AnalysisRequest)
    (chat : nat -> string -> string -> list string -> Result string)
    (insertError : nat -> AnalysisResultRow -> option string) (clock : nat -> Z)
    (jsonValid : string -> bool) (jsonMarshalRaw jsonWrapRaw : string -> string) :
  Run (NewAnalysisEngine strategies) name n req
  = match last (registeredAs name strategies) with
    | Some s => Analyze s n req
    | None => Err "analysis strategy not found"
    end
  /\ Orchestrator.Run
       (mkEnv (asOracles (NewAnalysisEngine strategies)) chat insertError clock
          jsonValid jsonMarshalRaw jsonWrapRaw) name n req
     = Run (NewAnalysisEngine strategies) name n req.
Proof.
  split.
  - unfold Run. by rewrite NewAnalysisEngine_lookup.
  - unfold Orchestrator.Run, Run, asOracles. cbn [engine].
    rewrite lookup_fmap. by destruct (NewAnalysisEngine strategies !! name).
Qed.

Lemma AvailableStrategies_fst visit : AvailableStrategies visit = visit.*1.
Proof.
  unfold AvailableStrategies.
  induction visit as [|x visit IH] using rev_ind; [done|].
  by rewrite foldl_app, fmap_app, IH.
Qed.

Lemma registeredAs_elem name ss s :
  s ∈ registeredAs name ss <-> s ∈ ss /\ Name s = name.
Proof.
  unfold registeredAs. rewrite list_elem_of_In, List.filter_In, <- list_elem_of_In.
  by rewrite String.eqb_eq.
Qed.

Lemma NewAnalysisEngine_size ss : (size (NewAnalysisEngine ss) <= length ss)%nat.
Proof.
  induction ss as [|s ss IH] using rev_ind; [done|].
  rewrite NewAnalysisEngine_snoc, length_app. simpl.
  destruct (NewAnalysisEngine ss !! Name s) eqn:E.
  - rewrite map_size_insert_Some by done. lia.
  - rewrite map_size_insert_None by done. lia.
Qed.

(** X13: whatever order [range] takes, [AvailableStrategies] (and with it
    [ListStrategies]) of an engine built by [NewAnalysisEngine] lists each
    registered name exactly once and nothing else, so never more names
    than strategies were given. *)
Theorem ListStrategies_each_name_once
    (strategies : list AnalysisStrategy)
    (visit : list (string * AnalysisStrategy)) :
  visits (NewAnalysisEngine strategies) visit ->
  NoDup (ListStrategies visit)
  /\ (forall name,
        name ∈ ListStrategies visit
        <-> exists s, s ∈ strategies /\ Name s = name)
  /\ (length (ListStrategies visit) <= length strategies)%nat.
Proof.
  intros Hv. unfold ListStrategies, visits in *. rewrite AvailableStrategies_fst.
  split; [|split].
  - rewrite Hv. apply NoDup_fst_map_to_list.
  - intros name. rewrite Hv. rewrite list_elem_of_fmap. split.
    + intros ([k s] & -> & Hin). apply elem_of_map_to_list in Hin. cbn.
      rewrite NewAnalysisEngine_lookup in Hin.
      assert (Hs : s ∈ registeredAs k strategies).
      { apply last_Some in Hin as [l ->]. apply elem_of_app. right. by left. }
      apply registeredAs_elem in Hs. eauto.
    + intros (s & Hin & <-).
      destruct (NewAnalysisEngine strategies !! Name s) as [s'|] eqn:E.
      * exists (Name s, s'). split; [done|]. by apply elem_of_map_to_list.
      * rewrite NewAnalysisEngine_lookup in E. apply last_None in E.
        assert (Hs : s ∈ registeredAs (Name s) strategies)
          by (by apply registeredAs_elem).
        rewrite E in Hs. by apply elem_of_nil in Hs.
  - rewrite length_fmap, Hv, length_map_to_list. apply NewAnalysisEngine_size.
Qed.

Lemma ListStrategies_each_name_once_witness :
  NoDup (ListStrategies
           (map_to_list (NewAnalysisEngine MoreExamples.threeStrategies)))
  /\ (forall name,
        name ∈ ListStrategies
                 (map_to_list (NewAnalysisEngine MoreExamples.threeStrategies))
        <-> exists s, s ∈ MoreExamples.threeStrategies /\ Name s = name)
  /\ (length (ListStrategies
                (map_to_list (NewAnalysisEngine MoreExamples.threeStrategies)))
      <= length MoreExamples.threeStrategies)%nat.
Proof.
  apply (ListStrategies_each_name_once MoreExamples.threeStrategies
           (map_to_list (NewAnalysisEngine MoreExamples.threeStrategies))).
  unfold visits. reflexivity.
Defined.

Lemma runsSoFar_others name ss : forall tr,
  name ∉ map Name ss ->
  runsSoFar name (tr ++ map (fun s => EvRunStrategy (Name s)) ss)
  = runsSoFar name tr.
Proof.
  intros tr Hn. rewrite runsSoFar_app.
  assert (runsSoFar name (map (fun s => EvRunStrategy (Name s)) ss) = 0%nat) as ->;
    [|lia].
  induction ss as [|s ss IH]; [done|].
  cbn [map] in Hn. apply not_elem_of_cons in Hn as [Hne Hn].
  unfold runsSoFar in *. cbn [map List.filter isRunOf].
  destruct (String.eqb_spec (Name s) name) as [Heq|_]; [congruence|]. by apply IH.
Qed.

Lemma okResults_cons tr req s visit :
  okResults (answersOf tr req (s :: visit))
  = match Analyze s (runsSoFar (Name s) tr) req with
    | Ok r => [r]
    | Err _ => []
    end ++ okResults (answersOf tr req visit).
Proof.
  unfold okResults, answersOf. cbn.
  by destruct (Analyze s (runsSoFar (Name s) tr) req).
Qed.

(** [RunAll] through a run of strategies that all succeed, [ran] being the
    strategies already run and [results] their results. *)
Lemma runAllFrom_prefix req w0 : forall before ran results rest,
  NoDup (map Name (ran ++ before ++ rest)) ->
  Forall (fun s => exists r, Analyze s (runsSoFar (Name s) (trace w0)) req = Ok r)
    before ->
  runAllFrom req (before ++ rest) results
    (mkWorld (tracker w0) (Orchestrator.results w0)
       (trace w0 ++ map (fun s => EvRunStrategy (Name s)) ran))
  = runAllFrom req rest (results ++ okResults (answersOf (trace w0) req before))
      (mkWorld (tracker w0) (Orchestrator.results w0)
         (trace w0 ++ map (fun s => EvRunStrategy (Name s)) (ran ++ before))).
Proof.
  induction before as [|s before IH]; intros ran results rest Hnd Hok.
  - cbn. by rewrite !app_nil_r.
  - inversion Hok as [|? ? [r Hr] Hok']; subst.
    cbn [app runAllFrom]. unfold bind at 1, get at 1, bind at 1, emit, modify at 1.
    cbn [trace tracker Orchestrator.results].
    assert (Hs : Name s ∉ map Name ran).
    { rewrite map_app in Hnd. apply NoDup_app in Hnd as (_ & Hd & _).
      intros Hin. apply (Hd _ Hin). cbn. by left. }
    rewrite (runsSoFar_others _ _ _ Hs), Hr.
    replace (trace w0 ++ map (fun s0 => EvRunStrategy (Name s0)) ran
             ++ [EvRunStrategy (Name s)])
      with (trace w0 ++ map (fun s0 => EvRunStrategy (Name s0)) (ran ++ [s]))
      by (by rewrite map_app).
    rewrite <- app_assoc.
    replace (trace w0 ++ map (fun s0 => EvRunStrategy (Name s0)) ran
             ++ [EvRunStrategy (Name s)])
      with (trace w0 ++ map (fun s0 => EvRunStrategy (Name s0)) (ran ++ [s]))
      by (by rewrite map_app).
    rewrite IH; [|by rewrite <- app_assoc|done].
    unfold okResults, answersOf. cbn [map omap]. rewrite Hr.
    by rewrite <- !app_assoc.
Qed.

(** X14: [RunAll] stops at the first strategy that fails, in the order
    [range] visits them: it returns that strategy's error as it is and no
    result, and the strategies after it are not run. *)
Theorem RunAll_stops_at_first_failure
    (before : list AnalysisStrategy) (bad : AnalysisStrategy)
    (after : list AnalysisStrategy) (req : AnalysisRequest) (w : World)
    (e : string) :
  NoDup (map Name (before ++ bad :: after)) ->
  Forall (fun s => exists r, Analyze s (runsSoFar (Name s) (trace w)) req = Ok r)
    before ->
  Analyze bad (runsSoFar (Name bad) (trace w)) req = Err e ->
  ServiceRunAll (before ++ bad :: after) req w
  = (Some (Err e),
     mkWorld (tracker w) (results w)
       (trace w ++ map (fun s => EvRunStrategy (Name s)) (before ++ [bad]))).
Proof.
  intros Hnd Hok Hbad. unfold ServiceRunAll, RunAll.
  pose proof (runAllFrom_prefix req w before [] [] (bad :: after) Hnd Hok) as H.
  cbn [map app] in H. rewrite app_nil_r in H.
  replace w with (mkWorld (tracker w) (results w) (trace w)) at 1 by (by destruct w).
  rewrite H. cbn [runAllFrom].
  unfold bind at 1, get at 1, bind at 1, emit, modify at 1.
  cbn [trace tracker Orchestrator.results].
  assert (Hs : Name bad ∉ map Name before).
  { rewrite map_app in Hnd. apply NoDup_app in Hnd as (_ & Hd & _).
    intros Hin. apply (Hd _ Hin). cbn. by left. }
  rewrite (runsSoFar_others _ _ _ Hs), Hbad. unfold ret.
  by rewrite map_app, <- app_assoc.
Qed.

Lemma RunAll_stops_at_first_failure_witness :
  ServiceRunAll
    ([MoreExamples.secondQuality] ++ MoreExamples.failingSecurity
       :: [MoreExamples.architecture])
    Examples.request Examples.freshWorld
  = (Some (Err "model offline"),
     mkWorld (tracker Examples.freshWorld) (results Examples.freshWorld)
       (trace Examples.freshWorld
        ++ map (fun s => EvRunStrategy (Name s))
             ([MoreExamples.secondQuality] ++ [MoreExamples.failingSecurity]))).
Proof.
  apply (RunAll_stops_at_first_failure [MoreExamples.secondQuality]
           MoreExamples.failingSecurity [MoreExamples.architecture]
           Examples.request Examples.freshWorld "model offline").
  - apply (bool_decide_eq_true_1 (NoDup _)). vm_compute. reflexivity.
  - repeat constructor. eexists. reflexivity.
  - reflexivity.
Defined.

(** X15: when every strategy succeeds, [RunAll] runs each once and returns
    their results in the order [range] visited them. *)
Theorem RunAll_results_in_visiting_order
    (visit : list AnalysisStrategy) (req : AnalysisRequest) (w : World) :
  NoDup (map Name visit) ->
  Forall (fun s => exists r, Analyze s (runsSoFar (Name s) (trace w)) req = Ok r)
    visit ->
  ServiceRunAll visit req w
  = (Some (Ok (okResults (answersOf (trace w) req visit))),
     mkWorld (tracker w) (results w)
       (trace w ++ map (fun s => EvRunStrategy (Name s)) visit))
  /\ length (okResults (answersOf (trace w) req visit)) = length visit.
Proof.
  intros Hnd Hok. unfold ServiceRunAll, RunAll. split.
  - assert (Hnd' : NoDup (map Name ([] ++ visit ++ [])))
      by (by rewrite app_nil_r).
    pose proof (runAllFrom_prefix req w visit [] [] [] Hnd' Hok) as H.
    rewrite (app_nil_r visit) in H. cbn [map app runAllFrom] in H.
    rewrite app_nil_r in H.
    replace w with (mkWorld (tracker w) (results w) (trace w)) at 1 by (by destruct w).
    by rewrite H.
  - clear Hnd. induction Hok as [|s visit [r Hr] _ IH]; [done|].
    rewrite okResults_cons, Hr. cbn [app length]. by rewrite IH.
Qed.

Lemma RunAll_results_in_visiting_order_witness :
  ServiceRunAll [MoreExamples.architecture; MoreExamples.secondQuality]
    Examples.request Examples.freshWorld
  = (Some (Ok (okResults
                 (answersOf (trace Examples.freshWorld) Examples.request
                    [MoreExamples.architecture; MoreExamples.secondQuality]))),
     mkWorld (tracker Examples.freshWorld) (results Examples.freshWorld)
       (trace Examples.freshWorld
        ++ map (fun s => EvRunStrategy (Name s))
             [MoreExamples.architecture; MoreExamples.secondQuality]))
  /\ length (okResults
               (answersOf (trace Examples.freshWorld) Examples.request
                  [MoreExamples.architecture; MoreExamples.secondQuality]))
     = length [MoreExamples.architecture; MoreExamples.secondQuality].
Proof.
  apply (RunAll_results_in_visiting_order
           [MoreExamples.architecture; MoreExamples.secondQuality]
           Examples.request Examples.freshWorld).
  - apply (bool_decide_eq_true_1 (NoDup _)). vm_compute. reflexivity.
  - repeat constructor; eexists; reflexivity.
Defined.

End EngineTheory.

Module AnalysisTheory.
Import GoStrings Chunker Go Orchestrator Analysis ChunkerTheory.

Lemma digitFrom_range response : forall left j score,
  digitFrom response j left = Some score -> 0 <= score <= 10.
Proof.
  induction left as [|left IH]; intros j score H; simpl in H; [done|].
  destruct (String.get j response) as [c|]; [|done].
  destruct (isDigit c) eqn:Hd.
  - unfold isDigit in Hd. apply andb_prop in Hd as [H1 H2].
    apply Nat.leb_le in H1, H2.
    destruct (String.get (S j) response) as [d|].
    + destruct (byteOf d =? 48)%nat; injection H as <-; lia.
    + injection H as <-. lia.
  - by eapply IH.
Qed.

Lemma scoreBelow_range response : forall k, 0 <= scoreBelow response k <= 10.
Proof.
  induction k as [|i IH]; cbn [scoreBelow]; [lia|].
  destruct ((i + 10 <? String.length response)%nat
            && String.eqb (String.substring i 6 response) "Score:"); [|done].
  destruct (digitFrom response (i + 6) 6) as [score|] eqn:E; [|done].
  by eapply digitFrom_range.
Qed.

(** X16: the score [extractScore] reads from the text of a response is an
    integer from 0 to 10; any other score can only come from a response
    that is itself JSON with a positive [score] field. *)
Theorem extractScore_from_text_is_0_to_10
    (jsonScore : string -> option spec_float) (response : string) :
  0 <= scanScore response <= 10
  /\ (extractScore jsonScore response = floatOf (scanScore response)
      \/ exists score,
           jsonScore response = Some score
           /\ SFltb (S754_zero false) score = true
           /\ extractScore jsonScore response = score).
Proof.
  split; [apply scoreBelow_range|].
  unfold extractScore. destruct (jsonScore response) as [score|]; [|by left].
  destruct (SFltb (S754_zero false) score) eqn:E; [|by left].
  right. by exists score.
Qed.

Lemma get_append_r pre s j :
  String.get (String.length pre + j) (pre +:+ s) = String.get j s.
Proof. induction pre as [|c pre IH]; simpl; [done|exact IH]. Qed.

Lemma substring_append_r pre s n :
  String.substring (String.length pre) n (pre +:+ s) = String.substring 0 n s.
Proof. induction pre as [|c pre IH]; simpl; [done|exact IH]. Qed.

Lemma length_append (a b : string) :
  String.length (a +:+ b) = (String.length a + String.length b)%nat.
Proof.
  induction a as [|c a IH]; [reflexivity|exact (f_equal S IH)].
Qed.

Lemma digitFrom_append_r pre s : forall left j,
  digitFrom (pre +:+ s) (String.length pre + j) left = digitFrom s j left.
Proof.
  induction left as [|left IH]; intros j; simpl; [done|].
  rewrite get_append_r.
  replace (S (String.length pre + j)) with (String.length pre + S j)%nat by lia.
  rewrite get_append_r, IH. reflexivity.
Qed.

Lemma substring_head i n s c r :
  String.substring i (S n) s = String c r -> String.get i s = Some c.
Proof.
  revert s. induction i as [|i IH]; intros s H; destruct s as [|d s]; simpl in *;
    try done.
  - by injection H as -> _.
  - by apply IH.
Qed.

Lemma hasByte_get c s i : hasByte c s = false -> String.get i s <> Some c.
Proof.
  revert i. induction s as [|d s IH]; intros i H; simpl in *; [by destruct i|].
  apply orb_false_elim in H as [Hd Hs].
  destruct i as [|i]; [|by apply IH].
  intros [= ->]. by rewrite Ascii.eqb_refl in Hd.
Qed.

(** Above a position after which no capital S occurs, the search finds
    nothing. *)
Lemma scoreBelow_no_S pre tail : forall n,
  hasByte "S" tail = false ->
  scoreBelow (pre +:+ tail) (String.length pre + n)
  = scoreBelow (pre +:+ tail) (String.length pre).
Proof.
  intros n Htail. induction n as [|n IH]; [by rewrite Nat.add_0_r|].
  replace (String.length pre + S n)%nat with (S (String.length pre + n)) by lia.
  cbn [scoreBelow].
  destruct (String.eqb_spec
              (String.substring (String.length pre + n) 6 (pre +:+ tail)) "Score:")
    as [Heq|_].
  - apply substring_head in Heq. rewrite get_append_r in Heq.
    by apply hasByte_get with (i := n) in Htail.
  - by rewrite andb_false_r.
Qed.

Lemma digit_not_S d : isDigit d = true -> Ascii.eqb d "S" = false.
Proof.
  unfold isDigit, byteOf. intros H. apply andb_prop in H as [_ H].
  apply Nat.leb_le in H. apply Ascii.eqb_neq. intros ->. vm_compute in H. lia.
Qed.

Lemma digit_not_zero_slash : (byteOf "/" =? 48)%nat = false.
Proof. reflexivity. Qed.

Lemma append_cons_split (pre : string) (c : ascii) (tail : string) :
  pre +:+ String c tail = (pre +:+ String c EmptyString) +:+ tail.
Proof.
  induction pre as [|b pre IH]; [reflexivity|exact (f_equal (String b) IH)].
Qed.

(** The search on a response that ends with a score line. *)
Lemma scanScore_at pre line suf score :
  hasByte "S" (line +:+ suf) = false ->
  (4 <= String.length (line +:+ suf))%nat ->
  digitFrom ("Score: " +:+ line +:+ suf) 6 6 = Some score ->
  scanScore (pre +:+ "Score: " +:+ line +:+ suf) = score.
Proof.
  intros HS Hlen Hd. unfold scanScore.
  set (tail := "core: " +:+ line +:+ suf).
  change (pre +:+ "Score: " +:+ line +:+ suf)
    with (pre +:+ String "S" tail).
  pose proof (append_cons_split pre "S" tail) as Hsplit.
  assert (Hl : String.length (pre +:+ String "S" tail)
               = (String.length (pre +:+ "S") + String.length tail)%nat).
  { by rewrite Hsplit, length_append. }
  rewrite Hl. rewrite Hsplit at 1.
  rewrite scoreBelow_no_S by (unfold tail; simpl; exact HS).
  rewrite <- Hsplit. rewrite length_append. cbn [String.length].
  replace (String.length pre + 1)%nat with (S (String.length pre)) by lia.
  cbn [scoreBelow].
  rewrite substring_append_r. cbn [String.substring].
  change (String.eqb "Score:" "Score:") with true. rewrite andb_true_r.
  assert (Hroom : (String.length pre + 10 <? String.length (pre +:+ String "S" tail))%nat
                  = true).
  { apply Nat.ltb_lt. rewrite length_append. unfold tail. cbn [String.length].
    change ("core: " +:+ line +:+ suf) with (String "c" (String "o" (String "r"
      (String "e" (String ":" (String " " (line +:+ suf))))))).
    cbn [String.length]. lia. }
  rewrite Hroom. rewrite digitFrom_append_r.
  change (String "S" tail) with ("Score: " +:+ line +:+ suf). by rewrite Hd.
Qed.

(** X17: a response that ends with the score line the prompts ask for,
    [Score: X/10] followed by text without a capital S (the closing
    asterisks, say), gets the score X for a digit X, and 10 for
    [Score: 10/10], whatever precedes the line. *)
Theorem scanScore_reads_the_score_line (pre suf : string) (d : ascii) :
  isDigit d = true -> hasByte "S" suf = false ->
  scanScore (pre +:+ "Score: " +:+ String d "/10" +:+ suf)
  = Z.of_nat (byteOf d - 48)
  /\ scanScore (pre +:+ "Score: " +:+ "10/10" +:+ suf) = 10.
Proof.
  intros Hd Hsuf. split.
  - apply scanScore_at.
    + change (hasByte "S" (String d "/10" +:+ suf))
        with (Ascii.eqb d "S" || hasByte "S" suf).
      by rewrite (digit_not_S d Hd).
    + change (String.length (String d "/10" +:+ suf))
        with (S (S (S (S (String.length suf))))). lia.
    + change (digitFrom ("Score: " +:+ String d "/10" +:+ suf) 6 6)
        with (if isDigit d
              then (if (byteOf "/" =? 48)%nat then Some 10
                    else Some (Z.of_nat (byteOf d - 48)))
              else digitFrom ("Score: " +:+ String d "/10" +:+ suf) 8 4).
      by rewrite Hd.
  - apply scanScore_at.
    + exact Hsuf.
    + change (String.length ("10/10" +:+ suf))
        with (S (S (S (S (S (String.length suf)))))). lia.
    + reflexivity.
Qed.

Lemma scanScore_reads_the_score_line_witness :
  scanScore ("Looks fine. **" +:+ "Score: " +:+ String "8" "/10" +:+ "**")
  = Z.of_nat (byteOf "8" - 48)
  /\ scanScore ("Looks fine. **" +:+ "Score: " +:+ "10/10" +:+ "**") = 10.
Proof.
  apply (scanScore_reads_the_score_line "Looks fine. **" "**" "8");
    reflexivity.
Defined.

Lemma scoreBelow_tail response : forall k,
  (String.length response <= 10)%nat -> scoreBelow response k = 0.
Proof.
  intros k Hlen. induction k as [|i IH]; cbn [scoreBelow]; [done|].
  destruct (Nat.ltb_spec (i + 10) (String.length response)); [lia|].
  by rewrite andb_false_l.
Qed.

(** X18: a response of at most ten bytes gets the score 0 from the text
    search, whatever it says: a score line is only recognised when the
    response holds at least eleven bytes from the line's capital S on
    (ten after it). *)
Theorem short_response_scores_zero
    (jsonScore : string -> option spec_float) (response : string) :
  (String.length response <= 10)%nat ->
  jsonScore response = None ->
  scanScore response = 0
  /\ extractScore jsonScore response = S754_zero false.
Proof.
  intros Hlen Hjson. unfold extractScore, scanScore. rewrite Hjson.
  by rewrite scoreBelow_tail.
Qed.

Lemma short_response_scores_zero_witness :
  scanScore "Score:9/10" = 0
  /\ extractScore (fun _ => None) "Score:9/10" = S754_zero false.
Proof.
  apply (short_response_scores_zero (fun _ => None) "Score:9/10").
  - vm_compute. lia.
  - reflexivity.
Defined.

Lemma append_nil_r (s : string) : s +:+ EmptyString = s.
Proof. induction s as [|c s IH]; [reflexivity|exact (f_equal (String c) IH)]. Qed.

Lemma append_assoc (a b c : string) : (a +:+ b) +:+ c = a +:+ b +:+ c.
Proof. induction a as [|x a IH]; [reflexivity|exact (f_equal (String x) IH)]. Qed.

Lemma formatFileTree_from acc files :
  foldl (fun result f => result +:+ "  " +:+ f +:+ newline) acc files
  = acc +:+ formatFileTree files.
Proof.
  unfold formatFileTree. revert acc.
  induction files as [|f files IH]; intros acc; cbn [foldl].
  - by rewrite append_nil_r.
  - rewrite IH. rewrite (IH (EmptyString +:+ "  " +:+ f +:+ newline)).
    change (EmptyString +:+ "  " +:+ f +:+ newline) with ("  " +:+ f +:+ newline).
    by rewrite !append_assoc.
Qed.

Lemma formatFileTree_cons f files :
  formatFileTree (f :: files)
  = ("  " +:+ f) +:+ String LF (formatFileTree files).
Proof.
  unfold formatFileTree at 1. cbn [foldl]. rewrite formatFileTree_from.
  change (EmptyString +:+ "  " +:+ f +:+ newline) with ("  " +:+ f +:+ newline).
  change newline with (String LF EmptyString).
  rewrite !append_assoc. reflexivity.
Qed.

(** X19: the file tree a strategy sends has one line per file, the path
    indented by two spaces, and ends with a line feed (no path holding a
    line feed itself). *)
Theorem formatFileTree_one_line_per_file (files : list string) :
  Forall (fun f => hasByte LF f = false) files ->
  Split (formatFileTree files) LF
  = map (fun f => "  " +:+ f) files ++ [EmptyString].
Proof.
  induction 1 as [|f files Hf _ IH]; [reflexivity|].
  rewrite formatFileTree_cons. rewrite Split_app_sep; [by rewrite IH|].
  exact Hf.
Qed.

Lemma formatFileTree_one_line_per_file_witness :
  Split (formatFileTree ["main.go"; "internal/port/ai.go"]) LF
  = map (fun f => "  " +:+ f) ["main.go"; "internal/port/ai.go"] ++ [EmptyString].
Proof.
  apply (formatFileTree_one_line_per_file ["main.go"; "internal/port/ai.go"]).
  repeat constructor.
Defined.

(** X20: in the engine [main] builds from the five strategies, running a
    strategy by its name calls the chat model once with that strategy's
    own prompts and the code context; a failure of the model comes back
    through [RunStrategy] as [run strategy <name>: <label>: <error>], and
    an answer becomes the result's summary, with the score read from it,
    empty details and the strategy's name. *)
Theorem registered_strategy_answers_for_its_name
    (jsonScore : string -> option spec_float)
    (chat : nat -> string -> string -> list string -> Result string)
    (t : Texts) (n : nat) (req : AnalysisRequest) :
  t ∈ [architectureTexts; codeQualityTexts; functionalityTexts; devOpsTexts;
       securityTexts] ->
  wrapRun (name t)
    (Engine.Run (Engine.NewAnalysisEngine (registered jsonScore chat)) (name t) n req)
  = match chat n (systemPrompt t) (userPrompt t) (codeContext req) with
    | Err e =>
        Err ("run strategy " +:+ name t +:+ ": " +:+ errorLabel t +:+ ": " +:+ e)
    | Ok response =>
        Ok (mkAnalysisResult (name t) response "{}"
              (extractScore jsonScore response) [] [])
    end.
Proof.
  intros Hin.
  assert (Hlookup : Engine.NewAnalysisEngine (registered jsonScore chat) !! name t
                    = Some (strategyOf jsonScore chat t)).
  { rewrite EngineTheory.NewAnalysisEngine_lookup.
    repeat (apply elem_of_cons in Hin as [->|Hin]; [reflexivity|]).
    by apply elem_of_nil in Hin. }
  unfold Engine.Run. rewrite Hlookup. cbn [strategyOf Engine.Analyze].
  unfold Analyze.
  by destruct (chat n (systemPrompt t) (userPrompt t) (codeContext req)).
Qed.

Lemma registered_strategy_answers_for_its_name_witness :
  wrapRun (name securityTexts)
    (Engine.Run
       (Engine.NewAnalysisEngine
          (registered (fun _ => None) (fun _ _ _ _ => Err "model offline")))
       (name securityTexts) 0 Examples.request)
  = match (fun _ _ _ _ => Err "model offline") 0%nat (systemPrompt securityTexts)
            (userPrompt securityTexts)
            (codeContext Examples.request) with
    | Err e =>
        Err ("run strategy " +:+ name securityTexts +:+ ": "
             +:+ errorLabel securityTexts +:+ ": " +:+ e)
    | Ok response =>
        Ok (mkAnalysisResult (name securityTexts) response "{}"
              (extractScore (fun _ => None) response) [] [])
    end.
Proof.
  apply (registered_strategy_answers_for_its_name (fun _ => None)
           (fun _ _ _ _ => Err "model offline") securityTexts 0 Examples.request).
  do 4 right. left.
Defined.

End AnalysisTheory.

Module OllamaTheory.
Import GoStrings Chunker Go Ollama GoTheory.

Lemma streamTokens_heard frames :
  streamTokens frames
  = List.filter (fun t => negb (String.eqb t EmptyString)) (map content (heard frames)).
Proof.
  induction frames as [|[f|e] frames IH]; [done| |done].
  cbn [streamTokens heard]. destruct (done f); cbn [map List.filter].
  - rewrite app_nil_r. by destruct (negb (String.eqb (content f) EmptyString)).
  - rewrite IH. by destruct (negb (String.eqb (content f) EmptyString)).
Qed.

(** X21: the channel [ChatStream] returns carries to a reader that drains
    it, in order, the non-empty contents of the frames decoded before the
    first decoding error, up to and including the first frame marked done;
    it never carries an empty token and nothing that comes after a done
    frame. *)
Theorem ChatStream_tokens
    (net : Net) (o : OllamaProvider) (n : nat)
    (systemPrompt userPrompt : string) (contextChunks : list string)
    (tokens : list string) :
  ChatStream net o n systemPrompt userPrompt contextChunks = Ok tokens ->
  exists resp,
    doRequest net n
      (requestTo (chat o) "/api/chat"
         (ChatMessages (Model (chat o)) systemPrompt
            (fullPrompt userPrompt contextChunks) true)) = Ok resp
    /\ tokens
       = List.filter (fun t => negb (String.eqb t EmptyString))
           (map content (heard (decodeFrames net (body resp))))
    /\ EmptyString ∉ tokens.
Proof.
  unfold ChatStream. intros H.
  destruct (newRequestError net _); [done|].
  destruct (doRequest net n _) as [resp|e]; [|done].
  injection H as <-. exists resp. split; [done|].
  rewrite streamTokens_heard. split; [done|].
  rewrite list_elem_of_In, List.filter_In. intros [_ H]. discriminate.
Qed.

Lemma ChatStream_tokens_witness :
  exists resp,
    doRequest MoreExamples.talkingNet 0
      (requestTo (chat MoreExamples.localOllama) "/api/chat"
         (ChatMessages (Model (chat MoreExamples.localOllama)) "be brief"
            (fullPrompt "hello" []) true)) = Ok resp
    /\ ["Hel"; "lo"]
       = List.filter (fun t => negb (String.eqb t EmptyString))
           (map content (heard (decodeFrames MoreExamples.talkingNet (body resp))))
    /\ EmptyString ∉ ["Hel"; "lo"].
Proof.
  apply (ChatStream_tokens MoreExamples.talkingNet MoreExamples.localOllama 0
           "be brief" "hello" [] ["Hel"; "lo"]).
  reflexivity.
Defined.

Lemma streamTokens_silent frames :
  Forall (fun r => match r with
                   | Ok f => content f = EmptyString
                   | Err _ => True
                   end) frames ->
  streamTokens frames = [].
Proof.
  induction 1 as [|[f|e] frames Hf _ IH]; [done| |done].
  cbn [streamTokens]. rewrite Hf. cbn. by destruct (done f).
Qed.

(** X22: [Chat] turns an answer with a status other than 200 into an
    error that quotes the status and the body, but [ChatStream] does not
    look at the status: the same answer gives a stream and no error, the
    stream of what the body decodes to, and when the body holds no
    message content the stream is empty. *)
Theorem ChatStream_ignores_the_status
    (net : Net) (o : OllamaProvider) (n : nat)
    (systemPrompt userPrompt : string) (contextChunks : list string)
    (resp : Response) :
  newRequestError net (BaseURL (chat o) +:+ "/api/chat") = None ->
  (forall p, doRequest net n (requestTo (chat o) "/api/chat" p) = Ok resp) ->
  statusCode resp <> 200 ->
  Chat net o n systemPrompt userPrompt contextChunks
  = Err ("ollama chat: ollama API error (" +:+ pretty (statusCode resp) +:+ "): "
         +:+ body resp)
  /\ ChatStream net o n systemPrompt userPrompt contextChunks
     = Ok (List.filter (fun t => negb (String.eqb t EmptyString))
             (map content (heard (decodeFrames net (body resp)))))
  /\ (Forall (fun r => match r with
                       | Ok f => content f = EmptyString
                       | Err _ => True
                       end) (decodeFrames net (body resp)) ->
      ChatStream net o n systemPrompt userPrompt contextChunks = Ok []).
Proof.
  intros Hreq Hdo Hstatus. unfold Chat, ChatStream, post.
  rewrite Hreq, !Hdo.
  destruct (Z.eqb_spec (statusCode resp) 200) as [|_]; [done|].
  split; [done|]. split; [by rewrite streamTokens_heard|].
  intros Hsilent. by rewrite streamTokens_silent.
Qed.

Lemma ChatStream_ignores_the_status_witness :
  Chat MoreExamples.failingNet MoreExamples.localOllama 0 "be brief" "hello" []
  = Err ("ollama chat: ollama API error ("
         +:+ pretty (statusCode (mkResponse 500 "{error}")) +:+ "): "
         +:+ body (mkResponse 500 "{error}"))
  /\ ChatStream MoreExamples.failingNet MoreExamples.localOllama 0 "be brief"
       "hello" []
     = Ok (List.filter (fun t => negb (String.eqb t EmptyString))
             (map content
                (heard (decodeFrames MoreExamples.failingNet
                          (body (mkResponse 500 "{error}"))))))
  /\ (Forall (fun r => match r with
                       | Ok f => content f = EmptyString
                       | Err _ => True
                       end)
        (decodeFrames MoreExamples.failingNet (body (mkResponse 500 "{error}"))) ->
      ChatStream MoreExamples.failingNet MoreExamples.localOllama 0 "be brief"
        "hello" [] = Ok []).
Proof.
  apply (ChatStream_ignores_the_status MoreExamples.failingNet
           MoreExamples.localOllama 0 "be brief" "hello" []
           (mkResponse 500 "{error}")).
  - reflexivity.
  - intros p. reflexivity.
  - discriminate.
Defined.

(** X23: [EmbedBatch] returns the embeddings the server sent without
    comparing their number with the number of texts; when a 200 answer
    holds fewer embeddings than the first file has chunks, [IndexChunks]
    over this provider panics and stores nothing. *)
Theorem IndexChunks_over_Ollama_panics_on_short_batch
    (net : Net) (o : OllamaProvider) (db : Rag.Database)
    (repoID snapshotID : string) (file : string * string)
    (rest : list (string * string)) (w : Rag.World) (b : string)
    (embeddings : list (list spec_float)) :
  newRequestError net (BaseURL (embed o) +:+ "/api/embed") = None ->
  doRequest net (length (Rag.aiLog w))
    (requestTo (embed o) "/api/embed"
       (EmbedMany (Model (embed o)) (Rag.chunksOf file)))
  = Ok (mkResponse 200 b) ->
  decodeEmbeddings net b = Ok embeddings ->
  (length embeddings < length (Rag.chunksOf file))%nat ->
  EmbedBatch net o (length (Rag.aiLog w)) (Rag.chunksOf file) = Ok embeddings
  /\ exists w',
       Rag.IndexChunks (provider net o) db repoID snapshotID (file :: rest) w
       = (None, w')
       /\ Rag.rows w' = Rag.rows w.
Proof.
  intros Hreq Hdo Hdec Hshort.
  assert (Hbatch : EmbedBatch net o (length (Rag.aiLog w)) (Rag.chunksOf file)
                   = Ok embeddings).
  { unfold EmbedBatch, post. rewrite Hreq, Hdo. cbn [statusCode body].
    change (negb (200 =? 200)) with false. cbn iota. by rewrite Hdec. }
  split; [exact Hbatch|].
  destruct (RagServiceTheory.IndexChunks_short_spec (provider net o) db repoID
              snapshotID [] file rest w embeddings)
    as (w' & new & Hrun & _ & Hrows & Hnew).
  - intros k f vs Hk. done.
  - cbn [length]. rewrite Nat.add_0_r. exact Hbatch.
  - exact Hshort.
  - exists w'. split; [exact Hrun|]. rewrite Hrows.
    destruct new as [|e new]; [by rewrite app_nil_r|].
    inversion Hnew as [|? ? (f & Hin & _) _]; subst. by apply elem_of_nil in Hin.
Qed.

Lemma IndexChunks_over_Ollama_panics_on_short_batch_witness :
  EmbedBatch MoreExamples.emptyBatchNet MoreExamples.localOllama
    (length (Rag.aiLog Examples.emptyStore))
    (Rag.chunksOf ("a.go", "package a")) = Ok []
  /\ exists w',
       Rag.IndexChunks
         (provider MoreExamples.emptyBatchNet MoreExamples.localOllama)
         Examples.demoDb "repo-1" "snap-1"
         (("a.go", "package a") :: [("b.go", "package b")]) Examples.emptyStore
       = (None, w')
       /\ Rag.rows w' = Rag.rows Examples.emptyStore.
Proof.
  apply (IndexChunks_over_Ollama_panics_on_short_batch MoreExamples.emptyBatchNet
           MoreExamples.localOllama Examples.demoDb "repo-1" "snap-1"
           ("a.go", "package a") [("b.go", "package b")] Examples.emptyStore
           "{embeddings}" []).
  - reflexivity.
  - reflexivity.
  - reflexivity.
  - vm_compute. lia.
Defined.

Lemma contextFrom_blocks : forall contextChunks i contextStr,
  contextFrom i contextChunks contextStr
  = contextStr
    +:+ foldr String.append EmptyString
          (imap (fun k => contextBlock (i + k)) contextChunks).
Proof.
  induction contextChunks as [|c rest IH]; intros i acc.
  - cbn [contextFrom imap foldr]. by rewrite AnalysisTheory.append_nil_r.
  - cbn [contextFrom imap foldr]. rewrite IH, Nat.add_0_r.
    rewrite AnalysisTheory.append_assoc. do 3 f_equal.
    apply imap_ext. intros k x _. unfold compose.
    by replace (S i + k)%nat with (i + S k)%nat by lia.
Qed.

(** X28: with at least one context chunk, the user message [Chat] and
    [ChatStream] send is the line [Relevant code context:], then one block
    per chunk in the order given, the block of the k-th chunk headed
    [--- Context chunk k ---] with k counted from 1, then the question;
    without chunks it is the question alone. *)
Theorem fullPrompt_numbers_chunks_from_one
    (userPrompt : string) (contextChunks : list string) :
  contextChunks <> [] ->
  fullPrompt userPrompt contextChunks
  = "Relevant code context:" +:+ newline
    +:+ foldr String.append EmptyString (imap contextBlock contextChunks)
    +:+ newline +:+ newline +:+ "Question: " +:+ userPrompt
  /\ fullPrompt userPrompt [] = userPrompt.
Proof.
  intros Hsome. split; [|done].
  destruct contextChunks as [|c rest]; [done|].
  unfold fullPrompt. rewrite contextFrom_blocks. done.
Qed.

Lemma fullPrompt_numbers_chunks_from_one_witness :
  fullPrompt "where is main?" ["package a"; "package b"]
  = "Relevant code context:" +:+ newline
    +:+ foldr String.append EmptyString
          (imap contextBlock ["package a"; "package b"])
    +:+ newline +:+ newline +:+ "Question: " +:+ "where is main?"
  /\ fullPrompt "where is main?" [] = "where is main?".
Proof.
  apply (fullPrompt_numbers_chunks_from_one "where is main?"
           ["package a"; "package b"]).
  discriminate.
Defined.

End OllamaTheory.

Module ChatHandlerTheory.
Import GoStrings Go Orchestrator ChatHandler.

Lemma length_substring_0 n s :
  (n <= String.length s)%nat -> String.length (String.substring 0 n s) = n.
Proof.
  revert s. induction n as [|n IH]; intros s H; destruct s as [|c s]; simpl in *;
    try done; try lia.
  rewrite IH; [done|lia].
Qed.

Lemma length_append_dots s : String.length (s +:+ "...") = (String.length s + 3)%nat.
Proof.
  induction s as [|c s IH]; [reflexivity|].
  change (String.length (String c s +:+ "...")) with (S (String.length (s +:+ "..."))).
  rewrite IH. reflexivity.
Qed.

(** X24: with a bound that is not negative, [truncate] returns the string
    itself when it is within the bound, and otherwise its first [maxLen]
    bytes followed by three dots, so never more than [maxLen + 3] bytes;
    with a negative bound it panics on every string. *)
Theorem truncate_bounds (s : string) (maxLen : Z) :
  (0 <= maxLen ->
   exists r,
     truncate s maxLen = Some r
     /\ Z.of_nat (String.length r) <= maxLen + 3
     /\ (Z.of_nat (String.length s) <= maxLen -> r = s)
     /\ (maxLen < Z.of_nat (String.length s) ->
         r = String.substring 0 (Z.to_nat maxLen) s +:+ "..."
         /\ Z.of_nat (String.length r) = maxLen + 3))
  /\ (maxLen < 0 -> truncate s maxLen = None).
Proof.
  unfold truncate. split.
  - intros Hpos.
    destruct (Z.leb_spec (Z.of_nat (String.length s)) maxLen) as [Hle|Hgt].
    + exists s. split; [done|]. split; [lia|]. split; [done|]. lia.
    + destruct (Z.ltb_spec maxLen 0) as [|_]; [lia|].
      eexists. split; [reflexivity|].
      assert (Hlen : Z.of_nat (String.length
                                 (String.substring 0 (Z.to_nat maxLen) s +:+ "..."))
                     = maxLen + 3).
      { rewrite length_append_dots, length_substring_0 by lia. lia. }
      split; [lia|]. split; [lia|]. by split.
  - intros Hneg.
    destruct (Z.leb_spec (Z.of_nat (String.length s)) maxLen) as [Hle|_]; [lia|].
    by destruct (Z.ltb_spec maxLen 0) as [_|]; [|lia].
Qed.

Lemma addResults_spec fmt : forall rs acc,
  (length acc <= 6)%nat ->
  addResults fmt rs acc
  = acc ++ map (analysisEntry fmt) (take (6 - length acc) rs).
Proof.
  induction rs as [|r rs IH]; intros acc Hlen; cbn [addResults].
  - by rewrite take_nil, app_nil_r.
  - destruct (Nat.ltb_spec 5 (length acc)) as [Hfull|Hroom].
    + replace (6 - length acc)%nat with 0%nat by lia. by rewrite take_0, app_nil_r.
    + rewrite IH by (rewrite length_app; simpl; lia).
      rewrite length_app. cbn [length].
      replace (6 - length acc)%nat with (S (6 - (length acc + 1)))%nat by lia.
      cbn [take map]. by rewrite <- app_assoc.
Qed.

Lemma addHistory_spec : forall history acc,
  addHistory history acc
  = acc ++ map (fun h => "[" +:+ Role h +:+ "]: " +:+ Content h)
             (List.filter (fun h => (String.length (Content h) <=? 500)%nat) history).
Proof.
  induction history as [|h history IH]; intros acc; cbn [addHistory List.filter].
  - by rewrite app_nil_r.
  - destruct (Nat.ltb_spec 500 (String.length (Content h))) as [Hlong|Hshort].
    + destruct (Nat.leb_spec (String.length (Content h)) 500); [lia|]. apply IH.
    + destruct (Nat.leb_spec (String.length (Content h)) 500); [|lia].
      rewrite IH. cbn [map]. by rewrite <- app_assoc.
Qed.

(** X25: the context the chat endpoint sends is the repository header,
    then the entries of the first five analysis results (and of no more),
    in order, then one entry per history turn of at most 500 bytes, in
    order; longer turns are left out. *)
Theorem chatContext_shape
    (formatScore : spec_float -> string) (repoName repoURL : string)
    (results : list AnalysisResultRow) (history : list Turn) :
  chatContext formatScore repoName repoURL results history
  = ["Repository: " +:+ repoName +:+ newline +:+ "URL: " +:+ repoURL]
    ++ map (analysisEntry formatScore) (take 5 results)
    ++ map (fun h => "[" +:+ Role h +:+ "]: " +:+ Content h)
         (List.filter (fun h => (String.length (Content h) <=? 500)%nat) history)
  /\ (length (chatContext formatScore repoName repoURL results history)
      <= 6 + length history)%nat.
Proof.
  unfold chatContext. rewrite addHistory_spec, addResults_spec by (simpl; lia).
  cbn [length]. change (6 - 1)%nat with 5%nat. split.
  - by rewrite <- app_assoc.
  - rewrite !length_app, !length_map, length_take. cbn [length].
    pose proof (List.filter_length_le
                  (fun h => (String.length (Content h) <=? 500)%nat) history).
    lia.
Qed.

End ChatHandlerTheory.

Module QueryErrorsTheory.
Import GoStrings Go GoTheory.

(** X26: when the Ollama server answers the embedding request of a
    question with a status other than 200, [Query] and [QueryStream] both
    return the error [embed query: ollama embed: ollama API error
    (<status>): <body>]; the store is not consulted and the chat model is
    not called. *)
Theorem Query_over_Ollama_reports_embed_status
    (fmt : spec_float -> string) (net : Ollama.Net) (o : Ollama.OllamaProvider)
    (db : Rag.Database) (repoID question : string) (w : Rag.World)
    (resp : Ollama.Response) :
  Ollama.newRequestError net
    (Ollama.BaseURL (Ollama.embed o) +:+ "/api/embed") = None ->
  Ollama.doRequest net (length (Rag.aiLog w))
    (Ollama.requestTo (Ollama.embed o) "/api/embed"
       (Ollama.EmbedOne (Ollama.Model (Ollama.embed o)) question))
  = Ok resp ->
  Ollama.statusCode resp <> 200 ->
  let e := "embed query: " +:+ "ollama embed: " +:+ "ollama API error ("
           +:+ pretty (Ollama.statusCode resp) +:+ "): " +:+ Ollama.body resp in
  let w' := Rag.mkWorld (Rag.rows w) (Rag.dbOps w)
              (Rag.aiLog w ++ [Rag.CallEmbed question]) in
  Rag.Query fmt (Ollama.provider net o) db repoID question w = (Some (Err e), w')
  /\ Rag.QueryStream (Ollama.provider net o) db repoID question w
     = (Some (Err e), w').
Proof.
  intros Hreq Hdo Hstatus e w'.
  assert (Hembed : Ollama.Embed net o (length (Rag.aiLog w)) question
                   = Err ("ollama embed: " +:+ "ollama API error ("
                          +:+ pretty (Ollama.statusCode resp) +:+ "): "
                          +:+ Ollama.body resp)).
  { unfold Ollama.Embed, Ollama.post. rewrite Hreq, Hdo.
    by destruct (Z.eqb_spec (Ollama.statusCode resp) 200) as [|_]. }
  unfold Rag.Query, Rag.QueryStream, Rag.callEmbed, Rag.logCall, bind, get,
    modify, ret.
  cbn [Rag.Embed Ollama.provider Rag.aiLog Rag.rows Rag.dbOps fst snd].
  rewrite Hembed. done.
Qed.

Lemma Query_over_Ollama_reports_embed_status_witness :
  let e := "embed query: " +:+ "ollama embed: " +:+ "ollama API error ("
           +:+ pretty (Ollama.statusCode (Ollama.mkResponse 500 "{error}"))
           +:+ "): " +:+ Ollama.body (Ollama.mkResponse 500 "{error}") in
  let w' := Rag.mkWorld (Rag.rows Examples.emptyStore)
              (Rag.dbOps Examples.emptyStore)
              (Rag.aiLog Examples.emptyStore ++ [Rag.CallEmbed "where is main?"]) in
  Rag.Query (fun _ => "0.90")
    (Ollama.provider MoreExamples.failingNet MoreExamples.localOllama)
    Examples.demoDb "repo-1" "where is main?" Examples.emptyStore
  = (Some (Err e), w')
  /\ Rag.QueryStream
       (Ollama.provider MoreExamples.failingNet MoreExamples.localOllama)
       Examples.demoDb "repo-1" "where is main?" Examples.emptyStore
     = (Some (Err e), w').
Proof.
  apply (Query_over_Ollama_reports_embed_status (fun _ => "0.90")
           MoreExamples.failingNet MoreExamples.localOllama Examples.demoDb
           "repo-1" "where is main?" Examples.emptyStore
           (Ollama.mkResponse 500 "{error}")).
  - reflexivity.
  - reflexivity.
  - discriminate.
Defined.

(** X27: a failure of the similarity search reaches the caller of [Query]
    and of [QueryStream] with the stage named twice: [search similar:
    search similar: <error>] when the SELECT fails and [search similar:
    scan similar: <error>] when a row does not scan.  The question was
    embedded, the store was consulted once, and the chat model is not
    called. *)
Theorem Query_names_the_search_stage_twice
    (fmt : spec_float -> string) (ai : Rag.AIProvider) (db : Rag.Database)
    (repoID question : string) (w : Rag.World)
    (queryVector : list spec_float) (label e : string) :
  Rag.Embed ai (length (Rag.aiLog w)) question = Ok queryVector ->
  (Rag.selectSimilar db (Rag.dbOps w) (Rag.rows w) repoID queryVector 10
   = Rag.QueryFailed e /\ label = "search similar: ")
  \/ (Rag.selectSimilar db (Rag.dbOps w) (Rag.rows w) repoID queryVector 10
      = Rag.ScanFailed e /\ label = "scan similar: ") ->
  let w' := Rag.mkWorld (Rag.rows w) (S (Rag.dbOps w))
              (Rag.aiLog w ++ [Rag.CallEmbed question]) in
  Rag.Query fmt ai db repoID question w
  = (Some (Err ("search similar: " +:+ label +:+ e)), w')
  /\ Rag.QueryStream ai db repoID question w
     = (Some (Err ("search similar: " +:+ label +:+ e)), w').
Proof.
  intros Hembed Hselect w'.
  unfold Rag.Query, Rag.QueryStream, Rag.callEmbed, Rag.SearchSimilar,
    Rag.logCall, bind, get, modify, ret.
  cbn [Rag.aiLog Rag.rows Rag.dbOps fst snd]. rewrite Hembed.
  cbn [Rag.aiLog Rag.rows Rag.dbOps fst snd].
  destruct Hselect as [[-> ->]|[-> ->]]; done.
Qed.

Lemma Query_names_the_search_stage_twice_witness :
  let w' := Rag.mkWorld (Rag.rows Examples.emptyStore)
              (S (Rag.dbOps Examples.emptyStore))
              (Rag.aiLog Examples.emptyStore ++ [Rag.CallEmbed "where is main?"]) in
  Rag.Query (fun _ => "0.90") MoreExamples.stingyAI MoreExamples.brokenDb
    "repo-1" "where is main?" Examples.emptyStore
  = (Some (Err ("search similar: " +:+ "search similar: " +:+ "connection refused")),
     w')
  /\ Rag.QueryStream MoreExamples.stingyAI MoreExamples.brokenDb
       "repo-1" "where is main?" Examples.emptyStore
     = (Some (Err ("search similar: " +:+ "search similar: "
                   +:+ "connection refused")), w').
Proof.
  apply (Query_names_the_search_stage_twice (fun _ => "0.90")
           MoreExamples.stingyAI MoreExamples.brokenDb "repo-1" "where is main?"
           Examples.emptyStore [S754_finite false 1 0]
           "search similar: " "connection refused").
  - reflexivity.
  - left. split; reflexivity.
Defined.

End QueryErrorsTheory.
